(** * Shallow embedding of the saliency-guided mask generation of
    SelectiveMasking ([src/sc_mask_gen.py]).

    Tokens are strings, label-probability vectors are lists of rationals
    (standing for the softmax outputs), and the classifier is an opaque
    function from a token sequence to its probability vector.  Python
    exceptions (an [IndexError] from [list.pop()], a failed [assert]) are
    modelled by [option] / an outcome type. *)

From Stdlib Require Import QArith Qround Sorted.
From stdpp Require Import base gmap sets list strings.

Open Scope nat_scope.

Abbreviation token := string.

(** Python's [a < b] on scores. *)
Definition qlt (a b : Q) : bool := negb (Qle_bool b a).

(** [l.pop()] on a Python list: [IndexError] on the empty list. *)
Definition py_pop {A} (l : list A) : option (list A) :=
  match l with
  | [] => None
  | _ => Some (removelast l)
  end.

(** [l[:n]] for an integer [n] (a negative bound counts from the end). *)
Definition py_take {A} (n : Z) (l : list A) : list A :=
  if (0 <=? n)%Z then firstn (Z.to_nat n) l
  else firstn (Z.to_nat (Z.of_nat (length l) + n)) l.

(** [[x] * n] for an integer [n] (empty when [n <= 0]). *)
Definition py_repeat {A} (x : A) (n : Z) : list A := repeat x (Z.to_nat n).

(** [numpy.argmax]: the first index of a maximal entry. *)
Fixpoint argmax_go (v : list Q) (i best : nat) (bv : Q) : nat :=
  match v with
  | [] => best
  | x :: v' => if qlt bv x then argmax_go v' (S i) i x else argmax_go v' (S i) best bv
  end.

Definition argmax (v : list Q) : nat :=
  match v with
  | [] => 0
  | x :: v' => argmax_go v' 1 0 x
  end.

(** ** The probe loop shared by [SC.forward] and [ASC.forward]

    Lines 205-234 (SC) and 385-407 (ASC).  An alive entry is a pair of the
    item's bookkeeping record ([masked_item_info] in SC, the dict in
    [masked_sens] in ASC) and its current prefix ([masked_sen]).  The
    two variants differ in how a full sentence, its original score and the
    prefix score are looked up and in how a salient position is recorded;
    these are the section variables. *)
Inductive probe_outcome (Acc : Type) :=
  | PDone (acc : Acc)
  | PIndexError
  | PAssertionError
  | POutOfFuel.
Arguments PDone {Acc} acc.
Arguments PIndexError {Acc}.
Arguments PAssertionError {Acc}.
Arguments POutOfFuel {Acc}.

Section Probe.
Context {Item Acc : Type}.
(** [right_sens[sen_right_id]] for the item *)
Variable full : Item -> list token.
(** [right_scores[sen_right_id]] *)
Variable origin : Item -> Q.
(** [mask_sens_score[doc_ground_truth]]: the ground-truth score of a prefix *)
Variable prefix_score : Item -> list token -> Q.
(** [mask_poses_d[sen_doc_pos].append(mask_pos)] / [mask_poses_L[doc].add(mask_pos)] *)
Variable record : Item -> nat -> Acc -> Acc.
Variable threshold : Q.
(** [self.evaluate(masked_sens)] at the start of a round (line 209 /
    388) succeeds on the batch: [false] is the [AssertionError] of its
    feature conversion. *)
Variable evaluate_ok : list (Item * list token) -> bool.

(** The test of line 218 / 398. *)
Definition is_salient (it : Item) (p : list token) : bool :=
  qlt (origin it - prefix_score it p)%Q threshold.

(** One iteration of the inner [for] loop, for one alive sentence
    [(it, masked_sen)] at round [mask_pos].  Returns the entry kept for
    the next round (if any) and the updated salient positions; [None]
    is the [IndexError] of [masked_sen.pop()]. *)
Definition probe_item (mask_pos : nat) (it : Item) (masked_sen : list token)
    (acc : Acc) : option (option (Item * list token) * Acc) :=
  let salient := is_salient it masked_sen in
  let acc' := if salient then record it mask_pos acc else acc in
  match (if salient then py_pop masked_sen else Some masked_sen) with
  | None => None
  | Some p =>
      if mask_pos + 1 <? length (full it)
      then Some (Some (it, p ++ [nth (mask_pos + 1) (full it) ""%string]), acc')
      else Some (None, acc')
  end.

(** One round: the whole [for] loop over the batch, in batch order.  The
    scores are those of the prefixes as they were at the start of the
    round ([self.evaluate(masked_sens)] runs first); each entry is
    mutated only at its own turn, so scoring it at its turn is the same. *)
Fixpoint probe_round (mask_pos : nat) (alive : list (Item * list token))
    (acc : Acc) : option (list (Item * list token) * Acc) :=
  match alive with
  | [] => Some ([], acc)
  | (it, p) :: rest =>
      match probe_item mask_pos it p acc with
      | None => None
      | Some (kept, acc1) =>
          match probe_round mask_pos rest acc1 with
          | None => None
          | Some (alive', acc2) =>
              Some (match kept with Some e => e :: alive' | None => alive' end, acc2)
          end
      end
  end.

(** The [while len(masked_sens) != 0] loop; [mask_pos += 1] after each
    round.  [fuel] bounds the number of rounds; [probe_fuel] below gives
    a bound that is always enough. *)
Fixpoint probe_loop (fuel mask_pos : nat) (alive : list (Item * list token))
    (acc : Acc) : probe_outcome Acc :=
  match alive with
  | [] => PDone acc
  | _ =>
      match fuel with
      | 0 => POutOfFuel
      | S fuel' =>
          if evaluate_ok alive then
            match probe_round mask_pos alive acc with
            | None => PIndexError
            | Some (alive', acc') => probe_loop fuel' (S mask_pos) alive' acc'
            end
          else PAssertionError
      end
  end.

(** Initial batch: every retained sentence with its first token
    ([sen[0:1]]). *)
Definition probe_init (items : list Item) : list (Item * list token) :=
  map (fun it => (it, firstn 1 (full it))) items.

Definition probe_fuel (items : list Item) : nat :=
  S (list_max (map (fun it => length (full it)) items)).

Definition probe (items : list Item) (acc0 : Acc) : probe_outcome Acc :=
  probe_loop (probe_fuel items) 0 (probe_init items) acc0.
End Probe.

(** ** Masking of the chosen positions ([create_mask])

    [SC.create_mask] (107-125), [ASC.create_mask] (305-322) and
    [ModelGen.create_mask] (441-458) share one body; SC and ASC skip a
    position whose token is a stop word ([nlp.vocab[tok].is_stop]),
    ModelGen has no such test.  The random source is Python's [rng]:
    [rng.random()] and [rng.randint(a, b)] are state-passing functions. *)

(** [{}] is [None]; [{"mask": m, "label": l}] is [Some (m, l)]. *)
Abbreviation masked_item := (option (token * token)).

Section Masking.
Context {RNG : Type}.
Variable rng_random : RNG -> Q * RNG.
Variable rng_randint : Z -> Z -> RNG -> Z * RNG.
(** [self.vocab = list(self.tokenizer.vocab.keys())] *)
Variable vocab : list token.

(** Lines 116-122: the replacement token for the original token [tok]. *)
Definition mask_token (tok : token) (g : RNG) : token * RNG :=
  let (u, g1) := rng_random g in
  if qlt u (8 # 10) then ("[MASK]"%string, g1)
  else
    let (v, g2) := rng_random g1 in
    if qlt v (1 # 2) then (tok, g2)
    else
      let (k, g3) := rng_randint 0 (Z.of_nat (length vocab) - 1)%Z g2 in
      (nth (Z.to_nat k) vocab ""%string, g3).

(** The [for pos in mask_poses] loop; [skip] is the stop-word test
    ([fun _ => false] for ModelGen).  [sen[pos]] out of range is an
    [IndexError] ([None]). *)
Fixpoint create_mask_go (skip : token -> bool) (mask_poses : list nat)
    (sen : list token) (masked_info : list masked_item) (g : RNG)
    : option (list masked_item * RNG) :=
  match mask_poses with
  | [] => Some (masked_info, g)
  | pos :: rest =>
      match sen !! pos with
      | None => None
      | Some tok =>
          if skip tok then create_mask_go skip rest sen masked_info g
          else
            let (m, g') := mask_token tok g in
            create_mask_go skip rest sen (<[pos := Some (m, tok)]> masked_info) g'
      end
  end.

(** [masked_info = [{} for token in sen]] then the loop. *)
Definition create_mask_with (skip : token -> bool) (mask_poses : list nat)
    (sen : list token) (g : RNG) : option (list masked_item * RNG) :=
  create_mask_go skip mask_poses sen (repeat None (length sen)) g.
End Masking.

(** [random.Random.shuffle] as CPython writes it:
    [for i in reversed(range(1, len(x))): j = randbelow(i + 1);
    x[i], x[j] = x[j], x[i]].  [randbelow n] is [_randbelow(n)]. *)
Section Shuffle.
Context {RNG A : Type}.
Variable randbelow : nat -> RNG -> nat * RNG.

(** [x[i], x[j] = x[j], x[i]]: the right side is read first, then [x[i]]
    and [x[j]] are stored in that order; an index out of range is an
    [IndexError] ([None]). *)
Definition py_swap (x : list A) (i j : nat) : option (list A) :=
  match x !! j, x !! i with
  | Some xj, Some xi => Some (<[j := xi]> (<[i := xj]> x))
  | _, _ => None
  end.

Fixpoint shuffle_go (idx : list nat) (x : list A) (g : RNG) : option (list A * RNG) :=
  match idx with
  | [] => Some (x, g)
  | i :: idx' =>
      let (j, g1) := randbelow (S i) g in
      match py_swap x i j with
      | None => None
      | Some x' => shuffle_go idx' x' g1
      end
  end.

Definition py_shuffle (x : list A) (g : RNG) : option (list A * RNG) :=
  shuffle_go (rev (seq 1 (length x - 1))) x g.
End Shuffle.

(** [MaskedTokenInstance(tokens, info)] *)
Record MaskedTokenInstance := { mti_tokens : list token; mti_info : list masked_item }.

(** ** Feature conversion ([convert_examples_to_features]) *)
Record InputFeatures := {
  input_ids : list Z; input_mask : list Z; segment_ids : list Z }.

(** The three [assert len(...) == self.max_seq_length] of a feature:
    [None] is the [AssertionError]. *)
Definition check_lengths (max_seq_length : Z) (f : InputFeatures) : option InputFeatures :=
  if (Z.of_nat (length (input_ids f)) =? max_seq_length)%Z
     && (Z.of_nat (length (input_mask f)) =? max_seq_length)%Z
     && (Z.of_nat (length (segment_ids f)) =? max_seq_length)%Z
  then Some f else None.

Section Features.
(** [self.tokenizer.convert_tokens_to_ids], token by token. *)
Variable tok_id : token -> Z.
Variable max_seq_length : Z.

(** [SC.convert_examples_to_features], lines 57-74, for one example. *)
Definition sc_feature (tokens_a : list token) : option InputFeatures :=
  let tokens_a := if (max_seq_length - 2 <? Z.of_nat (length tokens_a))%Z
                  then py_take (max_seq_length - 2) tokens_a else tokens_a in
  let tokens := ["[CLS]"%string] ++ tokens_a ++ ["[SEP]"%string] in
  let segment_ids := repeat 0%Z (length tokens) in
  let input_ids := map tok_id tokens in
  let input_mask := repeat 1%Z (length input_ids) in
  let padding := py_repeat 0%Z (max_seq_length - Z.of_nat (length input_ids)) in
  check_lengths max_seq_length
    {| input_ids := input_ids ++ padding; input_mask := input_mask ++ padding;
       segment_ids := segment_ids ++ padding |}.

(** [ASC.convert_examples_to_features], lines 327-344, for one example
    [{"text": text, "aspect": aspect}]. *)
Definition asc_feature (text aspect : list token) : option InputFeatures :=
  let tokens_b := if (max_seq_length - 2 <? Z.of_nat (length text))%Z
                  then py_take (max_seq_length - 2) text else text in
  let tokens_a := aspect in
  let tokens := ["[CLS]"%string] ++ tokens_a ++ ["[SEP]"%string] ++ tokens_b ++ ["[SEP]"%string] in
  let segment_ids := repeat 0%Z (length tokens_a + 2) ++ repeat 1%Z (length tokens_b + 1) in
  let input_ids := map tok_id tokens in
  let input_mask := repeat 1%Z (length input_ids) in
  let padding := py_repeat 0%Z (max_seq_length - Z.of_nat (length input_ids)) in
  check_lengths max_seq_length
    {| input_ids := input_ids ++ padding; input_mask := input_mask ++ padding;
       segment_ids := segment_ids ++ padding |}.

Definition sc_convert_examples_to_features (data : list (list token)) : option (list InputFeatures) :=
  mapM sc_feature data.

Definition asc_convert_examples_to_features (data : list (list token * list token))
    : option (list InputFeatures) :=
  mapM (fun ex => asc_feature ex.1 ex.2) data.
End Features.

(** ** [SC]: sentence-level classification *)
Module SC.
(** The tuple [(sentence, doc_id, sen_doc_pos, pred, score)] of line 181. *)
Record cand := {
  c_sen : list token; c_doc_id : nat; c_pos : nat; c_pred : nat; c_score : Q }.

(** [masked_item_info] of line 203. *)
Record item_info := { sen_doc_pos : nat; sen_right_id : nat; doc_ground_truth : nat }.

(** [sorted(ds, key=lambda x: x[-1], reverse=True)]: Python's sort is
    stable also with [reverse=True], so equal scores keep their order.
    Insertion places a new element after every element of score >= its own. *)
Fixpoint insert_desc (x : cand) (l : list cand) : list cand :=
  match l with
  | [] => [x]
  | y :: l' => if qlt (c_score y) (c_score x) then x :: l else y :: insert_desc x l'
  end.

Definition sort_desc (l : list cand) : list cand :=
  fold_left (fun acc x => insert_desc x acc) l [].

(** [max(int(self.top_sen_rate * len(ds)), 1)]; [int] truncates toward
    zero, which agrees with [Qfloor] once clamped at 1. *)
Definition top_count (top_sen_rate : Q) (n : nat) : nat :=
  Nat.max (Z.to_nat (Qfloor (top_sen_rate * inject_Z (Z.of_nat n)))) 1.

(** Lines 183-186 for one document: [ds] are the correctly classified
    sentences of the document in sentence order. *)
Definition select_top (top_sen_rate : Q) (ds : list cand) : list cand :=
  match ds with
  | [] => []
  | _ => firstn (top_count top_sen_rate (length ds)) (sort_desc ds)
  end.

Section Forward.
Context {RNG : Type}.
Variable rng_random : RNG -> Q * RNG.
Variable rng_randint : Z -> Z -> RNG -> Z * RNG.
Variable vocab : list token.
(** [lexeme.is_stop] *)
Variable is_stop : token -> bool.
(** [self.evaluate] on one token sequence: its softmax vector (the
    truncation of [convert_examples_to_features] included). *)
Variable classify : list token -> list Q.
(** [self.tokenizer.convert_tokens_to_ids] and [self.max_seq_length], for
    the feature conversion that [self.evaluate] runs first. *)
Variable tok_id : token -> Z.
Variable max_seq_length : Z.
Variable top_sen_rate threshold : Q.

Definition create_mask (mask_poses : list nat) (sen : list token) (g : RNG) :=
  create_mask_with rng_random rng_randint vocab is_stop mask_poses sen g.

(** [rng.shuffle] on the same random source. *)
Variable randbelow : nat -> RNG -> nat * RNG.
Variable mask_rate : Q.

(** [create_reverse_mask], lines 127-142: mask up to
    [max(1, int(mask_rate * len(sen)))] positions that are not in
    [mask_poses], chosen by a shuffle; no stop-word test.  The count is
    [top_count]: [int] truncates toward zero and agrees with [Qfloor]
    once clamped at 1. *)
Definition create_reverse_mask (mask_poses : list nat) (sen : list token) (g : RNG)
    : option (list masked_item * RNG) :=
  let reverse_mask_poses :=
    List.filter (fun i => negb (existsb (Nat.eqb i) mask_poses)) (seq 0 (length sen)) in
  match py_shuffle randbelow reverse_mask_poses g with
  | None => None
  | Some (shuffled, g1) =>
      let cand_indexes := firstn (top_count mask_rate (length sen)) shuffled in
      create_mask_go rng_random rng_randint vocab (fun _ => false) cand_indexes sen
        (repeat None (length sen)) g1
  end.

(** Lines 154-161, after segmentation and tokenization: [docs] holds the
    tokenized sentences of each document. *)
Definition sentences (docs : list (list (list token))) : list (list token) :=
  concat docs.

Definition sen_doc_ids (docs : list (list (list token))) : list nat :=
  concat (imap (fun doc_id tL => repeat doc_id (length tL)) docs).

(** The [while i < len(sen_doc_ids) and sen_doc_ids[i] == doc_id] scan,
    over the remaining [(i, doc id)] pairs. *)
Fixpoint span_doc (doc_id : nat) (l : list (nat * nat)) : list nat * list (nat * nat) :=
  match l with
  | (i, d) :: l' =>
      if Nat.eqb d doc_id then let (g, r) := span_doc doc_id l' in (i :: g, r)
      else ([], l)
  | [] => ([], [])
  end.

(** Lines 172-191: the retained sentences of all documents, in the
    order they are appended to [right_sens]. *)
Fixpoint select_docs (sents : list (list token)) (all_label_ids : list nat)
    (doc_id fuel : nat) (l : list (nat * nat)) : list cand :=
  match fuel with
  | 0 => []
  | S fuel' =>
      let (grp, rest) := span_doc doc_id l in
      let gt := nth doc_id all_label_ids 0 in
      let ds := flat_map (fun i =>
                  let sen := nth i sents [] in
                  let v := classify sen in
                  if Nat.eqb gt (argmax v)
                  then [{| c_sen := sen; c_doc_id := doc_id; c_pos := i;
                           c_pred := argmax v; c_score := nth gt v 0%Q |}]
                  else []) grp in
      select_top top_sen_rate ds ++ select_docs sents all_label_ids (S doc_id) fuel' rest
  end.

Definition right_cands (docs : list (list (list token))) (all_label_ids : list nat) : list cand :=
  select_docs (sentences docs) all_label_ids 0 (length docs)
    (imap pair (sen_doc_ids docs)).

(** Lines 200-203: the bookkeeping record of each retained sentence. *)
Definition init_infos (all_label_ids sdi : list nat) (rc : list cand) : list item_info :=
  imap (fun sen_right_id c =>
          {| sen_doc_pos := c_pos c; sen_right_id := sen_right_id;
             doc_ground_truth := nth (nth (c_pos c) sdi 0) all_label_ids 0 |}) rc.

(** Lookups of the probe into [right_sens] and [right_scores]. *)
Definition full_of (rc : list cand) (it : item_info) : list token :=
  nth (sen_right_id it) (map c_sen rc) [].

Definition origin_of (rc : list cand) (it : item_info) : Q :=
  nth (sen_right_id it) (map c_score rc) 0%Q.

Definition prefix_score (it : item_info) (p : list token) : Q :=
  nth (doc_ground_truth it) (classify p) 0%Q.

(** Lines 220-223: [mask_poses_d], keyed by the position of the
    sentence in [sentences]. *)
Definition record (it : item_info) (mask_pos : nat) (d : gmap nat (list nat))
    : gmap nat (list nat) :=
  match d !! sen_doc_pos it with
  | Some l => <[sen_doc_pos it := l ++ [mask_pos]]> d
  | None => <[sen_doc_pos it := [mask_pos]]> d
  end.

(** [self.evaluate(data)], lines 78-106, as far as [forward] sees it:
    [convert_examples_to_features] runs first ([PAssertionError] when one
    of its asserts fails); with no example the batch loop never runs and
    [preds[0]] raises [IndexError]; otherwise row [i] of [preds[0]] is
    the softmax vector [classify] of example [i]. *)
Definition evaluate (data : list (list token)) : probe_outcome (list (list Q)) :=
  match sc_convert_examples_to_features tok_id max_seq_length data with
  | None => PAssertionError
  | Some _ =>
      match data with
      | [] => PIndexError
      | _ => PDone (map classify data)
      end
  end.

(** Line 209: [self.evaluate(masked_sens)] on the prefixes of a round. *)
Definition evaluate_ok (alive : list (item_info * list token)) : bool :=
  match evaluate (map snd alive) with PDone _ => true | _ => false end.

(** Line 177: [all_label_ids[doc_id]] is read for every document that
    has a sentence; an [IndexError] when the label is missing. *)
Definition labels_ok (docs : list (list (list token))) (all_label_ids : list nat) : bool :=
  forallb (fun dd => match dd.2 with [] => true | _ => dd.1 <? length all_label_ids end)
    (imap pair docs).

(** Lines 164-234: [mask_poses_d] at the end of the probe.  The first
    [self.evaluate(sentences)] (line 164) must succeed; [right_cands]
    then reads row [i] of its scores as [classify] of sentence [i]. *)
Definition mask_poses_d (docs : list (list (list token))) (all_label_ids : list nat)
    : probe_outcome (gmap nat (list nat)) :=
  match evaluate (sentences docs) with
  | PIndexError => PIndexError
  | PAssertionError => PAssertionError
  | POutOfFuel => POutOfFuel
  | PDone _ =>
      if labels_ok docs all_label_ids then
        let rc := right_cands docs all_label_ids in
        probe (full_of rc) (origin_of rc) prefix_score record threshold evaluate_ok
          (init_infos all_label_ids (sen_doc_ids docs) rc) ∅
      else PIndexError
  end.

(** Lines 248-254 for one document: one [MaskedTokenInstance] per
    sentence of the document, starting at sentence index [i]. *)
Fixpoint build_doc (sents : list (list token)) (d : gmap nat (list nat))
    (grp : list nat) (g : RNG) : option (list MaskedTokenInstance * RNG) :=
  match grp with
  | [] => Some ([], g)
  | i :: grp' =>
      let sen := nth i sents [] in
      let mask_poses := match d !! i with Some l => l | None => [] end in
      match create_mask mask_poses sen g with
      | None => None
      | Some (m_info, g1) =>
          match build_doc sents d grp' g1 with
          | None => None
          | Some (rest, g2) =>
              Some ({| mti_tokens := sen; mti_info := m_info |} :: rest, g2)
          end
      end
  end.

(** The [for doc_id in range(doc_num)] loop of one replica. *)
Fixpoint build_docs (sents : list (list token)) (d : gmap nat (list nat))
    (doc_id fuel : nat) (l : list (nat * nat)) (g : RNG)
    : option (list (list MaskedTokenInstance) * RNG) :=
  match fuel with
  | 0 => Some ([], g)
  | S fuel' =>
      let (grp, rest) := span_doc doc_id l in
      match build_doc sents d grp g with
      | None => None
      | Some (doc, g1) =>
          match build_docs sents d (S doc_id) fuel' rest g1 with
          | None => None
          | Some (docs, g2) => Some (doc :: docs, g2)
          end
      end
  end.

(** The [for _ in range(dupe_factor)] loop. *)
Fixpoint replicate_docs (docs : list (list (list token))) (d : gmap nat (list nat))
    (dupe_factor : nat) (g : RNG) : option (list (list MaskedTokenInstance) * RNG) :=
  match dupe_factor with
  | 0 => Some ([], g)
  | S n =>
      match build_docs (sentences docs) d 0 (length docs)
              (imap pair (sen_doc_ids docs)) g with
      | None => None
      | Some (one, g1) =>
          match replicate_docs docs d n g1 with
          | None => None
          | Some (more, g2) => Some (one ++ more, g2)
          end
      end
  end.

(** [SC.forward(data, all_labels, dupe_factor, rng)], from the
    tokenized sentences of each document and the label ids. *)
Definition forward (docs : list (list (list token))) (all_label_ids : list nat)
    (dupe_factor : nat) (g : RNG) : option (list (list MaskedTokenInstance) * RNG) :=
  match mask_poses_d docs all_label_ids with
  | PDone d => replicate_docs docs d dupe_factor g
  | _ => None
  end.
End Forward.
End SC.


(** ** [ASC]: aspect-level classification *)
Module ASC.
(** An entry of [sentences]: [{"text", "aspect", "label"}]. *)
Record asc_sentence := { text : list token; aspect : list token; label : nat }.

(** An entry of [masked_sens] without its ["text"] prefix. *)
Record item := { i_aspect : list token; i_label : nat; sen_right_id : nat }.

(** A fact: the aspect ([category] or [term]) already tokenized and its
    polarity as a label id, [None] for ["conflict"]. *)
Record fact := { f_aspect : list token; f_polarity : option nat }.

Section Forward.
Context {RNG : Type}.
Variable rng_random : RNG -> Q * RNG.
Variable rng_randint : Z -> Z -> RNG -> Z * RNG.
Variable vocab : list token.
Variable is_stop : token -> bool.
(** [self.evaluate] on one (aspect, text) pair. *)
Variable classify : list token -> list token -> list Q.
(** [self.tokenizer.convert_tokens_to_ids] and [self.max_seq_length], for
    the feature conversion that [self.evaluate] runs first. *)
Variable tok_id : token -> Z.
Variable max_seq_length : Z.
Variable threshold : Q.

Definition create_mask (mask_poses : list nat) (sen : list token) (g : RNG) :=
  create_mask_with rng_random rng_randint vocab is_stop mask_poses sen g.

(** Lines 356-363: [docs] holds each document's tokenized text and facts. *)
Definition sentences_of (docs : list (list token * list fact))
    : list (asc_sentence * nat) :=
  concat (imap (fun doc_id doc =>
    flat_map (fun f => match f_polarity f with
                       | Some l => [({| text := doc.1; aspect := f_aspect f; label := l |}, doc_id)]
                       | None => []
                       end) doc.2) docs).

(** Lines 372-376: the correctly classified pairs, with their document
    id and ground-truth score. *)
Definition right_sens (docs : list (list token * list fact))
    : list (asc_sentence * nat * Q) :=
  flat_map (fun sd =>
    let v := classify (aspect sd.1) (text sd.1) in
    if Nat.eqb (argmax v) (label sd.1) then [(sd.1, sd.2, nth (label sd.1) v 0%Q)] else [])
    (sentences_of docs).

Definition full_of (rs : list (asc_sentence * nat * Q)) (it : item) : list token :=
  nth (sen_right_id it) (map (fun r => text r.1.1) rs) [].

Definition origin_of (rs : list (asc_sentence * nat * Q)) (it : item) : Q :=
  nth (sen_right_id it) (map (fun r => r.2) rs) 0%Q.

Definition prefix_score (it : item) (p : list token) : Q :=
  nth (i_label it) (classify (i_aspect it) p) 0%Q.

(** Line 399: [mask_poses_L[right_sen_doc_id].add(mask_pos)]. *)
Definition record (rs : list (asc_sentence * nat * Q)) (it : item) (mask_pos : nat)
    (L : list (gset nat)) : list (gset nat) :=
  alter (fun s => {[mask_pos]} ∪ s) (nth (sen_right_id it) (map (fun r => r.1.2) rs) 0) L.

Definition init_items (rs : list (asc_sentence * nat * Q)) : list item :=
  imap (fun sen_right_id r =>
          {| i_aspect := aspect r.1.1; i_label := label r.1.1; sen_right_id := sen_right_id |}) rs.

(** [self.evaluate(data)], lines 278-303, on examples [(text, aspect)],
    as far as [forward] sees it: [convert_examples_to_features] runs
    first ([PAssertionError] when one of its asserts fails); with no
    example [preds[0]] raises [IndexError] (line 302); otherwise row [i]
    of [preds[0]] is the softmax vector of example [i]. *)
Definition evaluate (data : list (list token * list token)) : probe_outcome (list (list Q)) :=
  match asc_convert_examples_to_features tok_id max_seq_length data with
  | None => PAssertionError
  | Some _ =>
      match data with
      | [] => PIndexError
      | _ => PDone (map (fun ex => classify ex.2 ex.1) data)
      end
  end.

(** Line 388: [self.evaluate(masked_sens)] on the prefixes of a round. *)
Definition evaluate_ok (alive : list (item * list token)) : bool :=
  match evaluate (map (fun e => (e.2, i_aspect e.1)) alive) with PDone _ => true | _ => false end.

(** Lines 365-407: [mask_poses_L] at the end of the probe.  The first
    [self.evaluate(sentences)] (line 366) must succeed; [right_sens]
    then reads row [i] of its scores as [classify] of pair [i]. *)
Definition mask_poses_L (docs : list (list token * list fact)) : probe_outcome (list (gset nat)) :=
  match evaluate (map (fun sd => (text sd.1, aspect sd.1)) (sentences_of docs)) with
  | PIndexError => PIndexError
  | PAssertionError => PAssertionError
  | POutOfFuel => POutOfFuel
  | PDone _ =>
      let rs := right_sens docs in
      probe (full_of rs) (origin_of rs) prefix_score (record rs) threshold evaluate_ok
        (init_items rs) (repeat ∅ (length docs))
  end.

(** Lines 415-419: one instance per document and replica; the set
    [mask_poses] is iterated in Python's set order, modelled by
    [elements]. *)
Fixpoint build_docs (texts : list (list token)) (L : list (gset nat)) (g : RNG)
    : option (list (list MaskedTokenInstance) * RNG) :=
  match texts, L with
  | t :: texts', s :: L' =>
      match create_mask (elements s) t g with
      | None => None
      | Some (m_info, g1) =>
          match build_docs texts' L' g1 with
          | None => None
          | Some (rest, g2) => Some ([{| mti_tokens := t; mti_info := m_info |}] :: rest, g2)
          end
      end
  | _, _ => Some ([], g)
  end.

Fixpoint replicate_docs (texts : list (list token)) (L : list (gset nat))
    (dupe_factor : nat) (g : RNG) : option (list (list MaskedTokenInstance) * RNG) :=
  match dupe_factor with
  | 0 => Some ([], g)
  | S n =>
      match build_docs texts L g with
      | None => None
      | Some (one, g1) =>
          match replicate_docs texts L n g1 with
          | None => None
          | Some (more, g2) => Some (one ++ more, g2)
          end
      end
  end.

Definition forward (docs : list (list token * list fact)) (dupe_factor : nat) (g : RNG)
    : option (list (list MaskedTokenInstance) * RNG) :=
  match mask_poses_L docs with
  | PDone L => replicate_docs (map fst docs) L dupe_factor g
  | _ => None
  end.
End Forward.
End ASC.

(** ** [ModelGen.create_mask]: no stop-word test. *)
Module ModelGen.
Definition create_mask {RNG} (rng_random : RNG -> Q * RNG)
    (rng_randint : Z -> Z -> RNG -> Z * RNG) (vocab : list token)
    (mask_poses : list nat) (sen : list token) (g : RNG) :=
  create_mask_with rng_random rng_randint vocab (fun _ => false) mask_poses sen g.

(** [convert_examples_to_features], lines 460-477, for one example: its
    [input_ids] and [input_mask] ([segment_ids] is [None]).  The
    [while len(input_ids) < max_seq_length] loop appends zeros to both. *)
Definition feature (tok_id : token -> Z) (max_seq_length : Z) (tokens : list token)
    : list Z * list Z :=
  let tokens := if (max_seq_length - 1 <=? Z.of_nat (length tokens))%Z
                then py_take (max_seq_length - 2) tokens else tokens in
  let ntokens := ["[CLS]"%string] ++ tokens ++ ["[SEP]"%string] in
  let input_ids := map tok_id ntokens in
  let input_mask := repeat 1%Z (length input_ids) in
  let pad := Z.to_nat (max_seq_length - Z.of_nat (length input_ids)) in
  (input_ids ++ repeat 0%Z pad, input_mask ++ repeat 0%Z pad).

(** Lines 505-516 of [evaluate] for one example, from the model's
    per-position label [r] ([torch.argmax(logits, dim=2)]), the mask row
    [m] and the logits [l]: the loop over [j in range(1, len(m))] reads
    [m[j], r[j], l[j]] and keeps [(r[j], l[j][r[j]])] where [m[j] == 1];
    an index out of range is an [IndexError] ([None]). *)
Fixpoint token_preds_go (js : list nat) (r : list nat) (m : list Z) (l : list (list Q))
    : option (list (nat * Q)) :=
  match js with
  | [] => Some []
  | j :: js' =>
      match m !! j, r !! j, l !! j with
      | Some mm, Some rr, Some ll =>
          if (mm =? 1)%Z then
            match ll !! rr with
            | None => None
            | Some v =>
                match token_preds_go js' r m l with
                | None => None
                | Some t => Some ((rr, v) :: t)
                end
            end
          else token_preds_go js' r m l
      | _, _, _ => None
      end
  end.

(** Then [t.pop()] drops the entry of [[SEP]]. *)
Definition token_preds (r : list nat) (m : list Z) (l : list (list Q)) : option (list (nat * Q)) :=
  match token_preds_go (seq 1 (length m - 1)) r m l with
  | None => None
  | Some t => py_pop t
  end.

(** [sorted(mask_poses, key=lambda x: x[1], reverse=True)], stable. *)
Fixpoint insert_desc (x : nat * Q) (l : list (nat * Q)) : list (nat * Q) :=
  match l with
  | [] => [x]
  | y :: l' => if qlt y.2 x.2 then x :: l else y :: insert_desc x l'
  end.

Definition sort_desc (l : list (nat * Q)) : list (nat * Q) :=
  fold_left (fun acc x => insert_desc x acc) l [].

(** [int(max(1, self.mask_rate * len(sen)))]: Python's [max] returns its
    first argument on a tie. *)
Definition max_mask_num (mask_rate : Q) (n : nat) : nat :=
  let x := (mask_rate * inject_Z (Z.of_nat n))%Q in
  if qlt 1 x then Z.to_nat (Qfloor x) else 1.

(** Lines 548-551: the positions predicted as label 1, by descending
    score, at most [max_mask_num] of them. *)
Definition select_poses (mask_rate : Q) (pred : list (nat * Q)) (sen : list token) : list nat :=
  let mask_poses := flat_map (fun pp => if Nat.eqb pp.2.1 1 then [(pp.1, pp.2.2)] else [])
                      (imap pair pred) in
  let mask_poses := sort_desc mask_poses in
  map fst (firstn (max_mask_num mask_rate (length sen)) mask_poses).

Section Forward.
Context {RNG : Type}.
Variable rng_random : RNG -> Q * RNG.
Variable rng_randint : Z -> Z -> RNG -> Z * RNG.
Variable randbelow : nat -> RNG -> nat * RNG.
Variable vocab : list token.
Variable tok_id : token -> Z.
Variable max_seq_length : Z.
(** The token-classification model on one example's [input_ids] and
    [input_mask]: its logits, one row per position. *)
Variable model : list Z -> list Z -> list (list Q).
Variable mask_rate : Q.
Variable with_rand : bool.

(** [evaluate(data)], lines 480-524: [res = torch.argmax(logits, dim=2)];
    batching does not change the per-example result. *)
Definition evaluate (data : list (list token)) : option (list (list (nat * Q))) :=
  mapM (fun tokens =>
          let (input_ids, input_mask) := feature tok_id max_seq_length tokens in
          let l := model input_ids input_mask in
          token_preds (map argmax l) input_mask l) data.

(** Lines 547-561 for sentence [sen] with predictions [pred]: the
    instance and, when [with_rand], the instance with as many random
    positions. *)
Definition sentence_instances (pred : list (nat * Q)) (sen : list token) (g : RNG)
    : option ((MaskedTokenInstance * option MaskedTokenInstance) * RNG) :=
  let mask_poses := select_poses mask_rate pred sen in
  match create_mask rng_random rng_randint vocab mask_poses sen g with
  | None => None
  | Some (m_info, g1) =>
      let inst := {| mti_tokens := sen; mti_info := m_info |} in
      if with_rand then
        match py_shuffle randbelow (seq 0 (length sen)) g1 with
        | None => None
        | Some (cand_indexes, g2) =>
            let rand_mask_poses := firstn (length mask_poses) cand_indexes in
            match create_mask rng_random rng_randint vocab rand_mask_poses sen g2 with
            | None => None
            | Some (rand_m_info, g3) =>
                Some ((inst, Some {| mti_tokens := sen; mti_info := rand_m_info |}), g3)
            end
        end
      else Some ((inst, None), g1)
  end.

(** The [while] loop over the sentences [grp] of one document. *)
Fixpoint build_doc (sents : list (list token)) (preds : list (list (nat * Q)))
    (grp : list nat) (g : RNG) : option (list (MaskedTokenInstance * option MaskedTokenInstance) * RNG) :=
  match grp with
  | [] => Some ([], g)
  | i :: grp' =>
      match sentence_instances (nth i preds []) (nth i sents []) g with
      | None => None
      | Some (p, g1) =>
          match build_doc sents preds grp' g1 with
          | None => None
          | Some (rest, g2) => Some (p :: rest, g2)
          end
      end
  end.

Fixpoint build_docs (sents : list (list token)) (preds : list (list (nat * Q)))
    (doc_id fuel : nat) (l : list (nat * nat)) (g : RNG)
    : option (list (list (MaskedTokenInstance * option MaskedTokenInstance)) * RNG) :=
  match fuel with
  | 0 => Some ([], g)
  | S fuel' =>
      let (grp, rest) := SC.span_doc doc_id l in
      match build_doc sents preds grp g with
      | None => None
      | Some (doc, g1) =>
          match build_docs sents preds (S doc_id) fuel' rest g1 with
          | None => None
          | Some (docs, g2) => Some (doc :: docs, g2)
          end
      end
  end.

Fixpoint replicate_docs (docs : list (list (list token))) (preds : list (list (nat * Q)))
    (dupe_factor : nat) (g : RNG)
    : option (list (list (MaskedTokenInstance * option MaskedTokenInstance)) * RNG) :=
  match dupe_factor with
  | 0 => Some ([], g)
  | S n =>
      match build_docs (SC.sentences docs) preds 0 (length docs)
              (imap pair (SC.sen_doc_ids docs)) g with
      | None => None
      | Some (one, g1) =>
          match replicate_docs docs preds n g1 with
          | None => None
          | Some (more, g2) => Some (one ++ more, g2)
          end
      end
  end.

(** [ModelGen.forward], lines 526-570, from the tokenized sentences of
    each document: [all_documents], and [rand_all_documents] when
    [with_rand]. *)
Definition forward (docs : list (list (list token))) (dupe_factor : nat) (g : RNG)
    : option ((list (list MaskedTokenInstance) * option (list (list MaskedTokenInstance))) * RNG) :=
  match evaluate (SC.sentences docs) with
  | None => None
  | Some preds =>
      match replicate_docs docs preds dupe_factor g with
      | None => None
      | Some (out, g1) =>
          let all_documents := map (map fst) out in
          let rand_all_documents :=
            map (fun doc => flat_map (fun p => match p.2 with Some x => [x] | None => [] end) doc) out in
          Some ((all_documents, if with_rand then Some rand_all_documents else None), g1)
      end
  end.
End Forward.
End ModelGen.

(** A [masked_info] list for [sen] whose entries are exactly at [poses],
    each labelled with the original token. *)
Definition masks_exactly (sen : list token) (poses : list nat) (info : list masked_item) : Prop :=
  length info = length sen /\
  forall i t, sen !! i = Some t ->
    (In i poses -> exists m, info !! i = Some (Some (m, t))) /\
    (~ In i poses -> info !! i = Some None).

(** Salient positions of [SC] and [ASC] are positions of their sentence. *)
Definition sc_positions_ok (sents : list (list token)) (d : gmap nat (list nat)) : Prop :=
  forall k l pos, d !! k = Some l -> In pos l -> pos < length (nth k sents []).

Definition asc_positions_ok (texts : list (list token)) (L : list (gset nat)) : Prop :=
  forall doc s pos, L !! doc = Some s -> pos ∈ s -> pos < length (nth doc texts []).

(** [enumerate(sen_doc_ids)] written per document: for documents of
    [ns] sentences, the first starting at sentence index [s] and document
    id [k], the pairs [(i, doc id)] in order. *)
Fixpoint doc_pairs (ns : list nat) (s k : nat) : list (nat * nat) :=
  match ns with
  | [] => []
  | n :: ns' => map (fun i => (i, k)) (seq s n) ++ doc_pairs ns' (s + n) (S k)
  end.

(** An instance built by [SC.forward] for sentence [i] of [sents]: its
    tokens are the sentence, its info a run of [SC.create_mask] on the
    sentence's salient positions. *)
Definition sc_inst_ok {RNG} (rr : RNG -> Q * RNG) (ri : Z -> Z -> RNG -> Z * RNG) (vocab : list token)
    (is_stop : token -> bool) (sents : list (list token)) (d : gmap nat (list nat)) (i : nat)
    (inst : MaskedTokenInstance) : Prop :=
  mti_tokens inst = nth i sents [] /\
  exists g0 g1, SC.create_mask rr ri vocab is_stop
    (match d !! i with Some l => l | None => [] end) (nth i sents []) g0 = Some (mti_info inst, g1).

(** ** Concrete inputs used by the examples below *)

(** A random stream: [rng.random()] returns the next draw, [rng.randint(a, b)]
    scales the next draw into [[a, b]]. *)
Definition ex_random (g : list Q) : Q * list Q := (hd 0%Q g, tl g).

Definition ex_randint (a b : Z) (g : list Q) : Z * list Q :=
  (Z.min b (Z.max a (a + Qfloor (hd 0%Q g * inject_Z (b - a + 1)))), tl g).

(** A classifier returning the same probability vector for every input. *)
Definition ex_const_classifier (v : list Q) (p : list token) : list Q := v.

(** A stop-word list. *)
Definition ex_is_stop (t : token) : bool :=
  bool_decide (t = "the"%string \/ t = "was"%string).

(** One document holding the single sentence ["a"; "b"]. *)
Definition ex_docs_ab : list (list (list token)) := [[["a"; "b"]%string]].

(** One document of two sentences, ["a b"] and ["c d"]. *)
Definition ex_docs_abcd : list (list (list token)) := [[["a"; "b"]; ["c"; "d"]]%string].

(** A classifier under which the prefix ["c"] loses the label-0
    probability that every other input gets. *)
Definition ex_classify_cd (p : list token) : list Q :=
  if bool_decide (p = ["c"%string]) then [0%Q; 1%Q] else [1%Q; 0%Q].

(** One document with two aspects, ["food"] and ["service"], both labelled 0. *)
Definition ex_asc_docs2 : list (list token * list ASC.fact) :=
  [(["good"; "food"]%string,
    [{| ASC.f_aspect := ["food"%string]; ASC.f_polarity := Some 0 |};
     {| ASC.f_aspect := ["service"%string]; ASC.f_polarity := Some 0 |}])].

(** One document whose only sentence tokenizes to nothing (e.g. trailing
    whitespace split off by the sentencizer). *)
Definition ex_docs_empty : list (list (list token)) := [[[]]].

(** One document of four one-token sentences, all classified as label 1,
    with ground-truth probabilities 0.9, 0.6, 0.7 and 0.95. *)
Definition ex_docs4 : list (list (list token)) :=
  [[["w"%string]; ["x"%string]; ["y"%string]; ["z"%string]]].

Definition ex_classify4 (p : list token) : list Q :=
  if bool_decide (p = ["w"%string]) then [1 # 10; 9 # 10]
  else if bool_decide (p = ["x"%string]) then [4 # 10; 6 # 10]
  else if bool_decide (p = ["y"%string]) then [3 # 10; 7 # 10]
  else [5 # 100; 95 # 100].

(** The correctly classified sentences of [ex_docs4], as built at line 181. *)
Definition ex_cands4 : list SC.cand :=
  [{| SC.c_sen := ["w"%string]; SC.c_doc_id := 0; SC.c_pos := 0; SC.c_pred := 1; SC.c_score := 9 # 10 |};
   {| SC.c_sen := ["x"%string]; SC.c_doc_id := 0; SC.c_pos := 1; SC.c_pred := 1; SC.c_score := 6 # 10 |};
   {| SC.c_sen := ["y"%string]; SC.c_doc_id := 0; SC.c_pos := 2; SC.c_pred := 1; SC.c_score := 7 # 10 |};
   {| SC.c_sen := ["z"%string]; SC.c_doc_id := 0; SC.c_pos := 3; SC.c_pred := 1; SC.c_score := 95 # 100 |}].

(** Four candidates of which three tie at probability 0.5. *)
Definition ex_cands_tie : list SC.cand :=
  [{| SC.c_sen := ["w"%string]; SC.c_doc_id := 0; SC.c_pos := 0; SC.c_pred := 1; SC.c_score := 1 # 2 |};
   {| SC.c_sen := ["x"%string]; SC.c_doc_id := 0; SC.c_pos := 1; SC.c_pred := 1; SC.c_score := 9 # 10 |};
   {| SC.c_sen := ["y"%string]; SC.c_doc_id := 0; SC.c_pos := 2; SC.c_pred := 1; SC.c_score := 1 # 2 |};
   {| SC.c_sen := ["z"%string]; SC.c_doc_id := 0; SC.c_pos := 3; SC.c_pred := 1; SC.c_score := 1 # 2 |}].

(** [_randbelow(n)] on the random stream: the stream length modulo [n]. *)
Definition ex_randbelow (n : nat) (g : list Q) : nat * list Q := (length g mod n, tl g).

(** A token-classification model with two labels: label 1 for the ids
    above 5, label 0 otherwise. *)
Definition ex_model (ids mask : list Z) : list (list Q) :=
  map (fun i => if (5 <? i)%Z then [1 # 10; inject_Z i] else [9 # 10; 1 # 10]) ids.

(** Token ids: ["good"] is 9, other tokens are 3. *)
Definition ex_tok_id (t : token) : Z := if bool_decide (t = "good"%string) then 9%Z else 3%Z.

(** One review with one opinion: the aspect ["food"] with polarity 0. *)
Definition ex_asc_docs : list (list token * list ASC.fact) :=
  [(["good"; "food"]%string, [{| ASC.f_aspect := ["food"%string]; ASC.f_polarity := Some 0 |}])].

(** An aspect classifier that always predicts label 0 with probability 0.9. *)
Definition ex_asc_classify (aspect p : list token) : list Q := [9 # 10; 1 # 10].

(** * Properties *)

(** ** The probe loop *)
Section ProbeFacts.
Context {Item Acc : Type}.
Variable full : Item -> list token.
Variable origin : Item -> Q.
Variable prefix_score : Item -> list token -> Q.
Variable record : Item -> nat -> Acc -> Acc.
Variable threshold : Q.
Variable evaluate_ok : list (Item * list token) -> bool.

Abbreviation probe_item := (probe_item full origin prefix_score record threshold).
Abbreviation probe_round := (probe_round full origin prefix_score record threshold).
Abbreviation probe_loop := (probe_loop full origin prefix_score record threshold evaluate_ok).

(** An entry kept for round [S r] still has a token at [r + 1]. *)
Lemma probe_item_kept r it p acc it' p' acc' :
  probe_item r it p acc = Some (Some (it', p'), acc') ->
  it' = it /\ S r < length (full it).
Proof.
  unfold probe_item.
  destruct (is_salient _ _ _ _ _); [destruct (py_pop p)|]; try discriminate;
    destruct (r + 1 <? length (full it)) eqn:E; intros H; inversion H; subst;
    apply Nat.ltb_lt in E; split; auto; lia.
Qed.

Lemma probe_round_kept r alive acc alive' acc' :
  probe_round r alive acc = Some (alive', acc') ->
  forall e, In e alive' -> S r < length (full e.1) /\ exists p, In (e.1, p) alive.
Proof.
  revert acc alive'. induction alive as [|[it p] rest IH]; intros acc alive' H e He; simpl in H.
  - inversion H; subst. destruct He.
  - destruct (probe_item r it p acc) as [[kept acc1]|] eqn:Hi; [|discriminate].
    destruct (probe_round r rest acc1) as [[alive1 acc2]|] eqn:Hr; [|discriminate].
    inversion H; subst; clear H.
    destruct kept as [[it' p']|].
    + destruct He as [<-|He].
      * destruct (probe_item_kept _ _ _ _ _ _ _ Hi) as [-> Hl]. simpl. split; eauto.
      * destruct (IH _ _ Hr e He) as [Hl [q Hq]]. split; [done|]. exists q. by right.
    + destruct (IH _ _ Hr e He) as [Hl [q Hq]]. split; [done|]. exists q. by right.
Qed.

(** The loop never runs out of rounds when every alive sentence is
    shorter than [r + fuel] and, after round 0, longer than [r]. *)
Lemma probe_loop_not_out_of_fuel fuel r alive acc :
  (forall e, In e alive -> (r < length (full e.1) \/ r = 0) /\ length (full e.1) < r + fuel) ->
  probe_loop fuel r alive acc <> POutOfFuel.
Proof.
  revert r alive acc. induction fuel as [|fuel IH]; intros r alive acc Hinv; simpl.
  - destruct alive as [|e alive]; [discriminate|].
    destruct (Hinv e (or_introl eq_refl)) as [[H1|H1] H2]; lia.
  - destruct alive as [|e0 alive0]; [discriminate|].
    destruct (evaluate_ok (e0 :: alive0)); [|discriminate].
    destruct (probe_round r (e0 :: alive0) acc) as [[alive' acc']|] eqn:Hr; [|discriminate].
    apply IH. intros e He.
    destruct (probe_round_kept _ _ _ _ _ Hr e He) as [Hl [p Hp]].
    destruct (Hinv _ Hp) as [_ H2]. simpl in H2. lia.
Qed.

Lemma probe_terminates (items : list Item) (acc0 : Acc) :
  probe full origin prefix_score record threshold evaluate_ok items acc0 <> POutOfFuel.
Proof.
  unfold probe, probe_fuel. apply probe_loop_not_out_of_fuel.
  intros [it p] He. unfold probe_init in He. apply in_map_iff in He as [it' [He Hin]].
  inversion He; subst. simpl. split; [by right|].
  pose proof (list_max_le (map (fun it => length (full it)) items)
                (list_max (map (fun it => length (full it)) items))) as [Hm _].
  specialize (Hm (le_n _)). rewrite Forall_forall in Hm.
  assert (Hi : In (length (full it)) (map (fun it => length (full it)) items))
    by (apply in_map_iff; eauto).
  specialize (Hm _ (proj2 (list_elem_of_In _ _) Hi)). lia.
Qed.

(** Invariants of the salient positions: [record] is only ever called at
    a position inside the sentence. *)
Section Inv.
Variable I : Item -> Prop.
Variable P : Acc -> Prop.
Hypothesis record_inv : forall it r acc,
  I it -> P acc -> r < length (full it) -> P (record it r acc).

Definition alive_inv (r : nat) (alive : list (Item * list token)) : Prop :=
  forall e, In e alive -> I e.1 /\ (r < length (full e.1) \/ e.2 = []).

Lemma probe_item_inv r it p acc kept acc' :
  I it -> P acc -> (r < length (full it) \/ p = []) ->
  probe_item r it p acc = Some (kept, acc') -> P acc'.
Proof.
  intros HI HP Hr. unfold probe_item.
  destruct (is_salient _ _ _ _ _).
  - destruct p as [|x p']; simpl; [discriminate|].
    destruct Hr as [Hr|Hr]; [|discriminate].
    destruct (r + 1 <? length (full it)); intros H; inversion H; subst; auto.
  - destruct (r + 1 <? length (full it)); intros H; inversion H; subst; auto.
Qed.

Lemma probe_round_inv r alive acc alive' acc' :
  alive_inv r alive -> P acc ->
  probe_round r alive acc = Some (alive', acc') ->
  P acc' /\ alive_inv (S r) alive'.
Proof.
  intros Hinv HP Hr. split.
  - revert acc Hinv HP alive' Hr.
    induction alive as [|[it p] rest IH]; intros acc Hinv HP alive' Hr; simpl in Hr.
    + inversion Hr; subst; done.
    + destruct (probe_item r it p acc) as [[kept acc1]|] eqn:Hi; [|discriminate].
      destruct (probe_round r rest acc1) as [[alive1 acc2]|] eqn:Hr'; [|discriminate].
      inversion Hr; subst.
      destruct (Hinv (it, p) (or_introl eq_refl)) as [HI Hl].
      eapply (IH acc1); [| |exact Hr'].
      * intros e He. apply Hinv. by right.
      * eapply probe_item_inv; eauto.
  - intros e He. destruct (probe_round_kept _ _ _ _ _ Hr e He) as [Hl [q Hq]].
    split; [|by left]. exact (proj1 (Hinv _ Hq)).
Qed.

Lemma probe_loop_inv fuel r alive acc acc' :
  alive_inv r alive -> P acc ->
  probe_loop fuel r alive acc = PDone acc' -> P acc'.
Proof.
  revert r alive acc. induction fuel as [|fuel IH]; intros r alive acc Hinv HP; simpl.
  - destruct alive; [intros H; inversion H; subst; done | discriminate].
  - destruct alive as [|e0 alive0]; [intros H; inversion H; subst; done|].
    destruct (evaluate_ok (e0 :: alive0)); [|discriminate].
    destruct (probe_round r (e0 :: alive0) acc) as [[alive' acc1]|] eqn:Hr; [|discriminate].
    destruct (probe_round_inv _ _ _ _ _ Hinv HP Hr) as [HP' Hinv'].
    apply IH; auto.
Qed.

Lemma probe_inv items acc0 acc' :
  (forall it, In it items -> I it) -> P acc0 ->
  probe full origin prefix_score record threshold evaluate_ok items acc0 = PDone acc' -> P acc'.
Proof.
  intros HI HP. apply probe_loop_inv; [|done].
  intros [it p] He. unfold probe_init in He. apply in_map_iff in He as [it' [He Hin]].
  inversion He; subst. split; [by apply HI|]. simpl.
  destruct (full it); simpl; [by right | left; lia].
Qed.
End Inv.
End ProbeFacts.

(** ** The sentence selector of [SC] *)
Module SCProps.
Import SC.

Lemma insert_desc_perm x l : insert_desc x l ≡ₚ x :: l.
Proof.
  induction l as [|y l IH]; simpl; [done|].
  destruct (qlt (c_score y) (c_score x)); [done|].
  rewrite IH. by constructor.
Qed.

Lemma sort_desc_perm l : sort_desc l ≡ₚ l.
Proof.
  unfold sort_desc.
  assert (H : forall acc, fold_left (fun acc x => insert_desc x acc) l acc ≡ₚ l ++ acc).
  { induction l as [|x l IH]; intros acc; simpl; [done|].
    rewrite IH, insert_desc_perm. by rewrite Permutation_middle. }
  rewrite H. by rewrite app_nil_r.
Qed.

Lemma select_top_in rate ds c : In c (select_top rate ds) -> In c ds.
Proof.
  unfold select_top. destruct ds as [|d ds']; [done|].
  intros H. apply list_elem_of_In, elem_of_take in H as [i [Hi _]].
  apply list_elem_of_lookup_2, list_elem_of_In in Hi. rename Hi into H.
  apply (Permutation_in _ (sort_desc_perm (d :: ds'))) in H. exact H.
Qed.

Lemma select_docs_sen classify rate sents labels doc_id fuel l c :
  In c (select_docs classify rate sents labels doc_id fuel l) ->
  c_sen c = nth (c_pos c) sents [].
Proof.
  revert doc_id l. induction fuel as [|fuel IH]; intros doc_id l; simpl; [done|].
  destruct (span_doc doc_id l) as [grp rest].
  intros H. apply in_app_or in H as [H|H]; [|eapply IH; exact H].
  apply select_top_in in H. apply in_flat_map in H as [i [_ Hi]].
  destruct (Nat.eqb _ _); [|destruct Hi].
  destruct Hi as [<-|[]]. done.
Qed.

Lemma right_cands_sen classify rate docs labels c :
  In c (right_cands classify rate docs labels) -> c_sen c = nth (c_pos c) (sentences docs) [].
Proof. apply select_docs_sen. Qed.

Lemma in_imap {A B} (f : nat -> A -> B) (l : list A) y :
  In y (imap f l) -> exists j x, l !! j = Some x /\ y = f j x.
Proof.
  intros H. apply list_elem_of_In, list_elem_of_lookup in H as [j Hj].
  rewrite list_lookup_imap in Hj. destruct (l !! j) as [x|] eqn:E; [|discriminate].
  inversion Hj; subst. eauto.
Qed.

Lemma init_infos_full classify rate docs labels it :
  let rc := right_cands classify rate docs labels in
  In it (init_infos labels (sen_doc_ids docs) rc) ->
  full_of rc it = nth (sen_doc_pos it) (sentences docs) [].
Proof.
  intros rc H. apply in_imap in H as [j [c [Hj ->]]].
  unfold full_of; simpl. rewrite (nth_lookup_Some (map c_sen rc) j [] (c_sen c)).
  - eapply right_cands_sen. apply list_elem_of_In, list_elem_of_lookup. eauto.
  - rewrite list_lookup_fmap, Hj. done.
Qed.
End SCProps.

Lemma lookup_repeat_Some {A} (x y : A) n i : repeat x n !! i = Some y -> y = x.
Proof.
  revert i. induction n as [|n IH]; intros [|i]; simpl; try discriminate; [congruence|apply IH].
Qed.

(** Once the first evaluation and the label lookups succeed,
    [mask_poses_d] is the result of the probe. *)
Lemma sc_mask_poses_probe classify tok_id m rate threshold docs labels d :
  SC.mask_poses_d classify tok_id m rate threshold docs labels = PDone d ->
  let rc := SC.right_cands classify rate docs labels in
  probe (SC.full_of rc) (SC.origin_of rc) (SC.prefix_score classify) SC.record threshold
    (SC.evaluate_ok classify tok_id m) (SC.init_infos labels (SC.sen_doc_ids docs) rc) ∅ = PDone d.
Proof.
  unfold SC.mask_poses_d. destruct (SC.evaluate _ _ _ _); try discriminate.
  by destruct (SC.labels_ok docs labels).
Qed.

Lemma asc_mask_poses_probe classify tok_id m threshold docs L :
  ASC.mask_poses_L classify tok_id m threshold docs = PDone L ->
  let rs := ASC.right_sens classify docs in
  probe (ASC.full_of rs) (ASC.origin_of rs) (ASC.prefix_score classify) (ASC.record rs) threshold
    (ASC.evaluate_ok classify tok_id m) (ASC.init_items rs) (repeat ∅ (length docs)) = PDone L.
Proof. unfold ASC.mask_poses_L. by destruct (ASC.evaluate _ _ _ _). Qed.

Lemma sc_mask_poses_ok classify tok_id m rate threshold docs labels d :
  SC.mask_poses_d classify tok_id m rate threshold docs labels = PDone d ->
  sc_positions_ok (SC.sentences docs) d.
Proof.
  intros H%sc_mask_poses_probe. revert H. set (rc := SC.right_cands classify rate docs labels).
  apply (probe_inv _ _ _ _ _ _
           (fun it => SC.full_of rc it = nth (SC.sen_doc_pos it) (SC.sentences docs) [])
           (sc_positions_ok (SC.sentences docs))).
  - intros it r d0 Hfull Hok Hr k l pos Hk Hpos. unfold SC.record in Hk.
    destruct (d0 !! SC.sen_doc_pos it) as [l0|] eqn:E;
      (destruct (decide (SC.sen_doc_pos it = k)) as [<-|Hne];
       [rewrite lookup_insert_eq in Hk; inversion Hk; subst
       |rewrite lookup_insert_ne in Hk by done; eapply Hok; eauto]).
    + apply in_app_or in Hpos as [Hpos|[<-|[]]]; [eapply Hok; eauto|]. by rewrite <- Hfull.
    + destruct Hpos as [<-|[]]. by rewrite <- Hfull.
  - intros it Hit. by apply SCProps.init_infos_full in Hit.
  - intros k l pos Hk. by rewrite lookup_empty in Hk.
Qed.

Module ASCProps.
Import ASC.

Lemma sentences_of_text docs s doc :
  In (s, doc) (sentences_of docs) -> text s = nth doc (map fst docs) [].
Proof.
  unfold sentences_of. intros H. apply in_concat in H as [y [Hy Hin]].
  apply SCProps.in_imap in Hy as [j [dj [Hj ->]]].
  apply in_flat_map in Hin as [f [_ Hf]].
  destruct (f_polarity f); [|destruct Hf].
  destruct Hf as [Hf|[]]. inversion Hf; subst. simpl.
  symmetry. apply nth_lookup_Some. rewrite list_lookup_fmap, Hj. done.
Qed.

Lemma right_sens_text classify docs r :
  In r (right_sens classify docs) -> text r.1.1 = nth r.1.2 (map fst docs) [].
Proof.
  unfold right_sens. intros H. apply in_flat_map in H as [sd [Hsd Hr]].
  destruct (Nat.eqb _ _); [|destruct Hr].
  destruct Hr as [<-|[]]. destruct sd as [s doc]. by apply sentences_of_text.
Qed.

Lemma init_items_full classify docs it :
  let rs := right_sens classify docs in
  In it (init_items rs) ->
  exists r, In r rs /\ full_of rs it = text r.1.1 /\
            nth (sen_right_id it) (map (fun r => r.1.2) rs) 0 = r.1.2.
Proof.
  intros rs H. apply SCProps.in_imap in H as [j [r [Hj ->]]].
  exists r. split; [apply list_elem_of_In, list_elem_of_lookup; eauto|].
  unfold full_of; simpl. split; apply nth_lookup_Some; by rewrite list_lookup_fmap, Hj.
Qed.
End ASCProps.

Lemma asc_mask_poses_ok classify tok_id m threshold docs L :
  ASC.mask_poses_L classify tok_id m threshold docs = PDone L ->
  asc_positions_ok (map fst docs) L.
Proof.
  intros H%asc_mask_poses_probe. revert H. set (rs := ASC.right_sens classify docs).
  apply (probe_inv _ _ _ _ _ _
           (fun it => exists r, In r rs /\ ASC.full_of rs it = ASC.text r.1.1 /\
              nth (ASC.sen_right_id it) (map (fun r => r.1.2) rs) 0 = r.1.2)
           (asc_positions_ok (map fst docs))).
  - intros it r L0 [x [Hx [Hfull Hdoc]]] Hok Hr doc s pos Hs Hpos.
    unfold ASC.record in Hs. rewrite Hdoc in Hs.
    destruct (decide (x.1.2 = doc)) as [<-|Hne].
    + rewrite list_lookup_alter_eq in Hs.
      destruct (L0 !! x.1.2) as [s0|] eqn:E; cbn in Hs; [|congruence].
      inversion Hs; subst. apply elem_of_union in Hpos as [Hpos|Hpos].
      * apply elem_of_singleton in Hpos as ->. rewrite Hfull in Hr.
        by rewrite <- (ASCProps.right_sens_text classify docs x Hx).
      * eapply Hok; eauto.
    + rewrite list_lookup_alter_ne in Hs by done. eapply Hok; eauto.
  - intros it Hit. by apply ASCProps.init_items_full in Hit.
  - intros doc s pos Hs Hpos. apply lookup_repeat_Some in Hs as ->.
    by apply not_elem_of_empty in Hpos.
Qed.

(** ** Rounds of the probe: what one round does to the salient sets *)
Lemma probe_round_sublist {Item Acc} full origin prefix_score (record : Item -> nat -> Acc -> Acc)
    threshold r alive acc alive' acc' :
  probe_round full origin prefix_score record threshold r alive acc = Some (alive', acc') ->
  map fst alive' `sublist_of` map fst alive.
Proof.
  revert acc alive'. induction alive as [|[it p] rest IH]; intros acc alive' H;
    cbn [probe_round] in H.
  - inversion H; subst. done.
  - destruct (probe_item _ _ _ _ _ r it p acc) as [[kept acc1]|] eqn:Hi; [|discriminate].
    destruct (probe_round _ _ _ _ _ r rest acc1) as [[alive1 acc2]|] eqn:Hr; [|discriminate].
    inversion H; subst; clear H. simpl.
    destruct kept as [[it' p']|].
    + apply probe_item_kept in Hi as [-> _].
      simpl. apply sublist_skip. eauto.
    + apply sublist_cons. eauto.
Qed.

Module SCRound.
Import SC.

Lemma record_lookup it r (d : gmap nat (list nat)) k :
  record it r d !! k =
  if decide (sen_doc_pos it = k) then Some (default [] (d !! k) ++ [r]) else d !! k.
Proof.
  unfold record. case_decide as Hk.
  - subst. destruct (d !! sen_doc_pos it); by rewrite lookup_insert_eq.
  - destruct (d !! sen_doc_pos it); by rewrite lookup_insert_ne.
Qed.

Lemma probe_item_acc classify rc threshold r it p d kept d1 :
  probe_item (full_of rc) (origin_of rc) (prefix_score classify) record threshold r it p d
    = Some (kept, d1) ->
  d1 = d \/ d1 = record it r d.
Proof.
  unfold probe_item. destruct (is_salient _ _ _ _ _); [destruct (py_pop p)|];
    try discriminate; destruct (_ <? _); intros H; inversion H; auto.
Qed.

Lemma probe_round_other classify rc threshold r alive d alive' d' k :
  (forall e, In e alive -> sen_doc_pos e.1 <> k) ->
  probe_round (full_of rc) (origin_of rc) (prefix_score classify) record threshold r alive d
    = Some (alive', d') ->
  d' !! k = d !! k.
Proof.
  revert d alive'. induction alive as [|[it p] rest IH]; intros d alive' Hk H;
    cbn [probe_round] in H.
  - by inversion H.
  - destruct (probe_item _ _ _ _ _ r it p d) as [[kept d1]|] eqn:Hi; [|discriminate].
    destruct (probe_round _ _ _ _ _ r rest d1) as [[alive1 d2]|] eqn:Hr; [|discriminate].
    inversion H; subst; clear H.
    rewrite (IH d1 alive1); [| intros e He; apply Hk; by right | done].
    destruct (probe_item_acc _ _ _ _ _ _ _ _ _ Hi) as [->| ->]; [done|].
    rewrite record_lookup. case_decide as E; [|done].
    exfalso. exact (Hk (it, p) (or_introl eq_refl) E).
Qed.

(** Within one round, a sentence's list of salient positions gains at
    most the one position [r]. *)
Lemma probe_round_once classify rc threshold r alive d alive' d' :
  NoDup (map (fun e => sen_doc_pos e.1) alive) ->
  probe_round (full_of rc) (origin_of rc) (prefix_score classify) record threshold r alive d
    = Some (alive', d') ->
  forall k, d' !! k = d !! k \/ d' !! k = Some (default [] (d !! k) ++ [r]).
Proof.
  revert d alive'. induction alive as [|[it p] rest IH]; intros d alive' Hnd H k;
    cbn [probe_round] in H.
  - inversion H; subst. by left.
  - destruct (probe_item _ _ _ _ _ r it p d) as [[kept d1]|] eqn:Hi; [|discriminate].
    destruct (probe_round _ _ _ _ _ r rest d1) as [[alive1 d2]|] eqn:Hr; [|discriminate].
    inversion H; subst; clear H. simpl in Hnd. apply NoDup_cons in Hnd as [Hnin Hnd].
    destruct (decide (sen_doc_pos it = k)) as [<-|Hne].
    + rewrite (probe_round_other classify rc threshold r rest d1 alive1 d' (sen_doc_pos it));
        [| intros e He Heq; apply Hnin; rewrite <- Heq;
           apply list_elem_of_In, in_map_iff; eauto | exact Hr].
      destruct (probe_item_acc _ _ _ _ _ _ _ _ _ Hi) as [->| ->]; [by left|].
      rewrite record_lookup. case_decide; [by right|done].
    + destruct (IH d1 alive1 Hnd Hr k) as [E|E]; rewrite E;
        (destruct (probe_item_acc _ _ _ _ _ _ _ _ _ Hi) as [->| ->];
         [|rewrite record_lookup; case_decide; [done|]]); auto.
Qed.
End SCRound.

Module ASCRound.
Import ASC.

(** Within one round, a document's set of salient positions gains at
    most the position [r], however many of its pairs are in the batch. *)
Lemma asc_probe_round_once classify rs threshold r alive (L : list (gset nat)) alive' L' :
  probe_round (full_of rs) (origin_of rs) (prefix_score classify) (record rs) threshold r alive L
    = Some (alive', L') ->
  forall k, L' !! k = L !! k \/ L' !! k = (fun s => {[r]} ∪ s) <$> L !! k.
Proof.
  revert L alive'. induction alive as [|[it p] rest IH]; intros L alive' H k;
    cbn [probe_round] in H.
  - inversion H; subst. by left.
  - destruct (probe_item _ _ _ _ _ r it p L) as [[kept L1]|] eqn:Hi; [|discriminate].
    destruct (probe_round _ _ _ _ _ r rest L1) as [[alive1 L2]|] eqn:Hr; [|discriminate].
    inversion H; subst; clear H.
    assert (H1 : L1 !! k = L !! k \/ L1 !! k = (fun s => {[r]} ∪ s) <$> L !! k).
    { unfold probe_item in Hi.
      destruct (is_salient _ _ _ _ _); [destruct (py_pop p)|]; try discriminate;
        destruct (_ <? _); inversion Hi; subst; try by left.
      all: unfold record; set (j := nth _ _ _).
      all: destruct (decide (j = k)) as [<-|Hne];
        [right; apply list_lookup_alter_eq|left; by apply list_lookup_alter_ne]. }
    destruct (IH L1 alive1 Hr k) as [E|E]; rewrite E; [done|].
    destruct H1 as [F|F]; rewrite F; [by right|right].
    destruct (L !! k); [|done]. simpl. f_equal. set_solver.
Qed.
End ASCRound.

(** The sentences in the probe's batch are distinct sentences of [sentences]. *)
Module SCDistinct.
Import SC.

Lemma span_doc_split doc l grp rest :
  span_doc doc l = (grp, rest) -> map fst l = grp ++ map fst rest.
Proof.
  revert grp rest. induction l as [|[i d] l IH]; intros grp rest H; simpl in H.
  - by inversion H.
  - destruct (Nat.eqb d doc).
    + destruct (span_doc doc l) as [g r] eqn:E. inversion H; subst. simpl. f_equal. by apply IH.
    + by inversion H.
Qed.

Lemma flat_map_pos_sublist (f : nat -> list cand) grp :
  (forall i, (forall c, In c (f i) -> c_pos c = i) /\ length (f i) <= 1) ->
  map c_pos (flat_map f grp) `sublist_of` grp.
Proof.
  intros Hf. induction grp as [|i grp IH]; simpl; [done|].
  destruct (Hf i) as [Hpos Hlen].
  destruct (f i) as [|c [|c' l]] eqn:E; simpl in *; [by apply sublist_cons| |lia].
  rewrite (Hpos c (or_introl eq_refl)). by apply sublist_skip.
Qed.

Lemma select_top_nodup rate ds :
  NoDup (map c_pos ds) -> NoDup (map c_pos (select_top rate ds)).
Proof.
  unfold select_top. destruct ds as [|d ds']; [done|]. intros H.
  rewrite <- firstn_map. eapply sublist_NoDup; [|apply sublist_take].
  assert (Hp : map c_pos (sort_desc (d :: ds')) ≡ₚ map c_pos (d :: ds'))
    by (apply Permutation_map, SCProps.sort_desc_perm).
  by rewrite Hp.
Qed.

Lemma select_docs_nodup classify rate sents labels doc_id fuel l :
  NoDup (map fst l) ->
  NoDup (map c_pos (select_docs classify rate sents labels doc_id fuel l)) /\
  (forall c, In c (select_docs classify rate sents labels doc_id fuel l) -> In (c_pos c) (map fst l)).
Proof.
  revert doc_id l. induction fuel as [|fuel IH]; intros doc_id l Hnd; simpl; [split; [constructor|done]|].
  destruct (span_doc doc_id l) as [grp rest] eqn:Hs.
  pose proof (span_doc_split _ _ _ _ Hs) as Hl. rewrite Hl in Hnd |- *.
  apply NoDup_app in Hnd as [Hg [Hdisj Hr]].
  destruct (IH (S doc_id) rest Hr) as [IHnd IHin].
  set (ds := flat_map _ grp).
  assert (Hds : map c_pos ds `sublist_of` grp).
  { apply flat_map_pos_sublist. intros i. destruct (Nat.eqb _ _); simpl.
    - split; [intros c [<-|[]]; done | lia].
    - split; [intros c []| lia]. }
  assert (Hin_top : forall c, In c (select_top rate ds) -> In (c_pos c) grp).
  { intros c Hc. apply SCProps.select_top_in in Hc.
    apply list_elem_of_In. eapply elem_of_sublist; [|exact Hds].
    apply list_elem_of_In, in_map_iff. eauto. }
  split.
  - rewrite map_app. apply NoDup_app. split; [|split].
    + apply select_top_nodup. eapply sublist_NoDup; [exact Hg | exact Hds].
    + intros x Hx Hx'. apply list_elem_of_In, in_map_iff in Hx as [c [<- Hc]].
      apply list_elem_of_In, in_map_iff in Hx' as [c' [Hc'e Hc']].
      apply IHin in Hc'. rewrite Hc'e in Hc'.
      apply (Hdisj (c_pos c)); apply list_elem_of_In; auto.
    + done.
  - intros c Hc. apply in_app_or in Hc as [Hc|Hc]; apply in_or_app; [left; auto|right; auto].
Qed.

Lemma right_cands_nodup classify rate docs labels :
  NoDup (map c_pos (right_cands classify rate docs labels)).
Proof.
  apply select_docs_nodup.
  change (map fst (imap pair (sen_doc_ids docs))) with (fst <$> imap pair (sen_doc_ids docs)).
  rewrite fmap_imap. rewrite (imap_ext _ (λ j _, j)); [|done].
  rewrite (imap_seq_0 _ (λ j, j)), list_fmap_id. apply NoDup_seq.
Qed.

Lemma init_keys classify rate docs labels :
  let rc := right_cands classify rate docs labels in
  map (fun e => sen_doc_pos e.1) (probe_init (full_of rc) (init_infos labels (sen_doc_ids docs) rc))
  = map c_pos rc.
Proof.
  intros rc. unfold probe_init, init_infos. rewrite map_map. simpl.
  change (map ?f (imap ?g ?l)) with (f <$> imap g l).
  rewrite fmap_imap. rewrite (imap_ext _ (const c_pos)); [|done].
  by rewrite imap_const.
Qed.
End SCDistinct.

(** ** Claims about the probe *)

(** C1: in a round, a sentence whose prefix score is within [threshold]
    of its full score gets the round index recorded as salient and its
    last token removed before the next token is appended; otherwise
    nothing is recorded and the prefix keeps its last token.  Stated for
    every non-empty prefix [p ++ [x]], for [SC] (per-sentence list in
    [mask_poses_d]) and [ASC] (per-document set in [mask_poses_L]). *)
Theorem C1_probe_step_threshold :
  (forall (classify : list token -> list Q) (rc : list SC.cand) (threshold : Q) (r : nat)
          (it : SC.item_info) (p : list token) (x : token) (d : gmap nat (list nat)),
     let full := SC.full_of rc in
     let salient := qlt (SC.origin_of rc it - SC.prefix_score classify it (p ++ [x]))%Q threshold in
     probe_item full (SC.origin_of rc) (SC.prefix_score classify) SC.record threshold r it (p ++ [x]) d =
     Some (if r + 1 <? length (full it)
           then Some (it, (if salient then p else p ++ [x]) ++ [nth (r + 1) (full it) ""%string])
           else None,
           if salient then <[SC.sen_doc_pos it := default [] (d !! SC.sen_doc_pos it) ++ [r]]> d
           else d)) /\
  (forall (classify : list token -> list token -> list Q) (rs : list (ASC.asc_sentence * nat * Q))
          (threshold : Q) (r : nat) (it : ASC.item) (p : list token) (x : token) (L : list (gset nat)),
     let full := ASC.full_of rs it in
     let salient := qlt (ASC.origin_of rs it - ASC.prefix_score classify it (p ++ [x]))%Q threshold in
     let doc := nth (ASC.sen_right_id it) (map (fun r => r.1.2) rs) 0 in
     probe_item (ASC.full_of rs) (ASC.origin_of rs) (ASC.prefix_score classify) (ASC.record rs)
       threshold r it (p ++ [x]) L =
     Some (if r + 1 <? length full
           then Some (it, (if salient then p else p ++ [x]) ++ [nth (r + 1) full ""%string])
           else None,
           if salient then alter (fun s => {[r]} ∪ s) doc L else L)).
Proof.
  split.
  - intros classify rc threshold r it p x d full salient.
    unfold probe_item, is_salient. fold salient.
    assert (Hpop : py_pop (p ++ [x]) = Some p).
    { unfold py_pop. rewrite removelast_last. by destruct p. }
    destruct salient; [rewrite Hpop|]; destruct (r + 1 <? _); try done;
      unfold SC.record; destruct (d !! SC.sen_doc_pos it); done.
  - intros classify rs threshold r it p x L full salient doc.
    unfold probe_item, is_salient. fold salient.
    assert (Hpop : py_pop (p ++ [x]) = Some p).
    { unfold py_pop. rewrite removelast_last. by destruct p. }
    destruct salient; [rewrite Hpop|]; destruct (r + 1 <? _); done.
Qed.

(** C2: every salient position recorded by a completed probe is a position
    of its sentence: [SC]'s [mask_poses_d[k]] lies in
    [[0, len(sentences[k]))] and [ASC]'s [mask_poses_L[doc]] in
    [[0, len(texts[doc]))]. *)
Theorem C2_salient_positions_in_range :
  (forall classify tok_id max_seq_length rate threshold docs labels d,
     SC.mask_poses_d classify tok_id max_seq_length rate threshold docs labels = PDone d ->
     forall k l pos, d !! k = Some l -> In pos l -> pos < length (nth k (SC.sentences docs) [])) /\
  (forall classify tok_id max_seq_length threshold docs L,
     ASC.mask_poses_L classify tok_id max_seq_length threshold docs = PDone L ->
     forall doc s pos, L !! doc = Some s -> pos ∈ s -> pos < length (nth doc (map fst docs) [])).
Proof.
  split.
  - intros classify tok_id m rate threshold docs labels d H. by apply sc_mask_poses_ok in H.
  - intros classify tok_id m threshold docs L H. by apply asc_mask_poses_ok in H.
Qed.

Lemma C2_witness :
  SC.mask_poses_d (ex_const_classifier [1%Q]) ex_tok_id 5 1 (1 # 10) ex_docs_ab [0] = PDone {[0 := [0; 1]]} /\
  (forall pos, In pos [0; 1] -> pos < length (nth 0 (SC.sentences ex_docs_ab) [])).
Proof.
  assert (H : SC.mask_poses_d (ex_const_classifier [1%Q]) ex_tok_id 5 1 (1 # 10) ex_docs_ab [0]
              = PDone {[0 := [0; 1]]}) by (vm_compute; reflexivity).
  split; [exact H|].
  intros pos Hpos. apply (proj1 C2_salient_positions_in_range _ _ _ _ _ _ _ _ H 0 [0; 1] pos); [|exact Hpos].
  vm_compute. reflexivity.
Defined.

(** C3 as stated fails: in a round where the tested token is judged
    salient, the prefix loses its tail and gains the next token, so its
    length stays the same.  The sentence ["a"; "b"] under a constant
    classifier: its prefix ["a"] becomes ["b"] after round 0. *)
Lemma C3_prefix_length_constant :
  let classify := ex_const_classifier [1%Q] in
  let rc := SC.right_cands classify 1 ex_docs_ab [0] in
  let it0 := {| SC.sen_doc_pos := 0; SC.sen_right_id := 0; SC.doc_ground_truth := 0 |} in
  probe_init (SC.full_of rc) (SC.init_infos [0] (SC.sen_doc_ids ex_docs_ab) rc) = [(it0, ["a"%string])] /\
  probe_round (SC.full_of rc) (SC.origin_of rc) (SC.prefix_score classify) SC.record (1 # 10) 0
    [(it0, ["a"%string])] ∅ = Some ([(it0, ["b"%string])], {[0 := [0]]}) /\
  length ["b"%string] = length ["a"%string].
Proof. split; [|split]; vm_compute; reflexivity. Qed.

(** C3 (amended): in each round a surviving sentence's prefix grows by one
    token when the tested token is kept and keeps its length when it is
    judged salient (for [SC] and [ASC] alike).  In [SC] the batch holds
    distinct sentences of [sentences] in every round (initially, and
    preserved by a round), so within one round a sentence's salient list
    gains at most the round index, once.  In [ASC] a round adds at most
    the round index to each document's salient set, even when several
    of its pairs are judged salient in that round. *)
Theorem C3_round_prefix_and_once :
  (forall (Item Acc : Type) (full : Item -> list token) (origin : Item -> Q)
          (prefix_score : Item -> list token -> Q) (record : Item -> nat -> Acc -> Acc)
          (threshold : Q) (r : nat) (it : Item) (p : list token) (acc : Acc)
          (it' : Item) (p' : list token) (acc' : Acc),
     probe_item full origin prefix_score record threshold r it p acc = Some (Some (it', p'), acc') ->
     it' = it /\
     length p' = (if is_salient origin prefix_score threshold it p then length p else S (length p))) /\
  (forall classify rate docs labels,
     let rc := SC.right_cands classify rate docs labels in
     NoDup (map (fun e => SC.sen_doc_pos e.1)
              (probe_init (SC.full_of rc) (SC.init_infos labels (SC.sen_doc_ids docs) rc)))) /\
  (forall classify rc threshold r alive d alive' d',
     NoDup (map (fun e => SC.sen_doc_pos e.1) alive) ->
     probe_round (SC.full_of rc) (SC.origin_of rc) (SC.prefix_score classify) SC.record threshold
       r alive d = Some (alive', d') ->
     NoDup (map (fun e => SC.sen_doc_pos e.1) alive') /\
     forall k, d' !! k = d !! k \/ d' !! k = Some (default [] (d !! k) ++ [r])) /\
  (forall classify rs threshold r alive (L : list (gset nat)) alive' L',
     probe_round (ASC.full_of rs) (ASC.origin_of rs) (ASC.prefix_score classify) (ASC.record rs)
       threshold r alive L = Some (alive', L') ->
     forall k, L' !! k = L !! k \/ L' !! k = (fun s => {[r]} ∪ s) <$> L !! k).
Proof.
  split; [|split; [|split]].
  - intros Item Acc full origin prefix_score record threshold r it p acc it' p' acc'.
    unfold probe_item.
    destruct (is_salient origin prefix_score threshold it p).
    + destruct p as [|y p0]; [discriminate|].
      change (py_pop (y :: p0)) with (Some (removelast (y :: p0))).
      cbv iota beta. destruct (r + 1 <? length (full it)); intros H; inversion H; subst.
      split; [done|]. rewrite length_app.
      pose proof (f_equal (@length _) (app_removelast_last (l := y :: p0) y ltac:(discriminate))) as E.
      rewrite length_app in E. simpl in E |- *. lia.
    + destruct (r + 1 <? length (full it)); intros H; inversion H; subst.
      split; [done|]. rewrite length_app. simpl. lia.
  - intros classify rate docs labels. cbv zeta. rewrite SCDistinct.init_keys.
    apply SCDistinct.right_cands_nodup.
  - intros classify rc threshold r alive d alive' d' Hnd Hr. split.
    + apply probe_round_sublist in Hr.
      eapply sublist_NoDup; [exact Hnd|].
      rewrite <- !(map_map fst SC.sen_doc_pos).
      change (map SC.sen_doc_pos (map fst alive') `sublist_of` map SC.sen_doc_pos (map fst alive)).
      induction Hr; simpl; by constructor.
    + eapply SCRound.probe_round_once; eauto.
  - intros classify rs threshold r alive L alive' L' H. by eapply ASCRound.asc_probe_round_once.
Qed.

Lemma C3_witness :
  let rc := SC.right_cands ex_classify_cd 1 ex_docs_abcd [0] in
  let it0 := {| SC.sen_doc_pos := 0; SC.sen_right_id := 0; SC.doc_ground_truth := 0 |} in
  let it1 := {| SC.sen_doc_pos := 1; SC.sen_right_id := 1; SC.doc_ground_truth := 0 |} in
  let rs := ASC.right_sens ex_asc_classify ex_asc_docs2 in
  probe_init (SC.full_of rc) (SC.init_infos [0] (SC.sen_doc_ids ex_docs_abcd) rc)
    = [(it0, ["a"%string]); (it1, ["c"%string])] /\
  length ["b"%string] = length ["a"%string] /\
  length ["c"; "d"]%string = S (length ["c"%string]) /\
  NoDup (map (fun e => SC.sen_doc_pos e.1) [(it0, ["b"%string]); (it1, ["c"; "d"]%string)]) /\
  (forall k, ({[0 := [0]]} : gmap nat (list nat)) !! k = (∅ : gmap nat (list nat)) !! k \/
             ({[0 := [0]]} : gmap nat (list nat)) !! k
               = Some (default [] ((∅ : gmap nat (list nat)) !! k) ++ [0])) /\
  length (ASC.init_items rs) = 2 /\
  (forall k, [({[0]} : gset nat)] !! k = [(∅ : gset nat)] !! k \/
             [({[0]} : gset nat)] !! k = (fun s => {[0]} ∪ s) <$> [(∅ : gset nat)] !! k).
Proof.
  intros rc it0 it1 rs.
  assert (Hinit : probe_init (SC.full_of rc) (SC.init_infos [0] (SC.sen_doc_ids ex_docs_abcd) rc)
                    = [(it0, ["a"%string]); (it1, ["c"%string])]) by (vm_compute; reflexivity).
  assert (Hr : probe_round (SC.full_of rc) (SC.origin_of rc) (SC.prefix_score ex_classify_cd) SC.record
                 (1 # 10) 0 [(it0, ["a"%string]); (it1, ["c"%string])] ∅
               = Some ([(it0, ["b"%string]); (it1, ["c"; "d"]%string)], {[0 := [0]]}))
    by (vm_compute; reflexivity).
  assert (Hi0 : probe_item (SC.full_of rc) (SC.origin_of rc) (SC.prefix_score ex_classify_cd) SC.record
                  (1 # 10) 0 it0 ["a"%string] ∅ = Some (Some (it0, ["b"%string]), {[0 := [0]]}))
    by (vm_compute; reflexivity).
  assert (Hi1 : probe_item (SC.full_of rc) (SC.origin_of rc) (SC.prefix_score ex_classify_cd) SC.record
                  (1 # 10) 0 it1 ["c"%string] {[0 := [0]]}
                = Some (Some (it1, ["c"; "d"]%string), {[0 := [0]]}))
    by (vm_compute; reflexivity).
  assert (HA : exists alive', probe_round (ASC.full_of rs) (ASC.origin_of rs)
                 (ASC.prefix_score ex_asc_classify) (ASC.record rs) (1 # 10) 0
                 (probe_init (ASC.full_of rs) (ASC.init_items rs)) [∅] = Some (alive', [{[0]}]))
    by (eexists; vm_compute; reflexivity).
  destruct HA as [alive' HA].
  pose proof (proj1 (proj2 C3_round_prefix_and_once) ex_classify_cd 1%Q ex_docs_abcd [0]) as Hnd.
  cbv zeta in Hnd. fold rc in Hnd. rewrite Hinit in Hnd.
  destruct (proj1 C3_round_prefix_and_once _ _ _ _ _ _ _ _ _ _ _ _ _ _ Hi0) as [_ Hlen0].
  destruct (proj1 C3_round_prefix_and_once _ _ _ _ _ _ _ _ _ _ _ _ _ _ Hi1) as [_ Hlen1].
  destruct (proj1 (proj2 (proj2 C3_round_prefix_and_once)) _ _ _ _ _ _ _ _ Hnd Hr) as [Hnd' Honce].
  split; [exact Hinit|]. split; [rewrite Hlen0; vm_compute; reflexivity|].
  split; [rewrite Hlen1; vm_compute; reflexivity|].
  split; [exact Hnd'|]. split; [exact Honce|]. split; [vm_compute; reflexivity|].
  exact (proj2 (proj2 (proj2 C3_round_prefix_and_once)) _ _ _ _ _ _ _ _ HA).
Defined.

(** C8 as stated fails for a sentence that tokenizes to nothing: it is in
    the batch of round 0 although its length is 0 (with a non-positive
    threshold it then leaves the batch without error). *)
Lemma C8_empty_sentence_one_round :
  let classify := ex_const_classifier [1%Q; 0%Q] in
  let rc := SC.right_cands classify 1 ex_docs_empty [0] in
  let it0 := {| SC.sen_doc_pos := 0; SC.sen_right_id := 0; SC.doc_ground_truth := 0 |} in
  probe_init (SC.full_of rc) (SC.init_infos [0] (SC.sen_doc_ids ex_docs_empty) rc) = [(it0, [])] /\
  length (SC.full_of rc it0) = 0 /\
  probe_round (SC.full_of rc) (SC.origin_of rc) (SC.prefix_score classify) SC.record 0 0
    [(it0, [])] ∅ = Some ([], ∅) /\
  SC.mask_poses_d classify ex_tok_id 5 1 0 ex_docs_empty [0] = PDone ∅.
Proof. split; [|split; [|split]]; vm_compute; reflexivity. Qed.

(** C8 (amended): the probe loop always ends (normally, by the
    [IndexError] of [pop], or by the [AssertionError] of the feature
    conversion in [self.evaluate]); a sentence survives round [r] only if
    [r + 1 < len(sentence)], so it is in the batch for at most
    [max(1, len(sentence))] rounds. *)
Theorem C8_probe_terminates :
  (forall (Item Acc : Type) (full : Item -> list token) (origin : Item -> Q)
          (prefix_score : Item -> list token -> Q) (record : Item -> nat -> Acc -> Acc)
          (threshold : Q) (evaluate_ok : list (Item * list token) -> bool)
          (items : list Item) (acc0 : Acc),
     probe full origin prefix_score record threshold evaluate_ok items acc0 <> POutOfFuel) /\
  (forall (Item Acc : Type) (full : Item -> list token) (origin : Item -> Q)
          (prefix_score : Item -> list token -> Q) (record : Item -> nat -> Acc -> Acc)
          (threshold : Q) (r : nat) (alive : list (Item * list token)) (acc : Acc)
          (alive' : list (Item * list token)) (acc' : Acc),
     probe_round full origin prefix_score record threshold r alive acc = Some (alive', acc') ->
     forall e, In e alive' -> S r < length (full e.1)).
Proof.
  split.
  - intros. apply probe_terminates.
  - intros Item Acc full origin prefix_score record threshold r alive acc alive' acc' H e He.
    exact (proj1 (probe_round_kept _ _ _ _ _ _ _ _ _ _ H e He)).
Qed.

Lemma C8_witness :
  let classify := ex_const_classifier [1%Q] in
  let rc := SC.right_cands classify 1 ex_docs_ab [0] in
  let it0 := {| SC.sen_doc_pos := 0; SC.sen_right_id := 0; SC.doc_ground_truth := 0 |} in
  SC.mask_poses_d classify ex_tok_id 5 1 (1 # 10) ex_docs_ab [0] <> POutOfFuel /\
  1 < length (SC.full_of rc it0).
Proof.
  intros classify rc it0. split.
  - assert (E : SC.mask_poses_d classify ex_tok_id 5 1 (1 # 10) ex_docs_ab [0] =
                probe (SC.full_of rc) (SC.origin_of rc) (SC.prefix_score classify) SC.record (1 # 10)
                  (SC.evaluate_ok classify ex_tok_id 5) (SC.init_infos [0] (SC.sen_doc_ids ex_docs_ab) rc) ∅)
      by reflexivity.
    rewrite E. apply (proj1 C8_probe_terminates).
  - assert (Hr : probe_round (SC.full_of rc) (SC.origin_of rc) (SC.prefix_score classify) SC.record
                   (1 # 10) 0 [(it0, ["a"%string])] ∅ = Some ([(it0, ["b"%string])], {[0 := [0]]}))
      by (vm_compute; reflexivity).
    apply (proj2 C8_probe_terminates _ _ _ _ _ _ _ _ _ _ _ _ Hr (it0, ["b"%string])).
    left. reflexivity.
Defined.

(** A retained sentence that tokenizes to nothing makes [SC.forward] raise
    [IndexError] when the threshold is positive: its empty prefix scores
    like the full sentence, position 0 is judged salient and [pop()] is
    applied to the empty prefix. *)
Lemma sc_empty_sentence_index_error :
  SC.mask_poses_d (ex_const_classifier [1%Q; 0%Q]) ex_tok_id 5 1 (1 # 10) ex_docs_empty [0] = PIndexError.
Proof. vm_compute. reflexivity. Qed.

(** ** The sentence selector *)
Module SelectProps.
Import SC.

Definition score_ge (a b : cand) : Prop := (c_score b <= c_score a)%Q.

Lemma qlt_true a b : qlt a b = true -> (a < b)%Q.
Proof.
  unfold qlt. intros H. apply negb_true_iff in H.
  apply Qnot_le_lt. intros Hle. apply Qle_bool_iff in Hle. congruence.
Qed.

Lemma qlt_false a b : qlt a b = false -> (b <= a)%Q.
Proof. unfold qlt. intros H. apply negb_false_iff in H. by apply Qle_bool_iff. Qed.

Lemma insert_desc_sorted x l :
  StronglySorted score_ge l -> StronglySorted score_ge (insert_desc x l).
Proof.
  induction l as [|y l IH]; intros Hs; simpl.
  - repeat constructor.
  - apply StronglySorted_inv in Hs as [Hs Hy].
    destruct (qlt (c_score y) (c_score x)) eqn:E.
    + apply qlt_true in E. constructor; [by constructor|].
      constructor; [unfold score_ge; by apply Qlt_le_weak|].
      eapply Forall_impl; [exact Hy|]. intros z Hz. unfold score_ge in *.
      eapply Qle_trans; [exact Hz|]. by apply Qlt_le_weak.
    + apply qlt_false in E. constructor; [by apply IH|].
      apply List.Forall_forall. intros z Hz.
      apply (Permutation_in _ (SCProps.insert_desc_perm x l)) in Hz as [<-|Hz]; [done|].
      rewrite List.Forall_forall in Hy. apply Hy. exact Hz.
Qed.

Lemma sort_desc_sorted l : StronglySorted score_ge (sort_desc l).
Proof.
  unfold sort_desc.
  assert (H : forall acc, StronglySorted score_ge acc ->
            StronglySorted score_ge (fold_left (fun acc x => insert_desc x acc) l acc)).
  { induction l as [|x l IH]; intros acc Hacc; simpl; [done|].
    apply IH. by apply insert_desc_sorted. }
  apply H. constructor.
Qed.

Lemma sorted_app_split (l1 l2 : list cand) :
  StronglySorted score_ge (l1 ++ l2) ->
  StronglySorted score_ge l1 /\ forall x y, In x l1 -> In y l2 -> score_ge x y.
Proof.
  induction l1 as [|a l1 IH]; simpl; intros H.
  - split; [constructor|done].
  - apply StronglySorted_inv in H as [H Ha]. destruct (IH H) as [H1 H2].
    rewrite List.Forall_forall in Ha. split.
    + constructor; [done|]. apply List.Forall_forall. intros z Hz. apply Ha, in_or_app. by left.
    + intros x y [<-|Hx] Hy; [apply Ha, in_or_app; by right|auto].
Qed.

Lemma top_count_le rate n :
  (0 <= rate <= 1)%Q -> 1 <= n -> top_count rate n <= n.
Proof.
  intros [H0 H1] Hn. unfold top_count. apply Nat.max_lub; [|done].
  assert (Hle : (rate * inject_Z (Z.of_nat n) <= inject_Z (Z.of_nat n))%Q).
  { rewrite <- (Qmult_1_l (inject_Z (Z.of_nat n))) at 2.
    apply Qmult_le_compat_r; [done|]. unfold Qle; simpl; lia. }
  pose proof (Qfloor_le (rate * inject_Z (Z.of_nat n))) as Hf.
  assert (Hz : (Qfloor (rate * inject_Z (Z.of_nat n)) <= Z.of_nat n)%Z).
  { rewrite Zle_Qle. eapply Qle_trans; [exact Hf|exact Hle]. }
  lia.
Qed.
(** The candidates with score [q], in list order. *)
Definition ties (q : Q) (l : list cand) : list cand :=
  List.filter (fun c => Qeq_bool (c_score c) q) l.

(** [insert_desc] places its element after every element of equal score. *)
Lemma ties_insert_desc q x l :
  StronglySorted score_ge l ->
  ties q (insert_desc x l) = ties q l ++ ties q [x].
Proof.
  unfold ties. induction l as [|y l IH]; intros Hs; simpl; [done|].
  apply StronglySorted_inv in Hs as [Hs Hy].
  destruct (qlt (c_score y) (c_score x)) eqn:E.
  - apply qlt_true in E.
    destruct (Qeq_bool (c_score x) q) eqn:Ex; simpl; [|by rewrite Ex, app_nil_r].
    apply Qeq_bool_iff in Ex.
    assert (Hnone : forall z, In z (y :: l) -> Qeq_bool (c_score z) q = false).
    { intros z Hz. apply not_true_iff_false. intros Hq. apply Qeq_bool_iff in Hq.
      assert (Hzy : (c_score z <= c_score y)%Q).
      { destruct Hz as [<-|Hz]; [apply Qle_refl|].
        rewrite List.Forall_forall in Hy. exact (Hy z Hz). }
      rewrite Hq, <- Ex in Hzy. exact (Qlt_not_le _ _ E Hzy). }
    assert (Hnil : forall l', (forall z, In z l' -> Qeq_bool (c_score z) q = false) ->
                   List.filter (fun c => Qeq_bool (c_score c) q) l' = []).
    { induction l' as [|z l' IHl]; intros Hf; simpl; [done|].
      rewrite (Hf z (or_introl eq_refl)). apply IHl. intros w Hw. apply Hf. by right. }
    pose proof (Hnil (y :: l) Hnone) as Hyl. simpl in Hyl. rewrite Hyl, Ex, (proj2 (Qeq_bool_iff q q) (Qeq_refl q)). done.
  - simpl. rewrite IH by done. by destruct (Qeq_bool (c_score y) q).
Qed.

(** [sort_desc] keeps the candidates of equal score in list order. *)
Lemma ties_sort_desc q l : ties q (sort_desc l) = ties q l.
Proof.
  unfold sort_desc.
  assert (H : forall acc, StronglySorted score_ge acc ->
            ties q (fold_left (fun acc x => insert_desc x acc) l acc) = ties q acc ++ ties q l).
  { induction l as [|x l IH]; intros acc Hacc; simpl; [by rewrite app_nil_r|].
    rewrite IH by (by apply insert_desc_sorted).
    rewrite ties_insert_desc by done. rewrite <- app_assoc. f_equal.
    unfold ties. simpl. by destruct (Qeq_bool (c_score x) q). }
  by rewrite H by constructor.
Qed.

Lemma ties_firstn q k l : ties q (firstn k l) = firstn (length (ties q (firstn k l))) (ties q l).
Proof.
  rewrite <- (firstn_skipn k l) at 3. unfold ties. rewrite List.filter_app.
  rewrite firstn_app, Nat.sub_diag, firstn_O, app_nil_r. by rewrite firstn_all.
Qed.
End SelectProps.

(** C4 as stated fails: the retained sentences are kept in descending
    order of ground-truth probability, not in document order.  Scores
    0.9, 0.6, 0.7, 0.95 with [top_sen_rate = 0.5] retain sentences 3 and 0,
    in that order. *)
Lemma C4_retained_not_in_document_order :
  map SC.c_pos (SC.right_cands ex_classify4 (1 # 2) ex_docs4 [1]) = [3; 0].
Proof. vm_compute. reflexivity. Qed.

(** C4 (amended): for the [n >= 1] correctly classified sentences [ds] of a
    document, the selector keeps [min(n, max(floor(top_sen_rate * n), 1))]
    of them (exactly [max(floor(top_sen_rate * n), 1)] when
    [0 <= top_sen_rate <= 1]): the kept ones and the dropped ones form a
    permutation of [ds], every kept sentence has a ground-truth probability
    at least that of every dropped one, and the kept ones are listed in
    descending order of that probability.  Ties are broken by the order
    of [ds] (document order, as [right_cands] builds it): the kept
    sentences of any one probability are the first ones of that
    probability in [ds], in the same order. *)
Theorem C4_select_top_sentences (rate : Q) (ds : list SC.cand) (Hne : ds <> []) :
  let kept := SC.select_top rate ds in
  length kept = Nat.min (length ds) (SC.top_count rate (length ds)) /\
  ((0 <= rate <= 1)%Q -> length kept = SC.top_count rate (length ds)) /\
  (exists dropped, ds ≡ₚ kept ++ dropped /\
     forall x y, In x kept -> In y dropped -> (SC.c_score y <= SC.c_score x)%Q) /\
  StronglySorted (fun a b => (SC.c_score b <= SC.c_score a)%Q) kept /\
  forall q,
    let ties l := List.filter (fun c => Qeq_bool (SC.c_score c) q) l in
    ties kept = firstn (length (ties kept)) (ties ds).
Proof.
  intros kept.
  assert (Hk : kept = firstn (SC.top_count rate (length ds)) (SC.sort_desc ds))
    by (unfold kept, SC.select_top; by destruct ds).
  assert (Hlen : length (SC.sort_desc ds) = length ds)
    by apply Permutation_length, SCProps.sort_desc_perm.
  pose proof (SelectProps.sort_desc_sorted ds) as Hs.
  rewrite <- (firstn_skipn (SC.top_count rate (length ds)) (SC.sort_desc ds)) in Hs.
  apply SelectProps.sorted_app_split in Hs as [Hs1 Hs2].
  assert (Hl : length kept = Nat.min (length ds) (SC.top_count rate (length ds))).
  { rewrite Hk, length_firstn, Hlen. lia. }
  split; [exact Hl|split; [|split; [|split]]].
  - intros Hr. rewrite Hl. pose proof (SelectProps.top_count_le rate (length ds) Hr) as H.
    assert (Hn : 1 <= length ds) by (destruct ds; [done|simpl; lia]).
    specialize (H Hn). lia.
  - exists (skipn (SC.top_count rate (length ds)) (SC.sort_desc ds)). split.
    + rewrite Hk, firstn_skipn. symmetry. apply SCProps.sort_desc_perm.
    + rewrite Hk. exact Hs2.
  - rewrite Hk. exact Hs1.
  - intros q ties. rewrite Hk.
    change (SelectProps.ties q (firstn (SC.top_count rate (length ds)) (SC.sort_desc ds)) =
            firstn (length (SelectProps.ties q (firstn (SC.top_count rate (length ds)) (SC.sort_desc ds))))
              (SelectProps.ties q ds)).
    rewrite <- (SelectProps.ties_sort_desc q ds). apply SelectProps.ties_firstn.
Qed.

(** [top_sen_rate = 0.5] over the four sentences of [ex_docs4] keeps the two
    most probable ones; over [ex_cands_tie] it keeps the most probable one
    and, of the three tied at 0.5, the first. *)
Lemma C4_witness :
  length (SC.select_top (1 # 2) ex_cands4) = 2 /\
  map SC.c_pos (SC.select_top (1 # 2) ex_cands4) = [3; 0] /\
  map SC.c_pos (SC.select_top (1 # 2) ex_cands_tie) = [1; 0] /\
  map SC.c_pos (List.filter (fun c => Qeq_bool (SC.c_score c) (1 # 2)) (SC.select_top (1 # 2) ex_cands_tie))
    = firstn 1 (map SC.c_pos (List.filter (fun c => Qeq_bool (SC.c_score c) (1 # 2)) ex_cands_tie)).
Proof.
  split; [|split; [vm_compute; reflexivity|split; [vm_compute; reflexivity|]]].
  - destruct (C4_select_top_sentences (1 # 2) ex_cands4 ltac:(discriminate)) as [_ [H _]].
    rewrite H; [vm_compute; reflexivity|].
    split; vm_compute; discriminate.
  - destruct (C4_select_top_sentences (1 # 2) ex_cands_tie ltac:(discriminate)) as [_ [_ [_ [_ H]]]].
    specialize (H (1 # 2)). cbv zeta in H. rewrite H, <- firstn_map. f_equal.
Defined.

(** ** Feature conversion *)

Lemma check_lengths_ok m f :
  Z.of_nat (length (input_ids f)) = m -> Z.of_nat (length (input_mask f)) = m ->
  Z.of_nat (length (segment_ids f)) = m -> check_lengths m f = Some f.
Proof.
  intros H1 H2 H3. unfold check_lengths. rewrite H1, H2, H3, Z.eqb_refl. done.
Qed.

(** [SC.convert_examples_to_features] meets its three length assertions for
    every example once [max_seq_length >= 2]. *)
Lemma sc_feature_lengths (tok_id : token -> Z) (max_seq_length : Z) (tokens_a : list token) :
  (2 <= max_seq_length)%Z ->
  exists f, sc_feature tok_id max_seq_length tokens_a = Some f /\
    Z.of_nat (length (input_ids f)) = max_seq_length /\
    Z.of_nat (length (input_mask f)) = max_seq_length /\
    Z.of_nat (length (segment_ids f)) = max_seq_length.
Proof.
  intros Hmax. unfold sc_feature.
  set (ta := if (max_seq_length - 2 <? Z.of_nat (length tokens_a))%Z
             then py_take (max_seq_length - 2) tokens_a else tokens_a).
  assert (Hta : (Z.of_nat (length ta) <= max_seq_length - 2)%Z).
  { unfold ta. destruct (max_seq_length - 2 <? Z.of_nat (length tokens_a))%Z eqn:E.
    - unfold py_take. replace (0 <=? max_seq_length - 2)%Z with true by lia.
      rewrite length_firstn. lia.
    - lia. }
  match goal with |- exists f, check_lengths _ ?F = Some f /\ _ => exists F end.
  unfold py_repeat. cbn [input_ids input_mask segment_ids].
  set (pad := Z.to_nat (max_seq_length - Z.of_nat (length (map tok_id (["[CLS]"%string] ++ ta ++ ["[SEP]"%string]))))).
  assert (L : length (["[CLS]"%string] ++ ta ++ ["[SEP]"%string]) = S (length ta + 1))
    by (simpl; rewrite length_app; simpl; lia).
  assert (E : Z.of_nat (S (length ta + 1) + pad) = max_seq_length)
    by (unfold pad; rewrite length_map, L; lia).
  assert (H1 : Z.of_nat (length (map tok_id (["[CLS]"%string] ++ ta ++ ["[SEP]"%string]) ++ repeat 0%Z pad))
               = max_seq_length) by (rewrite length_app, length_map, repeat_length, L; exact E).
  assert (H2 : Z.of_nat (length (repeat 1%Z (length (map tok_id (["[CLS]"%string] ++ ta ++ ["[SEP]"%string])))
                                 ++ repeat 0%Z pad)) = max_seq_length)
    by (rewrite length_app, !repeat_length, length_map, L; exact E).
  assert (H3 : Z.of_nat (length (repeat 0%Z (length (["[CLS]"%string] ++ ta ++ ["[SEP]"%string]))
                                 ++ repeat 0%Z pad)) = max_seq_length)
    by (rewrite length_app, !repeat_length, L; exact E).
  split; [by apply check_lengths_ok|]. cbn [input_ids input_mask segment_ids]. auto.
Qed.

Lemma sc_convert_lengths (tok_id : token -> Z) (max_seq_length : Z) (data : list (list token)) :
  (2 <= max_seq_length)%Z ->
  exists feats, sc_convert_examples_to_features tok_id max_seq_length data = Some feats /\
    length feats = length data.
Proof.
  intros Hmax. unfold sc_convert_examples_to_features.
  induction data as [|a data IH]; simpl; [by exists []|].
  destruct (sc_feature_lengths tok_id max_seq_length a Hmax) as [f [Hf _]].
  rewrite Hf. destruct IH as [feats [Hfs Hl]]. rewrite Hfs. simpl.
  exists (f :: feats). simpl. split; [done|lia].
Qed.

(** With [max_seq_length >= 2], [SC.evaluate] fails only on an empty batch. *)
Lemma sc_evaluate_done classify tok_id m data :
  (2 <= m)%Z -> data <> [] -> SC.evaluate classify tok_id m data = PDone (map classify data).
Proof.
  intros Hm Hne. unfold SC.evaluate.
  destruct (sc_convert_lengths tok_id m data Hm) as [fs [-> _]]. by destruct data.
Qed.

(** C5 (code bug): [ASC.convert_examples_to_features] truncates only the
    text to [max_seq_length - 2] although the sequence also holds the
    aspect and three special tokens, so its first [assert] fails: with
    [max_seq_length = 8], aspect ["service"] and a six-token text the
    sequence has 10 ids and no padding.  The single-sentence builder of
    [SC] on the same text yields three sequences of length 8. *)
Theorem C5_asc_feature_length_assert_fails :
  asc_convert_examples_to_features (fun _ => 100%Z) 8
    [(["the"; "food"; "was"; "great"; "and"; "cheap"]%string, ["service"%string])] = None /\
  (exists f, sc_convert_examples_to_features (fun _ => 100%Z) 8
    [["the"; "food"; "was"; "great"; "and"; "cheap"]%string] = Some [f] /\
    length (input_ids f) = 8 /\ length (input_mask f) = 8 /\ length (segment_ids f) = 8).
Proof.
  split; [vm_compute; reflexivity|].
  eexists. split; [vm_compute; reflexivity|]. vm_compute. auto.
Qed.

(** ** Masking ([create_mask]) *)
Section MaskingFacts.
Context {RNG : Type}.
Variable rng_random : RNG -> Q * RNG.
Variable rng_randint : Z -> Z -> RNG -> Z * RNG.
Variable vocab : list token.
Variable skip : token -> bool.

Abbreviation go := (create_mask_go rng_random rng_randint vocab skip).

Lemma create_mask_go_app l1 l2 sen info g :
  go (l1 ++ l2) sen info g =
  match go l1 sen info g with
  | Some (info1, g1) => go l2 sen info1 g1
  | None => None
  end.
Proof.
  revert info g. induction l1 as [|pos l1 IH]; intros info g; simpl; [done|].
  destruct (sen !! pos); [|done].
  destruct (skip _); [apply IH|]. destruct (mask_token _ _ _ _ _). apply IH.
Qed.

Lemma create_mask_go_length poses sen info g res g' :
  go poses sen info g = Some (res, g') -> length res = length info.
Proof.
  revert info g. induction poses as [|pos poses IH]; intros info g; simpl.
  - intros H. by inversion H.
  - destruct (sen !! pos); [|discriminate].
    destruct (skip _); [apply IH|]. destruct (mask_token _ _ _ _ _).
    intros H. rewrite (IH _ _ H). apply length_insert.
Qed.

(** Entries at positions outside [mask_poses] are untouched. *)
Lemma create_mask_go_other poses sen info g res g' i :
  go poses sen info g = Some (res, g') -> ~ In i poses -> res !! i = info !! i.
Proof.
  revert info g. induction poses as [|pos poses IH]; intros info g; simpl.
  - intros H _. by inversion H.
  - intros H Hi. destruct (sen !! pos); [|discriminate].
    destruct (skip _); [eapply IH; eauto|]. destruct (mask_token _ _ _ _ _).
    rewrite (IH _ _ H) by tauto. apply list_lookup_insert_ne. intros ->. tauto.
Qed.

(** Entries at positions whose token is skipped are untouched. *)
Lemma create_mask_go_skipped poses sen info g res g' i tok :
  go poses sen info g = Some (res, g') -> sen !! i = Some tok -> skip tok = true ->
  res !! i = info !! i.
Proof.
  revert info g. induction poses as [|pos poses IH]; intros info g; simpl.
  - intros H _ _. by inversion H.
  - intros H Htok Hs. destruct (sen !! pos) as [tok'|] eqn:Hp; [|discriminate].
    destruct (skip tok') eqn:Hs'; [eapply IH; eauto|]. destruct (mask_token _ _ _ _ _).
    rewrite (IH _ _ H Htok Hs). apply list_lookup_insert_ne.
    intros ->. congruence.
Qed.

(** The last occurrence of a non-skipped position gets the replacement
    drawn from the state reached just before it. *)
Lemma create_mask_go_last pos post sen info g res g' tok :
  go (pos :: post) sen info g = Some (res, g') -> ~ In pos post ->
  sen !! pos = Some tok -> skip tok = false -> length info = length sen ->
  res !! pos = Some (Some ((mask_token rng_random rng_randint vocab tok g).1, tok)).
Proof.
  intros H Hpost Htok Hs Hl. simpl in H. rewrite Htok, Hs in H.
  destruct (mask_token _ _ _ tok g) as [m g1] eqn:Hm.
  rewrite (create_mask_go_other _ _ _ _ _ _ _ H Hpost).
  apply list_lookup_insert_eq. apply lookup_lt_Some in Htok. lia.
Qed.

(** With the three draws written out. *)
Lemma mask_token_cases tok g :
  let m := (mask_token rng_random rng_randint vocab tok g).1 in
  exists u g1, rng_random g = (u, g1) /\
    ((qlt u (8 # 10) = true /\ m = "[MASK]"%string) \/
     (qlt u (8 # 10) = false /\ exists v g2, rng_random g1 = (v, g2) /\
        ((qlt v (1 # 2) = true /\ m = tok) \/
         (qlt v (1 # 2) = false /\ exists k g3,
            rng_randint 0 (Z.of_nat (length vocab) - 1)%Z g2 = (k, g3) /\
            m = nth (Z.to_nat k) vocab ""%string)))).
Proof.
  intros m. unfold m, mask_token. destruct (rng_random g) as [u g1].
  exists u, g1. split; [done|].
  destruct (qlt u (8 # 10)); [by left|right; split; [done|]].
  destruct (rng_random g1) as [v g2]. exists v, g2. split; [done|].
  destruct (qlt v (1 # 2)); [by left|right; split; [done|]].
  destruct (rng_randint _ _ g2) as [k g3]. by exists k, g3.
Qed.
End MaskingFacts.

Lemma lookup_repeat_lt {A} (x : A) n i : i < n -> repeat x n !! i = Some x.
Proof.
  revert i. induction n as [|n IH]; intros [|i] Hi; simpl; try lia; [done|].
  apply IH. lia.
Qed.

Lemma create_mask_with_length {RNG} rr ri vocab skip poses sen (g : RNG) res g' :
  create_mask_with rr ri vocab skip poses sen g = Some (res, g') -> length res = length sen.
Proof.
  unfold create_mask_with. intros H. rewrite (create_mask_go_length _ _ _ _ _ _ _ _ _ _ H).
  apply repeat_length.
Qed.

Lemma create_mask_with_other {RNG} rr ri vocab skip poses sen (g : RNG) res g' i :
  create_mask_with rr ri vocab skip poses sen g = Some (res, g') ->
  i < length sen -> ~ In i poses -> res !! i = Some None.
Proof.
  unfold create_mask_with. intros H Hi Hn.
  rewrite (create_mask_go_other _ _ _ _ _ _ _ _ _ _ _ H Hn).
  by apply lookup_repeat_lt.
Qed.

(** C6: a run of [create_mask] (SC and ASC with [skip] the stop-word test,
    ModelGen with [skip = fun _ => false]) that succeeds has one entry per
    token; a position not in [mask_poses] keeps the empty entry; a listed
    position [pos] whose token [tok] is not skipped gets [(m, tok)] from
    its last occurrence in [mask_poses], where, with [g0] the random state
    reached when that occurrence is processed: if the first draw [u] is
    below 0.8 then [m = "[MASK]"]; otherwise if the next draw [v] is below
    0.5 then [m = tok]; otherwise [m] is [vocab[k]] for
    [k = rng.randint(0, len(vocab) - 1)]. *)
Theorem C6_create_mask_replacement {RNG} (rr : RNG -> Q * RNG) ri vocab skip poses sen g res g' :
  create_mask_with rr ri vocab skip poses sen g = Some (res, g') ->
  length res = length sen /\
  (forall i, i < length sen -> ~ In i poses -> res !! i = Some None) /\
  (forall pre pos post tok, poses = pre ++ pos :: post -> ~ In pos post ->
     sen !! pos = Some tok -> skip tok = false ->
     exists info0 g0 m,
       create_mask_go rr ri vocab skip pre sen (repeat None (length sen)) g = Some (info0, g0) /\
       res !! pos = Some (Some (m, tok)) /\
       exists u g1, rr g0 = (u, g1) /\
         ((qlt u (8 # 10) = true /\ m = "[MASK]"%string) \/
          (qlt u (8 # 10) = false /\ exists v g2, rr g1 = (v, g2) /\
             ((qlt v (1 # 2) = true /\ m = tok) \/
              (qlt v (1 # 2) = false /\ exists k g3,
                 ri 0%Z (Z.of_nat (length vocab) - 1)%Z g2 = (k, g3) /\
                 m = nth (Z.to_nat k) vocab ""%string))))).
Proof.
  intros H. split; [by eapply create_mask_with_length|].
  split; [intros i; by eapply create_mask_with_other|].
  intros pre pos post tok -> Hpost Htok Hs.
  unfold create_mask_with in H. rewrite create_mask_go_app in H.
  destruct (create_mask_go rr ri vocab skip pre sen (repeat None (length sen)) g)
    as [[info0 g0]|] eqn:Hpre; [|discriminate].
  pose proof (create_mask_go_length _ _ _ _ _ _ _ _ _ _ Hpre) as Hl.
  rewrite repeat_length in Hl.
  exists info0, g0, (mask_token rr ri vocab tok g0).1. split; [done|]. split.
  - eapply create_mask_go_last; eauto.
  - apply mask_token_cases.
Qed.

Lemma C6_witness :
  create_mask_with ex_random ex_randint ["x"; "y"; "z"]%string ex_is_stop [1; 0; 3]
    ["the"; "food"; "was"; "good"]%string [9 # 10; 2 # 10; 5 # 10; 1 # 10]
  = Some ([None; Some ("food", "food"); None; Some ("[MASK]", "good")]%string, [1 # 10]) /\
  length [None; Some ("food", "food"); None; Some ("[MASK]", "good")]%string
    = length ["the"; "food"; "was"; "good"]%string.
Proof.
  assert (E : create_mask_with ex_random ex_randint ["x"; "y"; "z"]%string ex_is_stop [1; 0; 3]
    ["the"; "food"; "was"; "good"]%string [9 # 10; 2 # 10; 5 # 10; 1 # 10]
    = Some ([None; Some ("food", "food"); None; Some ("[MASK]", "good")]%string, [1 # 10]))
    by (vm_compute; reflexivity).
  split; [exact E|].
  exact (proj1 (C6_create_mask_replacement _ _ _ _ _ _ _ _ _ E)).
Defined.

Lemma create_mask_go_in_range {RNG} rr ri vocab skip poses sen info (g : RNG) :
  (forall pos, In pos poses -> pos < length sen) ->
  exists res g', create_mask_go rr ri vocab skip poses sen info g = Some (res, g').
Proof.
  revert info g. induction poses as [|pos poses IH]; intros info g Hin; simpl; [eauto|].
  destruct (lookup_lt_is_Some_2 sen pos) as [tok Htok]; [apply Hin; by left|].
  rewrite Htok. assert (Hin' : forall p, In p poses -> p < length sen) by (intros p Hp; apply Hin; by right).
  destruct (skip tok); [by apply IH|]. destruct (mask_token _ _ _ _ _). by apply IH.
Qed.

(** Without a skip test every listed position ends with an entry. *)
Lemma create_mask_go_noskip {RNG} rr ri vocab poses sen info (g : RNG) res g' pos :
  create_mask_go rr ri vocab (fun _ => false) poses sen info g = Some (res, g') ->
  length info = length sen ->
  (In pos poses \/ exists m tok, sen !! pos = Some tok /\ info !! pos = Some (Some (m, tok))) ->
  exists m tok, sen !! pos = Some tok /\ res !! pos = Some (Some (m, tok)).
Proof.
  revert info g. induction poses as [|p poses IH]; intros info g H Hl Hp; simpl in H.
  - inversion H; subst. by destruct Hp as [[]|Hp].
  - destruct (sen !! p) as [tok|] eqn:Htok; [|discriminate].
    destruct (mask_token _ _ _ tok g) as [m g1]. apply (IH _ _ H); [by rewrite length_insert|].
    destruct (decide (pos = p)) as [->|Hne].
    + right. exists m, tok. split; [done|]. apply list_lookup_insert_eq.
      apply lookup_lt_Some in Htok. lia.
    + destruct Hp as [[->|Hp]|[m' [tok' [Hs Hi]]]]; [done|by left|].
      right. exists m', tok'. split; [done|]. by rewrite list_lookup_insert_ne by congruence.
Qed.

(** C10: [ModelGen.create_mask] has no stop-word test: whenever the listed
    positions are positions of the sentence it succeeds and every listed
    position gets a mask entry, stop word or not; [SC.create_mask] and
    [ASC.create_mask] on the same input also succeed but leave every
    stop-word position empty.  So a listed stop word is masked by
    ModelGen and not by SC/ASC. *)
Theorem C10_modelgen_no_stop_filter {RNG} (rr : RNG -> Q * RNG) ri vocab is_stop poses sen g :
  (forall pos, In pos poses -> pos < length sen) ->
  (exists res g', ModelGen.create_mask rr ri vocab poses sen g = Some (res, g') /\
     forall pos, In pos poses -> exists m tok, sen !! pos = Some tok /\ res !! pos = Some (Some (m, tok))) /\
  (exists res g', SC.create_mask rr ri vocab is_stop poses sen g = Some (res, g') /\
     forall pos tok, sen !! pos = Some tok -> is_stop tok = true -> res !! pos = Some None) /\
  (exists res g', ASC.create_mask rr ri vocab is_stop poses sen g = Some (res, g') /\
     forall pos tok, sen !! pos = Some tok -> is_stop tok = true -> res !! pos = Some None).
Proof.
  intros Hin.
  assert (Hstop : forall res g', create_mask_with rr ri vocab is_stop poses sen g = Some (res, g') ->
            forall pos tok, sen !! pos = Some tok -> is_stop tok = true -> res !! pos = Some None).
  { intros res g' H pos tok Htok Hs. unfold create_mask_with in H.
    rewrite (create_mask_go_skipped _ _ _ _ _ _ _ _ _ _ _ _ H Htok Hs).
    apply lookup_repeat_lt. by eapply lookup_lt_Some. }
  destruct (create_mask_go_in_range rr ri vocab is_stop poses sen (repeat None (length sen)) g Hin)
    as [res1 [g1 H1]].
  split; [|split; (exists res1, g1; split; [exact H1|eapply Hstop; exact H1])].
  destruct (create_mask_go_in_range rr ri vocab (fun _ => false) poses sen (repeat None (length sen)) g Hin)
    as [res [g' H]].
  exists res, g'. split; [exact H|]. intros pos Hpos.
  eapply create_mask_go_noskip; [exact H|apply repeat_length|by left].
Qed.

Lemma C10_witness :
  ModelGen.create_mask ex_random ex_randint ["x"]%string [0] ["the"]%string [1 # 10]
    = Some ([Some ("[MASK]", "the")]%string, []) /\
  SC.create_mask ex_random ex_randint ["x"]%string ex_is_stop [0] ["the"]%string [1 # 10]
    = Some ([None], [1 # 10]) /\
  exists res g', ModelGen.create_mask ex_random ex_randint ["x"]%string [0] ["the"]%string [1 # 10]
    = Some (res, g') /\
    forall pos, In pos [0] -> exists m tok, ["the"%string] !! pos = Some tok /\ res !! pos = Some (Some (m, tok)).
Proof.
  split; [vm_compute; reflexivity|]. split; [vm_compute; reflexivity|].
  apply (proj1 (C10_modelgen_no_stop_filter ex_random ex_randint ["x"]%string ex_is_stop [0]
                  ["the"]%string [1 # 10] ltac:(intros pos [<-|[]]; simpl; lia))).
Defined.

(** ** The sentence indices of each document *)
Module SCLayout.
Import SC.

Lemma imap_repeat_pair s k n :
  imap (fun i (d : nat) => (s + i, d)) (repeat k n) = map (fun i => (i, k)) (seq s n).
Proof.
  revert s. induction n as [|n IH]; intros s; simpl; [done|].
  rewrite Nat.add_0_r. f_equal. rewrite <- IH.
  apply imap_ext. intros i x _. simpl. f_equal. lia.
Qed.

Lemma imap_sen_pairs (docs : list (list (list token))) s k :
  imap (fun i (d : nat) => (s + i, d)) (concat (imap (fun j (tL : list (list token)) => repeat (k + j) (length tL)) docs))
  = doc_pairs (map length docs) s k.
Proof.
  revert s k. induction docs as [|tL docs IH]; intros s k; simpl; [done|].
  rewrite imap_app, repeat_length, Nat.add_0_r, imap_repeat_pair. f_equal.
  rewrite <- (IH (s + length tL) (S k)).
  rewrite (imap_ext _ (fun i (d : nat) => (s + length tL + i, d))) by (intros i x _; simpl; f_equal; lia).
  f_equal. f_equal. apply imap_ext. intros j x _. simpl. f_equal. lia.
Qed.

Lemma sen_pairs docs : imap pair (sen_doc_ids docs) = doc_pairs (map length docs) 0 0.
Proof.
  rewrite <- imap_sen_pairs. unfold sen_doc_ids. by apply imap_ext.
Qed.

Lemma doc_pairs_ge ns s k p : In p (doc_pairs ns s k) -> k <= p.2 /\ s <= p.1.
Proof.
  revert s k. induction ns as [|n ns IH]; intros s k; simpl; [done|].
  intros H. apply in_app_or in H as [H|H].
  - apply in_map_iff in H as [i [<- Hi]]. apply in_seq in Hi. simpl. lia.
  - apply IH in H. lia.
Qed.

Lemma span_doc_other k l : (forall p, In p l -> k < p.2) -> span_doc k l = ([], l).
Proof.
  destruct l as [|[i d] l]; intros H; simpl; [done|].
  specialize (H _ (or_introl eq_refl)). simpl in H.
  destruct (Nat.eqb_spec d k); [lia|done].
Qed.

Lemma span_doc_map k l rest :
  span_doc k (map (fun i => (i, k)) l ++ rest) =
  let (g, r) := span_doc k rest in (l ++ g, r).
Proof.
  induction l as [|i l IH]; simpl; [by destruct (span_doc k rest)|].
  rewrite Nat.eqb_refl, IH. by destruct (span_doc k rest).
Qed.

Lemma span_doc_pairs n ns s k :
  span_doc k (doc_pairs (n :: ns) s k) = (seq s n, doc_pairs ns (s + n) (S k)).
Proof.
  simpl. rewrite span_doc_map, span_doc_other; [by rewrite app_nil_r|].
  intros p Hp. apply doc_pairs_ge in Hp. lia.
Qed.
End SCLayout.

(** ** The instances built by [SC.forward] *)
Module SCBuild.
Import SC.

Section Build.
Context {RNG : Type}.
Variable rr : RNG -> Q * RNG.
Variable ri : Z -> Z -> RNG -> Z * RNG.
Variable vocab : list token.
Variable is_stop : token -> bool.

Abbreviation inst_ok := (sc_inst_ok rr ri vocab is_stop).

Lemma build_doc_spec sents d grp (g : RNG) l g' :
  build_doc rr ri vocab is_stop sents d grp g = Some (l, g') ->
  Forall2 (inst_ok sents d) grp l.
Proof.
  revert g l. induction grp as [|i grp IH]; intros g l H; simpl in H.
  - inversion H; subst. constructor.
  - destruct (create_mask _ _ _ _ _ _ g) as [[m g1]|] eqn:Hm; [|discriminate].
    destruct (build_doc _ _ _ _ sents d grp g1) as [[rest g2]|] eqn:Hr; [|discriminate].
    inversion H; subst. constructor; [|by eapply IH].
    split; [done|]. simpl. eauto.
Qed.

Lemma build_docs_pairs sents d ns s k (g : RNG) out g' :
  build_docs rr ri vocab is_stop sents d k (length ns) (doc_pairs ns s k) g = Some (out, g') ->
  length out = length ns /\
  forall j, j < length ns -> exists g0 g1,
    build_doc rr ri vocab is_stop sents d (seq (s + sum_list (take j ns)) (nth j ns 0)) g0
    = Some (nth j out [], g1).
Proof.
  revert s k g out. induction ns as [|n ns IH]; intros s k g out H.
  - simpl in H. inversion H; subst. split; [done|simpl; lia].
  - cbn [length build_docs] in H. rewrite SCLayout.span_doc_pairs in H.
    destruct (build_doc _ _ _ _ sents d (seq s n) g) as [[doc g1]|] eqn:Hd; [|discriminate].
    destruct (build_docs _ _ _ _ sents d (S k) (length ns) _ g1) as [[docs g2]|] eqn:Hr;
      [|discriminate].
    inversion H; subst. destruct (IH _ _ _ _ Hr) as [Hl Hj].
    split; [simpl; lia|]. intros [|j] Hjl; simpl.
    + rewrite Nat.add_0_r. eauto.
    + rewrite Nat.add_assoc. apply Hj. simpl in Hjl. lia.
Qed.

Lemma replicate_spec docs d dupe (g : RNG) out g' :
  replicate_docs rr ri vocab is_stop docs d dupe g = Some (out, g') ->
  length out = dupe * length docs /\
  forall r, r < dupe -> exists one g0 g1,
    build_docs rr ri vocab is_stop (sentences docs) d 0 (length docs)
      (imap pair (sen_doc_ids docs)) g0 = Some (one, g1) /\
    forall k, k < length docs -> nth (r * length docs + k) out [] = nth k one [].
Proof.
  revert g out. induction dupe as [|n IH]; intros g out H; simpl in H.
  - inversion H; subst. split; [done|lia].
  - destruct (build_docs _ _ _ _ _ d 0 _ _ g) as [[one g1]|] eqn:Hb; [|discriminate].
    destruct (replicate_docs _ _ _ _ docs d n g1) as [[more g2]|] eqn:Hr; [|discriminate].
    inversion H; subst. destruct (IH _ _ Hr) as [Hl Hrep].
    pose proof Hb as Hb'. rewrite SCLayout.sen_pairs in Hb'.
    rewrite <- (length_map length docs) in Hb'.
    destruct (build_docs_pairs _ _ _ _ _ _ _ _ Hb') as [Hone _].
    rewrite length_map in Hone.
    split; [rewrite length_app; lia|]. intros [|r] Hr'.
    + exists one, g, g1. split; [done|]. intros k Hk. simpl. by rewrite app_nth1 by lia.
    + destruct (Hrep r ltac:(lia)) as [one' [g0 [g3 [Hb0 Hk]]]].
      exists one', g0, g3. split; [done|]. intros k Hk'.
      rewrite app_nth2 by (simpl; lia).
      replace (S r * length docs + k - length one) with (r * length docs + k) by (simpl; lia).
      by apply Hk.
Qed.

(** Sentence [t] of document [k] is entry [offset + t] of [sentences]. *)
Lemma concat_doc_nth (docs : list (list (list token))) k t :
  k < length docs -> t < length (nth k docs []) ->
  nth (sum_list (take k (map length docs)) + t) (concat docs) [] = nth t (nth k docs []) [].
Proof.
  revert k. induction docs as [|doc docs IH]; intros k Hk Ht; simpl in *; [lia|].
  destruct k as [|k]; simpl.
  - by rewrite app_nth1.
  - rewrite app_nth2 by lia.
    replace (length doc + sum_list (take k (map length docs)) + t - length doc)
      with (sum_list (take k (map length docs)) + t) by lia.
    apply IH; lia.
Qed.

Lemma doc_sentences (docs : list (list (list token))) k :
  k < length docs ->
  map (fun i => nth i (sentences docs) []) (seq (0 + sum_list (take k (map length docs)))
                                                (nth k (map length docs) 0))
  = nth k docs [].
Proof.
  intros Hk.
  assert (Hn : nth k (map length docs) 0 = length (nth k docs []))
    by (rewrite (nth_indep _ 0 (length (@nil (list token)))) by (rewrite length_map; lia);
        apply map_nth).
  rewrite Hn. apply (nth_ext _ _ [] []); rewrite ?length_map, ?length_seq; [done|].
  intros t Ht.
  rewrite (nth_indep _ [] ((fun i => nth i (sentences docs) []) 0))
    by (rewrite length_map, length_seq; lia).
  rewrite (map_nth (fun i => nth i (sentences docs) []) _ 0 t), seq_nth by lia. simpl. by apply concat_doc_nth.
Qed.
End Build.
End SCBuild.

(** ** Documents without a correctly classified sentence *)
Module SCUnclassified.
Import SC.

Lemma span_doc_in k l grp rest :
  span_doc k l = (grp, rest) ->
  (forall i, In i grp -> In (i, k) l) /\ (forall p, In p rest -> In p l).
Proof.
  revert grp rest. induction l as [|[i d] l IH]; intros grp rest H; simpl in H.
  - inversion H; subst. split; intros ? [].
  - destruct (Nat.eqb_spec d k) as [->|Hne].
    + destruct (span_doc k l) as [g r] eqn:E. inversion H; subst.
      destruct (IH _ _ eq_refl) as [H1 H2]. split.
      * intros j [<-|Hj]; [by left|right; auto].
      * intros p Hp. right. auto.
    + inversion H; subst. split; [intros ? []|done].
Qed.

(** A retained sentence is classified as its document's label. *)
Lemma select_docs_in classify rate sents labels doc_id fuel l c :
  In c (select_docs classify rate sents labels doc_id fuel l) ->
  exists k, In (c_pos c, k) l /\ argmax (classify (nth (c_pos c) sents [])) = nth k labels 0.
Proof.
  revert doc_id l. induction fuel as [|fuel IH]; intros doc_id l; simpl; [done|].
  destruct (span_doc doc_id l) as [grp rest] eqn:Hs.
  destruct (span_doc_in _ _ _ _ Hs) as [Hg Hr].
  intros H. apply in_app_or in H as [H|H].
  - apply SCProps.select_top_in in H. apply in_flat_map in H as [i [Hi Hc]].
    destruct (Nat.eqb_spec (nth doc_id labels 0) (argmax (classify (nth i sents []))))
      as [He|]; [|destruct Hc].
    destruct Hc as [<-|[]]. simpl. exists doc_id. split; [by apply Hg|done].
  - destruct (IH _ _ H) as [k [Hk Ha]]. exists k. split; [by apply Hr|done].
Qed.

Lemma right_cands_in classify rate docs labels c :
  In c (right_cands classify rate docs labels) ->
  exists k, sen_doc_ids docs !! c_pos c = Some k /\
    argmax (classify (nth (c_pos c) (sentences docs) [])) = nth k labels 0.
Proof.
  intros H. apply select_docs_in in H as [k [Hk Ha]].
  apply SCProps.in_imap in Hk as [j [x [Hj He]]]. inversion He; subst. eauto.
Qed.

(** The keys of [mask_poses_d] are positions of retained sentences. *)
Lemma mask_poses_d_keys classify tok_id m rate threshold docs labels d :
  mask_poses_d classify tok_id m rate threshold docs labels = PDone d ->
  forall i l, d !! i = Some l -> In i (map c_pos (right_cands classify rate docs labels)).
Proof.
  intros H%sc_mask_poses_probe. revert H. set (rc := right_cands classify rate docs labels).
  apply (probe_inv _ _ _ _ _ _ (fun it => In (sen_doc_pos it) (map c_pos rc))
           (fun d => forall i l, d !! i = Some l -> In i (map c_pos rc))).
  - intros it r d0 Hit Hd _ i l Hi. unfold record in Hi.
    destruct (decide (sen_doc_pos it = i)) as [<-|Hne]; [done|].
    destruct (d0 !! sen_doc_pos it); rewrite lookup_insert_ne in Hi by done; eauto.
  - intros it Hit. apply SCProps.in_imap in Hit as [j [c [Hj ->]]]. simpl.
    apply in_map. apply list_elem_of_In, list_elem_of_lookup. eauto.
  - intros i l Hi. by rewrite lookup_empty in Hi.
Qed.

Lemma unclassified_no_cand classify rate docs labels k :
  (forall i, sen_doc_ids docs !! i = Some k ->
     argmax (classify (nth i (sentences docs) [])) <> nth k labels 0) ->
  forall c, In c (right_cands classify rate docs labels) -> sen_doc_ids docs !! c_pos c <> Some k.
Proof.
  intros Hk c Hc Heq. destruct (right_cands_in _ _ _ _ _ Hc) as [k' [Hk' Ha]].
  rewrite Heq in Hk'. inversion Hk'; subst. by apply (Hk _ Heq).
Qed.

Lemma unclassified_no_positions classify tok_id m rate threshold docs labels k d :
  (forall i, sen_doc_ids docs !! i = Some k ->
     argmax (classify (nth i (sentences docs) [])) <> nth k labels 0) ->
  mask_poses_d classify tok_id m rate threshold docs labels = PDone d ->
  forall i, sen_doc_ids docs !! i = Some k -> d !! i = None.
Proof.
  intros Hk Hd i Hi. destruct (d !! i) as [l|] eqn:E; [|done].
  apply (mask_poses_d_keys _ _ _ _ _ _ _ _ Hd) in E. apply in_map_iff in E as [c [Hc Hin]].
  subst i. by apply (unclassified_no_cand _ _ _ _ _ Hk c) in Hin.
Qed.
End SCUnclassified.

(** ** The output of [SC.forward] *)
Module SCOutput.
Import SC.

Lemma doc_pairs_lookup ns s k0 k n j :
  ns !! k = Some n -> j < n ->
  doc_pairs ns s k0 !! (sum_list (take k ns) + j) = Some (s + sum_list (take k ns) + j, k0 + k).
Proof.
  revert s k0 k. induction ns as [|n' ns IH]; intros s k0 k Hk Hj; [done|].
  destruct k as [|k]; simpl in *.
  - inversion Hk; subst. rewrite lookup_app_l by (rewrite length_map, length_seq; lia).
    change (map ?f ?l) with (f <$> l). rewrite list_lookup_fmap, lookup_seq_lt by done.
    simpl. f_equal. f_equal; lia.
  - rewrite lookup_app_r by (rewrite length_map, length_seq; lia).
    rewrite length_map, length_seq.
    replace (n' + sum_list (take k ns) + j - n') with (sum_list (take k ns) + j) by lia.
    rewrite (IH _ _ _ Hk Hj). f_equal. f_equal; lia.
Qed.

Lemma sen_doc_ids_lookup (docs : list (list (list token))) k j :
  k < length docs -> j < length (nth k docs []) ->
  sen_doc_ids docs !! (sum_list (take k (map length docs)) + j) = Some k.
Proof.
  intros Hk Hj.
  assert (Hn : map length docs !! k = Some (length (nth k docs []))).
  { change (map ?f ?l) with (f <$> l). rewrite list_lookup_fmap.
    destruct (lookup_lt_is_Some_2 docs k Hk) as [x Hx]. rewrite Hx. simpl.
    by rewrite (nth_lookup_Some _ _ [] _ Hx). }
  pose proof (doc_pairs_lookup _ 0 0 _ _ _ Hn Hj) as H.
  rewrite <- SCLayout.sen_pairs, list_lookup_imap in H.
  destruct (sen_doc_ids docs !! _) as [x|]; [|done]. by inversion H.
Qed.

Section Run.
Context {RNG : Type}.
Variable rr : RNG -> Q * RNG.
Variable ri : Z -> Z -> RNG -> Z * RNG.
Variable vocab : list token.
Variable is_stop : token -> bool.

Lemma build_doc_ok sents d grp (g : RNG) :
  sc_positions_ok sents d -> exists l g', build_doc rr ri vocab is_stop sents d grp g = Some (l, g').
Proof.
  intros Hok. revert g. induction grp as [|i grp IH]; intros g; simpl; [eauto|].
  destruct (create_mask_go_in_range rr ri vocab is_stop
              (match d !! i with Some l => l | None => [] end) (nth i sents [])
              (repeat None (length (nth i sents []))) g) as [m [g1 Hm]].
  { destruct (d !! i) as [l|] eqn:E; [|intros ? []]. intros pos Hpos. by eapply Hok. }
  unfold create_mask, create_mask_with. rewrite Hm.
  destruct (IH g1) as [rest [g2 Hr]]. rewrite Hr. eauto.
Qed.

Lemma build_docs_ok sents d doc_id fuel l (g : RNG) :
  sc_positions_ok sents d ->
  exists out g', build_docs rr ri vocab is_stop sents d doc_id fuel l g = Some (out, g').
Proof.
  intros Hok. revert doc_id l g. induction fuel as [|fuel IH]; intros doc_id l g; simpl; [eauto|].
  destruct (span_doc doc_id l) as [grp rest].
  destruct (build_doc_ok sents d grp g Hok) as [doc [g1 Hd]]. rewrite Hd.
  destruct (IH (S doc_id) rest g1) as [docs [g2 Hr]]. rewrite Hr. eauto.
Qed.

Lemma replicate_docs_ok docs d dupe (g : RNG) :
  sc_positions_ok (sentences docs) d ->
  exists out g', replicate_docs rr ri vocab is_stop docs d dupe g = Some (out, g').
Proof.
  intros Hok. revert g. induction dupe as [|n IH]; intros g; simpl; [eauto|].
  destruct (build_docs_ok (sentences docs) d 0 (length docs) (imap pair (sen_doc_ids docs)) g Hok)
    as [one [g1 Hb]]. rewrite Hb.
  destruct (IH g1) as [more [g2 Hr]]. rewrite Hr. eauto.
Qed.

(** [forward] fails only when the probe does. *)
Lemma forward_ok classify tok_id m rate threshold docs labels dupe (g : RNG) d :
  mask_poses_d classify tok_id m rate threshold docs labels = PDone d ->
  exists out g', forward rr ri vocab is_stop classify tok_id m rate threshold docs labels dupe g = Some (out, g').
Proof.
  intros Hd. unfold forward. rewrite Hd.
  apply replicate_docs_ok. by eapply sc_mask_poses_ok.
Qed.

(** Each replica holds, for each document, one instance per sentence
    of the document, in order, with an all-empty info when the
    sentence has no salient position. *)
Lemma forward_layout classify tok_id m rate threshold docs labels dupe (g : RNG) out g' :
  forward rr ri vocab is_stop classify tok_id m rate threshold docs labels dupe g = Some (out, g') ->
  exists d, mask_poses_d classify tok_id m rate threshold docs labels = PDone d /\
    length out = dupe * length docs /\
    forall r k, r < dupe -> k < length docs ->
      exists insts, out !! (r * length docs + k) = Some insts /\
        map mti_tokens insts = nth k docs [] /\
        forall j inst, insts !! j = Some inst ->
          let i := sum_list (take k (map length docs)) + j in
          sen_doc_ids docs !! i = Some k /\
          mti_tokens inst = nth i (sentences docs) [] /\
          (d !! i = None -> mti_info inst = repeat None (length (mti_tokens inst))).
Proof.
  unfold forward. destruct (mask_poses_d classify tok_id m rate threshold docs labels) as [d| | |] eqn:Hd;
    try discriminate.
  intros Hrep. exists d. split; [done|].
  destruct (SCBuild.replicate_spec rr ri vocab is_stop _ _ _ _ _ _ Hrep) as [Hlen Hr].
  split; [done|]. intros r k Hrk Hk.
  destruct (Hr r Hrk) as [one [g0 [g1 [Hb Hnth]]]].
  rewrite SCLayout.sen_pairs in Hb. rewrite <- (length_map length docs) in Hb.
  destruct (SCBuild.build_docs_pairs _ _ _ _ _ _ _ _ _ _ _ _ Hb) as [Hone Hdoc].
  rewrite length_map in Hone, Hdoc.
  destruct (Hdoc k Hk) as [g2 [g3 Hbd]].
  apply SCBuild.build_doc_spec in Hbd.
  exists (nth k one []). split; [|split].
  - rewrite <- (Hnth k Hk).
    destruct (lookup_lt_is_Some_2 out (r * length docs + k)) as [x Hx]; [nia|].
    rewrite Hx. f_equal. symmetry. by apply nth_lookup_Some.
  - rewrite <- (SCBuild.doc_sentences docs k Hk).
    clear -Hbd. induction Hbd as [|i inst grp insts [Ht _] _ IH]; simpl; [done|].
    by rewrite Ht, IH.
  - intros j inst Hj. set (i := sum_list (take k (map length docs)) + j).
    destruct (Forall2_lookup_r _ _ _ _ _ Hbd Hj) as [i' [Hi' [Ht [g4 [g5 Hm]]]]].
    apply lookup_seq in Hi' as [-> Hjl].
    assert (Hn : nth k (map length docs) 0 = length (nth k docs [])).
    { rewrite (nth_indep _ 0 (length (@nil (list token)))) by (rewrite length_map; lia).
      apply map_nth. }
    rewrite Hn in Hjl. simpl in Ht, Hm. fold i in Ht, Hm.
    split; [by apply SCOutput.sen_doc_ids_lookup|]. split; [done|].
    intros Hnone. rewrite Hnone in Hm. unfold create_mask, create_mask_with in Hm.
    simpl in Hm. inversion Hm; subst. by rewrite Ht.
Qed.
End Run.
End SCOutput.

Lemma sc_no_correct_sentence classify tok_id m rate threshold docs labels :
  (forall i k, SC.sen_doc_ids docs !! i = Some k ->
     argmax (classify (nth i (SC.sentences docs) [])) <> nth k labels 0) ->
  (2 <= m)%Z -> SC.sentences docs <> [] -> SC.labels_ok docs labels = true ->
  SC.mask_poses_d classify tok_id m rate threshold docs labels = PDone ∅.
Proof.
  intros Hno Hm Hne Hl. unfold SC.mask_poses_d.
  rewrite (sc_evaluate_done classify tok_id m _ Hm Hne), Hl.
  assert (Hrc : SC.right_cands classify rate docs labels = []).
  { destruct (SC.right_cands classify rate docs labels) as [|c rc] eqn:E; [done|].
    destruct (SCUnclassified.right_cands_in classify rate docs labels c) as [k [Hk Ha]];
      [rewrite E; by left|].
    by apply (Hno _ _ Hk) in Ha. }
  rewrite Hrc. reflexivity.
Qed.

(** ** [ASC]: documents without a correctly classified aspect *)
Module ASCUnclassified.
Import ASC.

Lemma sentences_of_in docs sd :
  In sd (sentences_of docs) ->
  exists doc f l, docs !! sd.2 = Some doc /\ In f doc.2 /\ f_polarity f = Some l /\
    sd.1 = {| text := doc.1; aspect := f_aspect f; label := l |}.
Proof.
  unfold sentences_of. intros H. apply in_concat in H as [xs [Hxs Hsd]].
  apply SCProps.in_imap in Hxs as [j [doc [Hj ->]]].
  apply in_flat_map in Hsd as [f [Hf Hsd]].
  destruct (f_polarity f) as [l|] eqn:Hp; [|destruct Hsd].
  destruct Hsd as [<-|[]]. simpl. eauto 10.
Qed.

Lemma right_sens_in classify docs r :
  In r (right_sens classify docs) ->
  exists doc f l, docs !! r.1.2 = Some doc /\ In f doc.2 /\ f_polarity f = Some l /\
    argmax (classify (f_aspect f) doc.1) = l.
Proof.
  unfold right_sens. intros H. apply in_flat_map in H as [sd [Hsd Hr]].
  destruct (Nat.eqb_spec (argmax (classify (aspect sd.1) (text sd.1))) (label sd.1)) as [He|];
    [|destruct Hr].
  destruct Hr as [<-|[]]. simpl.
  destruct (sentences_of_in _ _ Hsd) as [doc [f [l [Hd [Hf [Hp Hs]]]]]].
  rewrite Hs in He. simpl in He. eauto 10.
Qed.

Lemma unclassified_empty classify tok_id m threshold docs L k doc :
  docs !! k = Some doc ->
  (forall f l, In f doc.2 -> f_polarity f = Some l -> argmax (classify (f_aspect f) doc.1) <> l) ->
  mask_poses_L classify tok_id m threshold docs = PDone L -> L !! k = Some ∅.
Proof.
  intros Hk Hno H%asc_mask_poses_probe. revert H. set (rs := right_sens classify docs).
  apply (probe_inv _ _ _ _ _ _ (fun it => nth (sen_right_id it) (map (fun r => r.1.2) rs) 0 <> k)
           (fun L => L !! k = Some ∅)).
  - intros it r L0 Hit HL _. unfold record. by rewrite list_lookup_alter_ne.
  - intros it Hit. apply SCProps.in_imap in Hit as [j [r [Hj ->]]]. simpl.
    assert (Hm : map (fun r => r.1.2) rs !! j = Some r.1.2).
    { change (map ?f ?xs) with (f <$> xs). by rewrite list_lookup_fmap, Hj. }
    rewrite (nth_lookup_Some _ j 0 r.1.2 Hm).
    intros Heq. destruct (right_sens_in classify docs r) as [doc' [f [l [Hd [Hf [Hp Ha]]]]]].
    { apply list_elem_of_In, list_elem_of_lookup. eauto. }
    rewrite Heq, Hk in Hd. injection Hd as Hdd. subst doc'. exact (Hno f l Hf Hp Ha).
  - apply lookup_repeat_lt. by eapply lookup_lt_Some.
Qed.
End ASCUnclassified.

(** ** Stop words in the built instances *)
Lemma create_mask_with_skipped {RNG} rr ri vocab skip poses sen (g : RNG) res g' i tok :
  create_mask_with rr ri vocab skip poses sen g = Some (res, g') ->
  sen !! i = Some tok -> skip tok = true -> res !! i = Some None.
Proof.
  intros H Htok Hs. unfold create_mask_with in H.
  rewrite (create_mask_go_skipped _ _ _ _ _ _ _ _ _ _ _ _ H Htok Hs).
  apply lookup_repeat_lt. by eapply lookup_lt_Some.
Qed.

Module StopWords.
Section Insts.
Context {RNG : Type}.
Variable rr : RNG -> Q * RNG.
Variable ri : Z -> Z -> RNG -> Z * RNG.
Variable vocab : list token.
Variable is_stop : token -> bool.

(** Every instance's info comes from a run of [create_mask] on its tokens. *)
Abbreviation from_mask inst :=
  (exists poses (g0 g1 : RNG),
     create_mask_with rr ri vocab is_stop poses (mti_tokens inst) g0 = Some (mti_info inst, g1)).

Lemma sc_build_doc_from_mask sents d grp (g : RNG) l g' :
  SC.build_doc rr ri vocab is_stop sents d grp g = Some (l, g') ->
  forall inst, In inst l -> from_mask inst.
Proof.
  intros H inst Hin. apply SCBuild.build_doc_spec in H.
  apply list_elem_of_In, list_elem_of_lookup in Hin as [j Hj].
  destruct (Forall2_lookup_r _ _ _ _ _ H Hj) as [i [_ [Ht [g0 [g1 Hm]]]]].
  rewrite Ht. unfold SC.create_mask in Hm. eauto.
Qed.

Lemma sc_build_docs_from_mask sents d doc_id fuel l (g : RNG) out g' :
  SC.build_docs rr ri vocab is_stop sents d doc_id fuel l g = Some (out, g') ->
  forall insts inst, In insts out -> In inst insts -> from_mask inst.
Proof.
  revert doc_id l g out. induction fuel as [|fuel IH]; intros doc_id l g out H; simpl in H.
  - inversion H; subst. intros ? ? [].
  - destruct (SC.span_doc doc_id l) as [grp rest].
    destruct (SC.build_doc _ _ _ _ sents d grp g) as [[doc g1]|] eqn:Hd; [|discriminate].
    destruct (SC.build_docs _ _ _ _ sents d (S doc_id) fuel rest g1) as [[docs g2]|] eqn:Hr;
      [|discriminate].
    inversion H; subst. intros insts inst [<-|Hi] Hinst.
    + eapply sc_build_doc_from_mask; eauto.
    + eapply IH; eauto.
Qed.

Lemma sc_replicate_from_mask docs d dupe (g : RNG) out g' :
  SC.replicate_docs rr ri vocab is_stop docs d dupe g = Some (out, g') ->
  forall insts inst, In insts out -> In inst insts -> from_mask inst.
Proof.
  revert g out. induction dupe as [|n IH]; intros g out H; simpl in H.
  - inversion H; subst. intros ? ? [].
  - destruct (SC.build_docs _ _ _ _ _ d 0 _ _ g) as [[one g1]|] eqn:Hb; [|discriminate].
    destruct (SC.replicate_docs _ _ _ _ docs d n g1) as [[more g2]|] eqn:Hr; [|discriminate].
    inversion H; subst. intros insts inst Hi Hinst. apply in_app_or in Hi as [Hi|Hi].
    + eapply sc_build_docs_from_mask; eauto.
    + eapply IH; eauto.
Qed.

Lemma asc_build_docs_from_mask texts L (g : RNG) out g' :
  ASC.build_docs rr ri vocab is_stop texts L g = Some (out, g') ->
  forall insts inst, In insts out -> In inst insts -> from_mask inst.
Proof.
  revert L g out. induction texts as [|t texts IH]; intros L g out H; simpl in H.
  - inversion H; subst. intros ? ? [].
  - destruct L as [|s L]; [inversion H; subst; intros ? ? []|].
    destruct (ASC.create_mask _ _ _ _ (elements s) t g) as [[m g1]|] eqn:Hm; [|discriminate].
    destruct (ASC.build_docs _ _ _ _ texts L g1) as [[rest g2]|] eqn:Hr; [|discriminate].
    inversion H; subst. intros insts inst [<-|Hi] Hinst.
    + destruct Hinst as [<-|[]]. simpl. unfold ASC.create_mask in Hm. eauto.
    + eapply IH; eauto.
Qed.

Lemma asc_replicate_from_mask texts L dupe (g : RNG) out g' :
  ASC.replicate_docs rr ri vocab is_stop texts L dupe g = Some (out, g') ->
  forall insts inst, In insts out -> In inst insts -> from_mask inst.
Proof.
  revert g out. induction dupe as [|n IH]; intros g out H; simpl in H.
  - inversion H; subst. intros ? ? [].
  - destruct (ASC.build_docs _ _ _ _ texts L g) as [[one g1]|] eqn:Hb; [|discriminate].
    destruct (ASC.replicate_docs _ _ _ _ texts L n g1) as [[more g2]|] eqn:Hr; [|discriminate].
    inversion H; subst. intros insts inst Hi Hinst. apply in_app_or in Hi as [Hi|Hi].
    + eapply asc_build_docs_from_mask; eauto.
    + eapply IH; eauto.
Qed.
End Insts.
End StopWords.

(** C7: in [SC] and [ASC] a successful [forward] leaves the info of every
    stop-word position of every built instance empty, salient or not; the
    salient positions come from the probe ([SC.mask_poses_d],
    [ASC.mask_poses_L]), which takes no stop-word predicate: the
    predicate is used only when the instances are built. *)
Theorem C7_stop_words_not_masked :
  (forall (RNG : Type) (rr : RNG -> Q * RNG) ri vocab is_stop classify tok_id max_seq_length rate
          threshold docs labels dupe g out g',
     SC.forward rr ri vocab is_stop classify tok_id max_seq_length rate threshold docs labels dupe g
       = Some (out, g') ->
     (exists d, SC.mask_poses_d classify tok_id max_seq_length rate threshold docs labels = PDone d /\
                SC.replicate_docs rr ri vocab is_stop docs d dupe g = Some (out, g')) /\
     forall insts inst i tok, In insts out -> In inst insts ->
       mti_tokens inst !! i = Some tok -> is_stop tok = true -> mti_info inst !! i = Some None) /\
  (forall (RNG : Type) (rr : RNG -> Q * RNG) ri vocab is_stop classify tok_id max_seq_length threshold
          docs dupe g out g',
     ASC.forward rr ri vocab is_stop classify tok_id max_seq_length threshold docs dupe g = Some (out, g') ->
     (exists L, ASC.mask_poses_L classify tok_id max_seq_length threshold docs = PDone L /\
                ASC.replicate_docs rr ri vocab is_stop (map fst docs) L dupe g = Some (out, g')) /\
     forall insts inst i tok, In insts out -> In inst insts ->
       mti_tokens inst !! i = Some tok -> is_stop tok = true -> mti_info inst !! i = Some None).
Proof.
  split.
  - intros RNG rr ri vocab is_stop classify tok_id m rate threshold docs labels dupe g out g' H.
    unfold SC.forward in H.
    destruct (SC.mask_poses_d classify tok_id m rate threshold docs labels) as [d| | |]; try discriminate.
    split; [eauto|]. intros insts inst i tok Hi Hinst Htok Hs.
    destruct (StopWords.sc_replicate_from_mask _ _ _ _ _ _ _ _ _ _ H _ _ Hi Hinst)
      as [poses [g0 [g1 Hm]]].
    eapply create_mask_with_skipped; eauto.
  - intros RNG rr ri vocab is_stop classify tok_id m threshold docs dupe g out g' H.
    unfold ASC.forward in H.
    destruct (ASC.mask_poses_L classify tok_id m threshold docs) as [L| | |]; try discriminate.
    split; [eauto|]. intros insts inst i tok Hi Hinst Htok Hs.
    destruct (StopWords.asc_replicate_from_mask _ _ _ _ _ _ _ _ _ _ H _ _ Hi Hinst)
      as [poses [g0 [g1 Hm]]].
    eapply create_mask_with_skipped; eauto.
Qed.

Lemma C7_witness :
  SC.forward ex_random ex_randint ["x"]%string ex_is_stop (ex_const_classifier [1%Q]) ex_tok_id 5 1 (1 # 10)
    [[["the"; "food"]%string]] [0] 1 [1 # 10; 1 # 10]
  = Some ([[{| mti_tokens := ["the"; "food"]%string;
               mti_info := [None; Some ("[MASK]", "food")%string] |}]], [1 # 10]) /\
  [None; Some ("[MASK]", "food")%string] !! 0 = Some None.
Proof.
  assert (H : SC.forward ex_random ex_randint ["x"]%string ex_is_stop (ex_const_classifier [1%Q]) ex_tok_id 5 1 (1 # 10)
    [[["the"; "food"]%string]] [0] 1 [1 # 10; 1 # 10]
    = Some ([[{| mti_tokens := ["the"; "food"]%string;
                 mti_info := [None; Some ("[MASK]", "food")%string] |}]], [1 # 10]))
    by (vm_compute; reflexivity).
  split; [exact H|].
  exact (proj2 (proj1 C7_stop_words_not_masked _ _ _ _ _ _ _ _ _ _ _ _ _ _ _ _ H)
           _ _ 0 "the"%string (or_introl eq_refl) (or_introl eq_refl) eq_refl eq_refl).
Defined.

(** The label lookups of lines 177 and 203 succeed exactly when every
    document with a sentence has a label. *)
Lemma labels_ok_spec (docs : list (list (list token))) labels :
  SC.labels_ok docs labels = true <->
  (forall k doc, docs !! k = Some doc -> doc <> [] -> k < length labels).
Proof.
  unfold SC.labels_ok. rewrite forallb_forall. split.
  - intros H k doc Hk Hne. specialize (H (k, doc)).
    assert (Hin : In (k, doc) (imap pair docs)).
    { apply list_elem_of_In, list_elem_of_lookup. exists k. by rewrite list_lookup_imap, Hk. }
    specialize (H Hin). simpl in H. destruct doc; [done|]. by apply Nat.ltb_lt.
  - intros H [k doc] Hin. apply SCProps.in_imap in Hin as [j [x [Hj He]]].
    inversion He; subst. simpl. destruct x as [|s0 x]; [done|].
    apply Nat.ltb_lt. eapply H; [exact Hj|discriminate].
Qed.

(** C9 as stated fails: a document with no sentence at all (an empty
    text) has no correctly classified sentence, yet
    [SC.forward] raises [IndexError]: [self.evaluate(sentences)] gets an
    empty batch and reads [preds[0]] (line 104). *)
Lemma C9_document_without_sentence_index_error :
  SC.mask_poses_d (ex_const_classifier [1%Q; 0%Q]) ex_tok_id 5 1 (1 # 10) [[]] [0] = PIndexError /\
  SC.forward ex_random ex_randint ["x"]%string ex_is_stop (ex_const_classifier [1%Q; 0%Q]) ex_tok_id 5 1
    (1 # 10) [[]] [0] 1 [1 # 10] = None.
Proof. split; vm_compute; reflexivity. Qed.

(** C9 (amended): a document none of whose sentences is classified
    correctly ([sen_doc_ids[i] == k] for its sentences [i]) has none of
    them among the retained sentences and none of them among the keys of
    [mask_poses_d].  When no sentence at all is classified correctly, the
    probe returns [{}] and [SC.forward] succeeds, provided the corpus has
    a sentence, [max_seq_length >= 2] and every document with a sentence
    has a label.  In [ASC] such a document keeps an empty [mask_poses_L]
    entry.  Every successful [SC.forward] returns, for each replica [r]
    and document [k], the list at index [r * doc_num + k] with one
    instance per sentence of the document, in order, whose info is all
    empty when the sentence has no salient position. *)
Theorem C9_unclassified_documents :
  (forall classify tok_id max_seq_length rate threshold docs labels k,
     (forall i, SC.sen_doc_ids docs !! i = Some k ->
        argmax (classify (nth i (SC.sentences docs) [])) <> nth k labels 0) ->
     (forall c, In c (SC.right_cands classify rate docs labels) ->
        SC.sen_doc_ids docs !! SC.c_pos c <> Some k) /\
     (forall d, SC.mask_poses_d classify tok_id max_seq_length rate threshold docs labels = PDone d ->
        forall i, SC.sen_doc_ids docs !! i = Some k -> d !! i = None)) /\
  (forall (RNG : Type) (rr : RNG -> Q * RNG) ri vocab is_stop classify tok_id max_seq_length rate
          threshold docs labels dupe g,
     (forall i k, SC.sen_doc_ids docs !! i = Some k ->
        argmax (classify (nth i (SC.sentences docs) [])) <> nth k labels 0) ->
     (2 <= max_seq_length)%Z ->
     SC.sentences docs <> [] ->
     (forall k doc, docs !! k = Some doc -> doc <> [] -> k < length labels) ->
     SC.mask_poses_d classify tok_id max_seq_length rate threshold docs labels = PDone ∅ /\
     exists out g', SC.forward rr ri vocab is_stop classify tok_id max_seq_length rate threshold docs
                      labels dupe g = Some (out, g')) /\
  (forall (RNG : Type) (rr : RNG -> Q * RNG) ri vocab is_stop classify tok_id max_seq_length rate
          threshold docs labels dupe g out g',
     SC.forward rr ri vocab is_stop classify tok_id max_seq_length rate threshold docs labels dupe g
       = Some (out, g') ->
     exists d, SC.mask_poses_d classify tok_id max_seq_length rate threshold docs labels = PDone d /\
       length out = dupe * length docs /\
       forall r k, r < dupe -> k < length docs ->
         exists insts, out !! (r * length docs + k) = Some insts /\
           map mti_tokens insts = nth k docs [] /\
           forall j inst, insts !! j = Some inst ->
             let i := sum_list (take k (map length docs)) + j in
             SC.sen_doc_ids docs !! i = Some k /\
             mti_tokens inst = nth i (SC.sentences docs) [] /\
             (d !! i = None -> mti_info inst = repeat None (length (mti_tokens inst)))) /\
  (forall classify tok_id max_seq_length threshold docs L k doc,
     docs !! k = Some doc ->
     (forall f l, In f doc.2 -> ASC.f_polarity f = Some l ->
        argmax (classify (ASC.f_aspect f) doc.1) <> l) ->
     ASC.mask_poses_L classify tok_id max_seq_length threshold docs = PDone L -> L !! k = Some ∅).
Proof.
  split; [|split; [|split]].
  - intros classify tok_id m rate threshold docs labels k Hk. split.
    + by apply SCUnclassified.unclassified_no_cand.
    + intros d Hd. by eapply SCUnclassified.unclassified_no_positions.
  - intros RNG rr ri vocab is_stop classify tok_id m rate threshold docs labels dupe g Hno Hm Hne Hl.
    apply labels_ok_spec in Hl.
    pose proof (sc_no_correct_sentence classify tok_id m rate threshold docs labels Hno Hm Hne Hl) as Hd.
    split; [done|]. by eapply SCOutput.forward_ok.
  - intros RNG rr ri vocab is_stop classify tok_id m rate threshold docs labels dupe g out g' H.
    by eapply SCOutput.forward_layout.
  - intros classify tok_id m threshold docs L k doc Hk Hno HL.
    by eapply ASCUnclassified.unclassified_empty.
Qed.

Lemma C9_witness :
  SC.mask_poses_d (ex_const_classifier [1%Q; 0%Q]) ex_tok_id 5 1 (1 # 10) [[["a"]]; [["b"]]]%string [1; 0]
    = PDone {[1 := [0]]} /\
  ({[1 := [0]]} : gmap nat (list nat)) !! 0 = None /\
  exists out g', SC.forward ex_random ex_randint ["x"]%string ex_is_stop (ex_const_classifier [1%Q; 0%Q])
                   ex_tok_id 5 1 (1 # 10) [[["a"]]]%string [1] 1 [1 # 10] = Some (out, g').
Proof.
  assert (H : SC.mask_poses_d (ex_const_classifier [1%Q; 0%Q]) ex_tok_id 5 1 (1 # 10)
                [[["a"]]; [["b"]]]%string [1; 0] = PDone {[1 := [0]]}) by (vm_compute; reflexivity).
  split; [exact H|]. split.
  - apply (proj2 (proj1 C9_unclassified_documents (ex_const_classifier [1%Q; 0%Q]) ex_tok_id 5%Z 1%Q (1 # 10)
                    [[["a"]]; [["b"]]]%string [1; 0] 0 ltac:(intros i Hi; vm_compute; discriminate))
             _ H 0).
    vm_compute. reflexivity.
  - apply (proj1 (proj2 C9_unclassified_documents) _ ex_random ex_randint ["x"]%string ex_is_stop
             (ex_const_classifier [1%Q; 0%Q]) ex_tok_id 5%Z 1%Q (1 # 10) [[["a"]]]%string [1] 1 [1 # 10]).
    + intros i k Hi. destruct i as [|i]; vm_compute in Hi; [|discriminate].
      injection Hi as <-. vm_compute. discriminate.
    + lia.
    + vm_compute. discriminate.
    + intros k doc Hk _. destruct k as [|k]; [simpl; lia|]. by rewrite lookup_cons_ne_0 in Hk.
Defined.

(** * Further properties of the code *)

(** ** [random.shuffle] *)
Module ShuffleFacts.

Lemma insert_swap_perm {A} (x : list A) j a y :
  x !! j = Some y -> y :: <[j := a]> x ≡ₚ a :: x.
Proof.
  revert j. induction x as [|b x IH]; intros [|j] H; simpl in *; try discriminate.
  - injection H as ->. apply perm_swap.
  - rewrite perm_swap. rewrite (IH _ H). apply perm_swap.
Qed.

Lemma py_swap_perm {A} (x : list A) i j x' : py_swap x i j = Some x' -> x' ≡ₚ x.
Proof.
  unfold py_swap. destruct (x !! j) as [xj|] eqn:Hj; [|discriminate].
  destruct (x !! i) as [xi|] eqn:Hi; [|discriminate].
  intros H. injection H as <-. revert i j Hi Hj.
  induction x as [|b x IH]; intros [|i] [|j] Hi Hj; simpl in *; try discriminate.
  - injection Hi as ->. injection Hj as ->. done.
  - injection Hi as ->. by apply insert_swap_perm.
  - injection Hj as ->. by apply insert_swap_perm.
  - constructor. by apply IH.
Qed.

Section Go.
Context {RNG A : Type}.
Variable randbelow : nat -> RNG -> nat * RNG.
(** [_randbelow(n)] returns a value in [[0, n)]. *)
Hypothesis randbelow_lt : forall n g, 0 < n -> (randbelow n g).1 < n.

Lemma shuffle_go_ok (idx : list nat) (x : list A) (g : RNG) :
  (forall i, In i idx -> i < length x) ->
  exists x' g', shuffle_go randbelow idx x g = Some (x', g') /\ x' ≡ₚ x.
Proof.
  revert x g. induction idx as [|i idx IH]; intros x g Hidx; simpl; [eauto|].
  destruct (randbelow (S i) g) as [j g1] eqn:E.
  assert (Hj : j < S i) by (pose proof (randbelow_lt (S i) g ltac:(lia)) as H; by rewrite E in H).
  assert (Hi : i < length x) by (apply Hidx; by left).
  destruct (lookup_lt_is_Some_2 x j) as [xj Hxj]; [lia|].
  destruct (lookup_lt_is_Some_2 x i) as [xi Hxi]; [lia|].
  assert (Hs : py_swap x i j = Some (<[j := xi]> (<[i := xj]> x))) by (unfold py_swap; by rewrite Hxj, Hxi).
  rewrite Hs. pose proof (py_swap_perm _ _ _ _ Hs) as Hp.
  destruct (IH (<[j := xi]> (<[i := xj]> x)) g1) as [x' [g' [Hgo Hp']]].
  { intros k Hk. rewrite (Permutation_length Hp). apply Hidx. by right. }
  exists x', g'. split; [done|]. by rewrite Hp'.
Qed.

Lemma py_shuffle_ok (x : list A) (g : RNG) :
  exists x' g', py_shuffle randbelow x g = Some (x', g') /\ x' ≡ₚ x.
Proof.
  apply shuffle_go_ok. intros i Hi. apply in_rev, in_seq in Hi. lia.
Qed.
End Go.
End ShuffleFacts.

(** Without a skip test and from the empty info, the positions that get
    an entry are exactly the listed ones. *)
Lemma create_mask_noskip_exact {RNG} rr ri vocab poses sen (g : RNG) :
  (forall pos, In pos poses -> pos < length sen) ->
  exists res g', create_mask_go rr ri vocab (fun _ => false) poses sen (repeat None (length sen)) g
                 = Some (res, g') /\
    length res = length sen /\
    forall i t, sen !! i = Some t ->
      (In i poses -> exists m, res !! i = Some (Some (m, t))) /\
      (~ In i poses -> res !! i = Some None).
Proof.
  intros Hin.
  destruct (create_mask_go_in_range rr ri vocab (fun _ => false) poses sen (repeat None (length sen)) g Hin)
    as [res [g' H]].
  exists res, g'. split; [done|]. split.
  { rewrite (create_mask_go_length _ _ _ _ _ _ _ _ _ _ H). apply repeat_length. }
  intros i t Ht. split.
  - intros Hi. destruct (create_mask_go_noskip _ _ _ _ _ _ _ _ _ i H (repeat_length _ _) (or_introl Hi))
      as [m [t' [Ht' Hr]]]. rewrite Ht in Ht'. injection Ht' as <-. eauto.
  - intros Hi. rewrite (create_mask_go_other _ _ _ _ _ _ _ _ _ _ _ H Hi).
    apply lookup_repeat_lt. by eapply lookup_lt_Some.
Qed.

Lemma in_firstn_l {A} (l : list A) k x : In x (firstn k l) -> In x l.
Proof. intros H. rewrite <- (firstn_skipn k l). apply in_or_app. by left. Qed.

Lemma NoDup_firstn_l {A} (l : list A) k : NoDup l -> NoDup (firstn k l).
Proof.
  intros H. rewrite <- (firstn_skipn k l) in H. by apply NoDup_app in H as [? _].
Qed.

(** ** [SC.create_reverse_mask] *)
Module ReverseMask.

Lemma in_complement (mask_poses : list nat) n i :
  In i (List.filter (fun i => negb (existsb (Nat.eqb i) mask_poses)) (seq 0 n)) <->
  i < n /\ ~ In i mask_poses.
Proof.
  rewrite filter_In, in_seq. split.
  - intros [Hi Hn]. split; [lia|]. intros Hin. apply negb_true_iff in Hn.
    assert (existsb (Nat.eqb i) mask_poses = true) by (apply existsb_exists; exists i; split; [done|apply Nat.eqb_refl]).
    congruence.
  - intros [Hi Hn]. split; [lia|]. apply negb_true_iff.
    destruct (existsb (Nat.eqb i) mask_poses) eqn:E; [|done].
    apply existsb_exists in E as [x [Hx Hx']]. apply Nat.eqb_eq in Hx'. subst. done.
Qed.

Lemma spec {RNG} rr ri vocab (randbelow : nat -> RNG -> nat * RNG) mask_rate mask_poses sen g :
  (forall n g, 0 < n -> (randbelow n g).1 < n) ->
  let comp := List.filter (fun i => negb (existsb (Nat.eqb i) mask_poses)) (seq 0 (length sen)) in
  exists info g' cand,
    SC.create_reverse_mask rr ri vocab randbelow mask_rate mask_poses sen g = Some (info, g') /\
    NoDup cand /\
    length cand = Nat.min (SC.top_count mask_rate (length sen)) (length comp) /\
    (forall i, In i cand -> i < length sen /\ ~ In i mask_poses) /\
    length info = length sen /\
    forall i t, sen !! i = Some t ->
      (In i cand -> exists m, info !! i = Some (Some (m, t))) /\
      (~ In i cand -> info !! i = Some None).
Proof.
  intros Hrb comp. unfold SC.create_reverse_mask. fold comp.
  destruct (ShuffleFacts.py_shuffle_ok randbelow Hrb comp g) as [sh [g1 [Hs Hp]]].
  rewrite Hs.
  set (cand := firstn (SC.top_count mask_rate (length sen)) sh).
  assert (Hc : forall i, In i cand -> i < length sen /\ ~ In i mask_poses).
  { intros i Hi. apply in_complement. fold comp. rewrite <- Hp. by apply in_firstn_l in Hi. }
  destruct (create_mask_noskip_exact rr ri vocab cand sen g1) as [res [g' [H [Hl Hx]]]].
  { intros i Hi. by apply Hc. }
  exists res, g', cand. split; [exact H|]. split.
  { apply NoDup_firstn_l. rewrite Hp. apply NoDup_ListNoDup, List.NoDup_filter, seq_NoDup. }
  split; [unfold cand; rewrite length_firstn, (Permutation_length Hp); lia|].
  auto.
Qed.
End ReverseMask.

(** ** [ModelGen]: features, predictions and selection *)
Module ModelGenFacts.
Import ModelGen.

(** The number of tokens kept by [convert_examples_to_features]. *)
Definition kept (max_seq_length : Z) (tokens : list token) : nat :=
  Nat.min (length tokens) (Z.to_nat max_seq_length - 2).

Lemma feature_eq tok_id m tokens :
  (2 <= m)%Z ->
  feature tok_id m tokens =
  (map tok_id (["[CLS]"%string] ++ firstn (kept m tokens) tokens ++ ["[SEP]"%string])
     ++ repeat 0%Z (Z.to_nat m - kept m tokens - 2),
   repeat 1%Z (kept m tokens + 2) ++ repeat 0%Z (Z.to_nat m - kept m tokens - 2)).
Proof.
  intros Hm. unfold feature. cbv zeta.
  assert (Ht : (if (m - 1 <=? Z.of_nat (length tokens))%Z then py_take (m - 2) tokens else tokens)
               = firstn (kept m tokens) tokens).
  { unfold py_take, kept. destruct (Z.leb_spec (m - 1) (Z.of_nat (length tokens))).
    - rewrite (proj2 (Z.leb_le 0 (m - 2))) by lia. f_equal. lia.
    - rewrite firstn_all2 by lia. done. }
  rewrite Ht.
  assert (E : length (map tok_id (["[CLS]"%string] ++ firstn (kept m tokens) tokens ++ ["[SEP]"%string]))
              = kept m tokens + 2).
  { rewrite length_map, !length_app, length_firstn. simpl. unfold kept. lia. }
  rewrite E.
  replace (Z.to_nat (m - Z.of_nat (kept m tokens + 2))) with (Z.to_nat m - kept m tokens - 2)
    by (unfold kept; lia).
  done.
Qed.

Lemma argmax_go_lt v i best bv : best < i -> argmax_go v i best bv < i + length v.
Proof.
  revert i best bv. induction v as [|x v IH]; intros i best bv Hb; simpl; [lia|].
  destruct (qlt bv x).
  - specialize (IH (S i) i x ltac:(lia)). lia.
  - specialize (IH (S i) best bv ltac:(lia)). lia.
Qed.

Lemma argmax_lt v : v <> [] -> argmax v < length v.
Proof.
  destruct v as [|x v]; [done|]. intros _. simpl.
  pose proof (argmax_go_lt v 1 0 x ltac:(lia)). lia.
Qed.

(** The prediction read off a logit row. *)
Definition row_pred (row : list Q) : nat * Q := (argmax row, nth (argmax row) row 0%Q).

Lemma token_preds_go_app js1 js2 r m l t1 t2 :
  token_preds_go js1 r m l = Some t1 -> token_preds_go js2 r m l = Some t2 ->
  token_preds_go (js1 ++ js2) r m l = Some (t1 ++ t2).
Proof.
  revert t1. induction js1 as [|j js1 IH]; intros t1 H1 H2; simpl in *.
  - by injection H1 as <-.
  - destruct (m !! j) as [mm|], (r !! j) as [rr|], (l !! j) as [ll|]; try discriminate.
    destruct (mm =? 1)%Z; [|by apply IH].
    destruct (ll !! rr) as [v|]; [|discriminate].
    destruct (token_preds_go js1 r m l) as [t|] eqn:E; [|discriminate].
    injection H1 as <-. by rewrite (IH t eq_refl H2).
Qed.

Lemma token_preds_go_ones js m (l : list (list Q)) :
  (forall j, In j js -> m !! j = Some 1%Z /\ exists row, l !! j = Some row /\ row <> []) ->
  token_preds_go js (map argmax l) m l = Some (map (fun j => row_pred (nth j l [])) js).
Proof.
  induction js as [|j js IH]; intros H; simpl; [done|].
  destruct (H j (or_introl eq_refl)) as [Hm [row [Hl Hne]]].
  rewrite Hm, list_lookup_fmap, Hl. simpl.
  destruct (lookup_lt_is_Some_2 row (argmax row) (argmax_lt row Hne)) as [v Hv].
  rewrite Hv, IH by (intros k Hk; apply H; by right).
  unfold row_pred. rewrite (nth_lookup_Some _ _ [] _ Hl), (nth_lookup_Some _ _ 0%Q _ Hv). done.
Qed.

Lemma token_preds_go_zeros js m (l : list (list Q)) :
  (forall j, In j js -> m !! j = Some 0%Z /\ j < length l) ->
  token_preds_go js (map argmax l) m l = Some [].
Proof.
  induction js as [|j js IH]; intros H; simpl; [done|].
  destruct (H j (or_introl eq_refl)) as [Hm Hl].
  destruct (lookup_lt_is_Some_2 l j Hl) as [row Hrow].
  rewrite Hm, list_lookup_fmap, Hrow. simpl. apply IH. intros k Hk. apply H. by right.
Qed.

Lemma lookup_repeat_app_l {A} (a b : A) n k j : j < n -> (repeat a n ++ repeat b k) !! j = Some a.
Proof.
  intros Hj. rewrite lookup_app_l by (rewrite repeat_length; lia). by apply lookup_repeat_lt.
Qed.

Lemma lookup_repeat_app_r {A} (a b : A) n k j : n <= j < n + k -> (repeat a n ++ repeat b k) !! j = Some b.
Proof.
  intros Hj. rewrite lookup_app_r by (rewrite repeat_length; lia).
  apply lookup_repeat_lt. rewrite repeat_length. lia.
Qed.

(** Lines 505-516 on the mask of a feature: one prediction per kept token. *)
Lemma token_preds_feature tok_id m tokens (l : list (list Q)) :
  (2 <= m)%Z -> length l = Z.to_nat m -> Forall (fun row => row <> []) l ->
  token_preds (map argmax l) (feature tok_id m tokens).2 l
  = Some (map (fun j => row_pred (nth j l [])) (seq 1 (kept m tokens))).
Proof.
  intros Hm Hl Hrows. rewrite feature_eq by done. simpl.
  set (k := kept m tokens).
  assert (Hk : k + 2 <= Z.to_nat m) by (unfold k, kept; lia).
  unfold token_preds.
  rewrite length_app, !repeat_length.
  replace (k + 2 + (Z.to_nat m - k - 2) - 1) with ((k + 1) + (Z.to_nat m - k - 2)) by lia.
  rewrite seq_app.
  rewrite (token_preds_go_app _ _ _ _ _ (map (fun j => row_pred (nth j l [])) (seq 1 (k + 1))) []).
  - rewrite app_nil_r. replace (k + 1) with (S k) by lia. rewrite seq_S, map_app. simpl.
    unfold py_pop. destruct (map _ (seq 1 k) ++ _) eqn:E; [by destruct (map _ (seq 1 k))|].
    rewrite <- E. by rewrite removelast_last.
  - apply token_preds_go_ones. intros j Hj. apply in_seq in Hj.
    split; [apply lookup_repeat_app_l; lia|].
    destruct (lookup_lt_is_Some_2 l j) as [row Hrow]; [lia|]. exists row. split; [done|].
    rewrite List.Forall_forall in Hrows. apply Hrows. apply list_elem_of_In, list_elem_of_lookup. eauto.
  - apply token_preds_go_zeros. intros j Hj. apply in_seq in Hj.
    split; [apply lookup_repeat_app_r; lia|lia].
Qed.

Lemma feature_length tok_id m tokens :
  (2 <= m)%Z ->
  length (feature tok_id m tokens).1 = Z.to_nat m /\ length (feature tok_id m tokens).2 = Z.to_nat m.
Proof.
  intros Hm. rewrite feature_eq by done. cbn [fst snd].
  rewrite !length_app, length_map, !length_app, !repeat_length, length_firstn. simpl.
  unfold kept. split; lia.
Qed.

(** The predictions of [evaluate] for one sentence, from the logits of
    its feature. *)
Definition sentence_preds tok_id m (model : list Z -> list Z -> list (list Q)) (tokens : list token)
    : list (nat * Q) :=
  let l := model (feature tok_id m tokens).1 (feature tok_id m tokens).2 in
  map (fun j => row_pred (nth j l [])) (seq 1 (kept m tokens)).

Lemma evaluate_eq tok_id m model data :
  (2 <= m)%Z ->
  (forall ids mask, length (model ids mask) = length ids /\ Forall (fun row => row <> []) (model ids mask)) ->
  evaluate tok_id m model data = Some (map (sentence_preds tok_id m model) data).
Proof.
  intros Hm Hmodel. unfold evaluate.
  assert (Hone : forall tokens,
    (let (input_ids, input_mask) := feature tok_id m tokens in
     token_preds (map argmax (model input_ids input_mask)) input_mask (model input_ids input_mask))
    = Some (sentence_preds tok_id m model tokens)).
  { intros tokens. destruct (feature tok_id m tokens) as [ids mask] eqn:E.
    destruct (Hmodel ids mask) as [Hl Hr].
    pose proof (feature_length tok_id m tokens Hm) as [Hl1 _]. rewrite E in Hl1. simpl in Hl1.
    pose proof (token_preds_feature tok_id m tokens (model ids mask) Hm ltac:(lia) Hr) as Ht.
    rewrite E in Ht. simpl in Ht. rewrite Ht. unfold sentence_preds. by rewrite E. }
  induction data as [|tokens data IH]; [done|].
  cbn [mapM]. rewrite Hone, IH. done.
Qed.

(** *** Selection of the positions to mask *)
Definition pscore_ge (a b : nat * Q) : Prop := (b.2 <= a.2)%Q.

Lemma mg_insert_desc_perm x l : insert_desc x l ≡ₚ x :: l.
Proof.
  induction l as [|y l IH]; simpl; [done|].
  destruct (qlt y.2 x.2); [done|].
  rewrite IH. by constructor.
Qed.

Lemma mg_sort_desc_perm l : sort_desc l ≡ₚ l.
Proof.
  unfold sort_desc.
  assert (H : forall acc, fold_left (fun acc x => insert_desc x acc) l acc ≡ₚ l ++ acc).
  { induction l as [|x l IH]; intros acc; simpl; [done|].
    rewrite IH, mg_insert_desc_perm. by rewrite Permutation_middle. }
  rewrite H. by rewrite app_nil_r.
Qed.

Lemma mg_insert_desc_sorted x l :
  StronglySorted pscore_ge l -> StronglySorted pscore_ge (insert_desc x l).
Proof.
  induction l as [|y l IH]; intros Hs; simpl.
  - repeat constructor.
  - apply StronglySorted_inv in Hs as [Hs Hy].
    destruct (qlt y.2 x.2) eqn:E.
    + apply SelectProps.qlt_true in E. constructor; [by constructor|].
      constructor; [unfold pscore_ge; by apply Qlt_le_weak|].
      eapply Forall_impl; [exact Hy|]. intros z Hz. unfold pscore_ge in *.
      eapply Qle_trans; [exact Hz|]. by apply Qlt_le_weak.
    + apply SelectProps.qlt_false in E. constructor; [by apply IH|].
      apply List.Forall_forall. intros z Hz.
      apply (Permutation_in _ (mg_insert_desc_perm x l)) in Hz as [<-|Hz]; [done|].
      rewrite List.Forall_forall in Hy. apply Hy. exact Hz.
Qed.

Lemma mg_sort_desc_sorted l : StronglySorted pscore_ge (sort_desc l).
Proof.
  unfold sort_desc.
  assert (H : forall acc, StronglySorted pscore_ge acc ->
            StronglySorted pscore_ge (fold_left (fun acc x => insert_desc x acc) l acc)).
  { induction l as [|x l IH]; intros acc Hacc; simpl; [done|].
    apply IH. by apply mg_insert_desc_sorted. }
  apply H. constructor.
Qed.

Lemma psorted_app_split (l1 l2 : list (nat * Q)) :
  StronglySorted pscore_ge (l1 ++ l2) -> forall x y, In x l1 -> In y l2 -> pscore_ge x y.
Proof.
  induction l1 as [|a l1 IH]; simpl; intros H; [done|].
  apply StronglySorted_inv in H as [H Ha].
  rewrite List.Forall_forall in Ha.
  intros x y [<-|Hx] Hy; [apply Ha, in_or_app; by right|auto].
Qed.

(** The label-1 entries of [enumerate(preds[i])] as [(pos, score)]. *)
Definition label1 (pp : nat * (nat * Q)) : list (nat * Q) :=
  if Nat.eqb pp.2.1 1 then [(pp.1, pp.2.2)] else [].

Lemma label1_shift (pred : list (nat * Q)) s :
  NoDup (map fst (flat_map label1 (imap (fun i x => (s + i, x)) pred))) /\
  (forall p, In p (map fst (flat_map label1 (imap (fun i x => (s + i, x)) pred))) -> s <= p) /\
  length (flat_map label1 (imap (fun i x => (s + i, x)) pred))
    = length (List.filter (fun x => Nat.eqb x.1 1) pred).
Proof.
  revert s. induction pred as [|[r v] pred IH]; intros s; [simpl; split; [constructor|done]|].
  rewrite imap_cons.
  assert (Himap : imap ((fun i (x : nat * Q) => (s + i, x)) ∘ S) pred = imap (fun i x => (S s + i, x)) pred)
    by (apply imap_ext; intros i x _; simpl; f_equal; lia).
  rewrite Himap. destruct (IH (S s)) as [Hn [Hge Hl]].
  assert (Hlab : label1 (s + 0, (r, v)) = if Nat.eqb r 1 then [(s, v)] else [])
    by (unfold label1; simpl; by rewrite Nat.add_0_r).
  cbn [flat_map List.filter]. rewrite Hlab. simpl fst.
  destruct (Nat.eqb r 1); cbn [app map length fst].
  - split; [|split].
    + constructor; [|done]. intros Hin. apply list_elem_of_In, Hge in Hin. lia.
    + intros p [<-|Hp]; [lia|]. apply Hge in Hp. lia.
    + by rewrite Hl.
  - split; [done|split; [|done]]. intros p Hp. apply Hge in Hp. lia.
Qed.

Lemma label1_in (pred : list (nat * Q)) p v :
  In (p, v) (flat_map label1 (imap pair pred)) <-> pred !! p = Some (1, v).
Proof.
  rewrite in_flat_map. split.
  - intros [pp [Hpp Hin]]. apply SCProps.in_imap in Hpp as [j [x [Hx ->]]].
    unfold label1 in Hin. simpl in Hin. destruct x as [r w]. simpl in Hin.
    destruct (Nat.eqb_spec r 1) as [->|]; [|done].
    destruct Hin as [Heq|[]]. injection Heq as -> ->. done.
  - intros H. exists (p, (1, v)). split; [|by left].
    apply list_elem_of_In, list_elem_of_lookup. exists p.
    rewrite list_lookup_imap, H. done.
Qed.

Lemma select_poses_spec rate (pred : list (nat * Q)) (sen : list token) :
  let sel := select_poses rate pred sen in
  NoDup sel /\
  length sel = Nat.min (max_mask_num rate (length sen)) (length (List.filter (fun x => Nat.eqb x.1 1) pred)) /\
  (forall p, In p sel -> exists v, pred !! p = Some (1, v)) /\
  (forall p q vp vq, In p sel -> pred !! p = Some (1, vp) -> pred !! q = Some (1, vq) ->
     ~ In q sel -> (vq <= vp)%Q).
Proof.
  intros sel. unfold sel, select_poses.
  change (flat_map (fun pp => if Nat.eqb pp.2.1 1 then [(pp.1, pp.2.2)] else []) (imap pair pred))
    with (flat_map label1 (imap pair pred)).
  set (mp := flat_map label1 (imap pair pred)).
  set (k := max_mask_num rate (length sen)).
  assert (Hmp : mp = flat_map label1 (imap (fun i x => (0 + i, x)) pred)) by (unfold mp; f_equal; by apply imap_ext).
  destruct (label1_shift pred 0) as [Hn [_ Hl]]. rewrite <- Hmp in Hn, Hl.
  pose proof (mg_sort_desc_perm mp) as Hp.
  assert (Hin : forall p v, In (p, v) (sort_desc mp) <-> pred !! p = Some (1, v)).
  { intros p v. rewrite <- label1_in. fold mp. split; apply Permutation_in; [done|by symmetry]. }
  split; [|split; [|split]].
  - rewrite <- (firstn_skipn k (sort_desc mp)) in Hp.
    apply (Permutation_map fst) in Hp. rewrite map_app in Hp.
    assert (H1 : List.NoDup (map fst (firstn k (sort_desc mp)) ++ map fst (skipn k (sort_desc mp))))
      by (apply (Permutation_NoDup (Permutation_sym Hp)); by apply NoDup_ListNoDup).
    apply NoDup_ListNoDup in H1. by apply NoDup_app in H1 as [? _].
  - rewrite length_map, length_firstn, (Permutation_length Hp), Hl. lia.
  - intros p Hpin. apply in_map_iff in Hpin as [[p' v] [<- Hx]]. simpl.
    exists v. apply Hin. by apply in_firstn_l in Hx.
  - intros p q vp vq Hpin Hvp Hvq Hq.
    apply in_map_iff in Hpin as [[p' vp'] [Hpp Hx]]. simpl in Hpp. subst p'.
    assert (Hvp' : pred !! p = Some (1, vp')) by (apply Hin; by apply in_firstn_l in Hx).
    rewrite Hvp in Hvp'. injection Hvp' as <-.
    assert (Hqs : In (q, vq) (skipn k (sort_desc mp))).
    { apply Hin in Hvq. rewrite <- (firstn_skipn k (sort_desc mp)) in Hvq.
      apply in_app_or in Hvq as [Hvq|Hvq]; [|done].
      exfalso. apply Hq. apply in_map_iff. by exists (q, vq). }
    pose proof (mg_sort_desc_sorted mp) as Hs.
    rewrite <- (firstn_skipn k (sort_desc mp)) in Hs.
    exact (psorted_app_split _ _ Hs _ _ Hx Hqs).
Qed.

Section Run.
Context {RNG : Type}.
Variable rr : RNG -> Q * RNG.
Variable ri : Z -> Z -> RNG -> Z * RNG.
Variable randbelow : nat -> RNG -> nat * RNG.
Variable vocab : list token.
Variable tok_id : token -> Z.
Variable m : Z.
Variable model : list Z -> list Z -> list (list Q).
Variable rate : Q.
Variable with_rand : bool.
Hypothesis randbelow_lt : forall n g, 0 < n -> (randbelow n g).1 < n.

Abbreviation sel sen := (select_poses rate (sentence_preds tok_id m model sen) sen).

(** What [forward] produces for one sentence. *)
Definition pair_ok (p : MaskedTokenInstance * option MaskedTokenInstance) : Prop :=
  let sen := mti_tokens p.1 in
  masks_exactly sen (sel sen) (mti_info p.1) /\
  (with_rand = false -> p.2 = None) /\
  (with_rand = true -> exists rinst cand, p.2 = Some rinst /\ mti_tokens rinst = sen /\
     NoDup cand /\ length cand = length (sel sen) /\ (forall i, In i cand -> i < length sen) /\
     masks_exactly sen cand (mti_info rinst)).

Lemma select_poses_in_range pred sen p :
  length pred <= length sen -> In p (select_poses rate pred sen) -> p < length sen.
Proof.
  intros Hl Hp. destruct (select_poses_spec rate pred sen) as [_ [_ [Hin _]]].
  destruct (Hin p Hp) as [v Hv]. apply lookup_lt_Some in Hv. lia.
Qed.

Lemma sentence_instances_spec pred sen (g : RNG) :
  length pred <= length sen ->
  exists inst rand g', sentence_instances rr ri randbelow vocab rate with_rand pred sen g
                       = Some ((inst, rand), g') /\
    mti_tokens inst = sen /\ masks_exactly sen (select_poses rate pred sen) (mti_info inst) /\
    (with_rand = false -> rand = None) /\
    (with_rand = true -> exists rinst cand, rand = Some rinst /\ mti_tokens rinst = sen /\
       NoDup cand /\ length cand = length (select_poses rate pred sen) /\
       (forall i, In i cand -> i < length sen) /\ masks_exactly sen cand (mti_info rinst)).
Proof.
  intros Hl. unfold sentence_instances, create_mask, create_mask_with.
  destruct (create_mask_noskip_exact rr ri vocab (select_poses rate pred sen) sen g)
    as [info [g1 [H1 Hx1]]].
  { intros p Hp. by eapply select_poses_in_range. }
  rewrite H1. destruct with_rand.
  - destruct (ShuffleFacts.py_shuffle_ok randbelow randbelow_lt (seq 0 (length sen)) g1)
      as [sh [g2 [Hs Hp]]].
    rewrite Hs.
    set (cand := firstn (length (select_poses rate pred sen)) sh).
    assert (Hc : forall i, In i cand -> i < length sen).
    { intros i Hi. apply in_firstn_l in Hi. rewrite Hp in Hi. apply in_seq in Hi. lia. }
    destruct (create_mask_noskip_exact rr ri vocab cand sen g2) as [rinfo [g3 [H3 Hx3]]]; [done|].
    rewrite H3. eexists _, _, _. split; [reflexivity|]. simpl.
    split; [done|]. split; [done|]. split; [done|]. intros _.
    exists {| mti_tokens := sen; mti_info := rinfo |}, cand. simpl.
    split; [done|]. split; [done|]. split.
    { apply NoDup_firstn_l. rewrite Hp. apply NoDup_ListNoDup, seq_NoDup. }
    split; [|done].
    unfold cand. rewrite length_firstn, (Permutation_length Hp), length_seq.
    destruct (select_poses_spec rate pred sen) as [Hnd [_ [Hin _]]].
    assert (Hle : length (select_poses rate pred sen) <= length (seq 0 (length sen))).
    { apply NoDup_incl_length; [by apply NoDup_ListNoDup|].
      intros p Hpp. apply in_seq. split; [lia|]. simpl. by eapply select_poses_in_range. }
    rewrite length_seq in Hle. lia.
  - eexists _, _, _. split; [reflexivity|]. simpl. split; [done|]. split; [done|].
    split; [done|]. done.
Qed.

Lemma sentence_preds_length sen : length (sentence_preds tok_id m model sen) <= length sen.
Proof. unfold sentence_preds, kept. rewrite length_map, length_seq. lia. Qed.

Lemma mg_build_doc_spec (sents : list (list token)) grp (g : RNG) :
  (forall i, In i grp -> i < length sents) ->
  exists out g', build_doc rr ri randbelow vocab rate with_rand sents
                   (map (sentence_preds tok_id m model) sents) grp g = Some (out, g') /\
    map (fun p => mti_tokens p.1) out = map (fun i => nth i sents []) grp /\
    Forall pair_ok out.
Proof.
  revert g. induction grp as [|i grp IH]; intros g Hgrp; simpl; [eauto|].
  assert (Hi : i < length sents) by (apply Hgrp; by left).
  rewrite (nth_indep _ [] (sentence_preds tok_id m model [])) by (rewrite length_map; lia).
  rewrite map_nth.
  destruct (sentence_instances_spec (sentence_preds tok_id m model (nth i sents [])) (nth i sents []) g
              (sentence_preds_length _)) as [inst [rand [g1 [Hs [Ht [Hx [Hf Htr]]]]]]].
  rewrite Hs.
  destruct (IH g1) as [out [g2 [Hb [Hm Hok]]]]; [intros j Hj; apply Hgrp; by right|].
  rewrite Hb. eexists _, _. split; [reflexivity|]. simpl. rewrite Ht, Hm. split; [done|].
  constructor; [|done]. unfold pair_ok. simpl. rewrite Ht. auto.
Qed.

Lemma mg_build_docs_spec (sents : list (list token)) ns s k (g : RNG) :
  s + sum_list ns <= length sents ->
  exists out g', build_docs rr ri randbelow vocab rate with_rand sents
                   (map (sentence_preds tok_id m model) sents) k (length ns) (doc_pairs ns s k) g
                 = Some (out, g') /\
    length out = length ns /\
    (forall j, j < length ns ->
       map (fun p => mti_tokens p.1) (nth j out []) =
       map (fun i => nth i sents []) (seq (s + sum_list (take j ns)) (nth j ns 0))) /\
    Forall (Forall pair_ok) out.
Proof.
  revert s k g. induction ns as [|n ns IH]; intros s k g Hs.
  - simpl. eexists _, _. split; [reflexivity|]. simpl. split; [done|]. split; [lia|constructor].
  - cbn [length build_docs]. rewrite SCLayout.span_doc_pairs.
    destruct (mg_build_doc_spec sents (seq s n) g) as [doc [g1 [Hd [Hdm Hdok]]]].
    { intros i Hi. apply in_seq in Hi. simpl in Hs. lia. }
    rewrite Hd.
    destruct (IH (s + n) (S k) g1) as [docs [g2 [Hr [Hl [Hj Hok]]]]]; [simpl in Hs; lia|].
    rewrite Hr. eexists _, _. split; [reflexivity|]. split; [simpl; lia|]. split.
    + intros [|j] Hjl; simpl.
      * by rewrite Nat.add_0_r.
      * rewrite Nat.add_assoc. apply Hj. simpl in Hjl. lia.
    + by constructor.
Qed.

Lemma sum_list_lengths (docs : list (list (list token))) :
  sum_list (map length docs) = length (SC.sentences docs).
Proof.
  unfold SC.sentences. induction docs as [|doc docs IH]; simpl; [done|].
  by rewrite length_app, IH.
Qed.

Lemma mg_replicate_docs_spec (docs : list (list (list token))) dupe (g : RNG) :
  exists out g', replicate_docs rr ri randbelow vocab rate with_rand docs
                   (map (sentence_preds tok_id m model) (SC.sentences docs)) dupe g = Some (out, g') /\
    length out = dupe * length docs /\
    (forall r k, r < dupe -> k < length docs ->
       map (fun p => mti_tokens p.1) (nth (r * length docs + k) out []) = nth k docs []) /\
    Forall (Forall pair_ok) out.
Proof.
  revert g. induction dupe as [|n IH]; intros g; simpl.
  - eexists _, _. split; [reflexivity|]. split; [done|]. split; [lia|constructor].
  - rewrite SCLayout.sen_pairs.
    destruct (mg_build_docs_spec (SC.sentences docs) (map length docs) 0 0 g) as
      [one [g1 [Hb [Hl [Hj Hok]]]]].
    { rewrite sum_list_lengths. lia. }
    rewrite length_map in Hb, Hl, Hj. rewrite Hb.
    destruct (IH g1) as [more [g2 [Hr [Hl' [Hj' Hok']]]]]. rewrite Hr.
    eexists _, _. split; [reflexivity|]. split; [rewrite length_app; lia|]. split.
    + intros [|r] k Hr' Hk.
      * simpl. rewrite app_nth1 by lia. rewrite Hj by done.
        by apply SCBuild.doc_sentences.
      * rewrite app_nth2 by (simpl; lia).
        replace (S r * length docs + k - length one) with (r * length docs + k) by (simpl; lia).
        apply Hj'; lia.
    + by apply Forall_app.
Qed.
End Run.
End ModelGenFacts.

(** ** Feature conversion of [SC] and [ASC]: when the asserts fail *)
Module FeatureFacts.

Lemma check_lengths_uniform m f n :
  length (input_ids f) = n -> length (input_mask f) = n -> length (segment_ids f) = n ->
  (check_lengths m f = None <-> Z.of_nat n <> m).
Proof.
  intros H1 H2 H3. unfold check_lengths. rewrite H1, H2, H3.
  destruct (Z.eqb_spec (Z.of_nat n) m); simpl; split; congruence.
Qed.

Lemma padded_ne L m : Z.of_nat (L + Z.to_nat (m - Z.of_nat L)) <> m <-> (m < Z.of_nat L)%Z.
Proof. lia. Qed.

Lemma sc_feature_none tok_id m tokens_a :
  sc_feature tok_id m tokens_a = None <->
  (m < Z.of_nat (Nat.min (length tokens_a) (Z.to_nat m - 2) + 2))%Z.
Proof.
  unfold sc_feature. cbv zeta.
  set (ta := if (m - 2 <? Z.of_nat (length tokens_a))%Z then py_take (m - 2) tokens_a else tokens_a).
  set (L := length ta + 2).
  rewrite (check_lengths_uniform _ _ (L + Z.to_nat (m - Z.of_nat L))); cbn [input_ids input_mask segment_ids];
    unfold py_repeat; rewrite ?length_app, ?length_map, ?repeat_length, ?length_app; simpl;
    rewrite ?length_app; simpl; try (unfold L; lia).
  rewrite padded_ne. unfold L, ta, py_take.
  destruct (Z.ltb_spec (m - 2) (Z.of_nat (length tokens_a))) as [Hlt|Hge].
  - destruct (Z.leb_spec 0 (m - 2)); rewrite length_firstn; lia.
  - lia.
Qed.

Lemma asc_feature_none tok_id m text aspect :
  asc_feature tok_id m text aspect = None <->
  (m < Z.of_nat (length aspect + Nat.min (length text) (Z.to_nat m - 2) + 3))%Z.
Proof.
  unfold asc_feature. cbv zeta.
  set (tb := if (m - 2 <? Z.of_nat (length text))%Z then py_take (m - 2) text else text).
  set (L := length aspect + length tb + 3).
  rewrite (check_lengths_uniform _ _ (L + Z.to_nat (m - Z.of_nat L))); cbn [input_ids input_mask segment_ids];
    unfold py_repeat; rewrite ?length_app, ?length_map, ?repeat_length, ?length_app; simpl;
    rewrite ?length_app; simpl; try (unfold L; lia).
  rewrite padded_ne. unfold L, tb, py_take.
  destruct (Z.ltb_spec (m - 2) (Z.of_nat (length text))) as [Hlt|Hge].
  - destruct (Z.leb_spec 0 (m - 2)); rewrite length_firstn; lia.
  - lia.
Qed.
End FeatureFacts.

(** With [max_seq_length < 2], [SC.evaluate] fails on any batch with a
    sentence: its feature conversion asserts. *)
Lemma sc_evaluate_small classify tok_id m data :
  (m < 2)%Z -> data <> [] -> SC.evaluate classify tok_id m data = PAssertionError.
Proof.
  intros Hm Hne. unfold SC.evaluate, sc_convert_examples_to_features.
  destruct data as [|a data]; [done|].
  rewrite mapM_None_2; [reflexivity|]. apply List.Exists_cons_hd.
  apply FeatureFacts.sc_feature_none. lia.
Qed.

(** ** The documents built by [ASC.forward] *)
Module ASCBuild.

Lemma mask_poses_L_length classify tok_id m threshold docs L :
  ASC.mask_poses_L classify tok_id m threshold docs = PDone L -> length L = length docs.
Proof.
  intros H%asc_mask_poses_probe. revert H. set (rs := ASC.right_sens classify docs).
  apply (probe_inv _ _ _ _ _ _ (fun _ => True) (fun L => length L = length docs)).
  - intros it r L0 _ HL _. unfold ASC.record. by rewrite length_alter.
  - done.
  - apply repeat_length.
Qed.

Section Build.
Context {RNG : Type}.
Variable rr : RNG -> Q * RNG.
Variable ri : Z -> Z -> RNG -> Z * RNG.
Variable vocab : list token.
Variable is_stop : token -> bool.

(** One document's instance: its text, with no entry outside its set. *)
Definition doc_inst_ok (t : list token) (s : gset nat) (inst : MaskedTokenInstance) : Prop :=
  mti_tokens inst = t /\ length (mti_info inst) = length t /\
  forall i, i < length t -> i ∉ s -> mti_info inst !! i = Some None.

Lemma asc_build_docs_spec texts L (g : RNG) :
  length L = length texts -> asc_positions_ok texts L ->
  exists out g', ASC.build_docs rr ri vocab is_stop texts L g = Some (out, g') /\
    length out = length texts /\
    forall k t s, texts !! k = Some t -> L !! k = Some s ->
      exists inst, out !! k = Some [inst] /\ doc_inst_ok t s inst.
Proof.
  revert L g. induction texts as [|t texts IH]; intros L g Hl Hok.
  - simpl. eexists _, _. split; [reflexivity|]. split; [done|]. intros k t s Ht. done.
  - destruct L as [|s L]; [done|]. simpl in Hl.
    assert (Hin : forall pos, In pos (elements s) -> pos < length t).
    { intros pos Hpos. apply (Hok 0 s pos); [done|].
      by apply elem_of_elements, list_elem_of_In. }
    destruct (create_mask_go_in_range rr ri vocab is_stop (elements s) t (repeat None (length t)) g Hin)
      as [info [g1 Hm]].
    assert (Hok' : asc_positions_ok texts L) by (intros doc s' pos Hs Hpos; exact (Hok (S doc) s' pos Hs Hpos)).
    destruct (IH L g1 ltac:(lia) Hok') as [rest [g2 [Hb [Hlr Hk]]]].
    simpl. unfold ASC.create_mask, create_mask_with. rewrite Hm, Hb.
    eexists _, _. split; [reflexivity|]. split; [simpl; lia|].
    intros [|k] t' s' Ht Hs; simpl in *.
    + injection Ht as <-. injection Hs as <-.
      eexists. split; [reflexivity|]. split; [done|]. split.
      { simpl. rewrite (create_mask_go_length _ _ _ _ _ _ _ _ _ _ Hm). apply repeat_length. }
      intros i Hi Hni. simpl.
      apply (create_mask_with_other rr ri vocab is_stop (elements s) t g info g1); [exact Hm|done|].
      intros Hie. apply Hni. by apply elem_of_elements, list_elem_of_In.
    + by apply Hk.
Qed.

Lemma asc_replicate_docs_spec texts L dupe (g : RNG) :
  length L = length texts -> asc_positions_ok texts L ->
  exists out g', ASC.replicate_docs rr ri vocab is_stop texts L dupe g = Some (out, g') /\
    length out = dupe * length texts /\
    forall r k t s, r < dupe -> texts !! k = Some t -> L !! k = Some s ->
      exists inst, out !! (r * length texts + k) = Some [inst] /\ doc_inst_ok t s inst.
Proof.
  intros Hl Hok. revert g. induction dupe as [|n IH]; intros g; simpl.
  - eexists _, _. split; [reflexivity|]. split; [done|]. intros r. lia.
  - destruct (asc_build_docs_spec texts L g Hl Hok) as [one [g1 [Hb [Hlo Hk]]]]. rewrite Hb.
    destruct (IH g1) as [more [g2 [Hr [Hlm Hk']]]]. rewrite Hr.
    eexists _, _. split; [reflexivity|]. split; [rewrite length_app; lia|].
    intros [|r] k t s Hrd Ht Hs.
    + rewrite lookup_app_l by (apply lookup_lt_Some in Ht; lia). simpl. by apply Hk.
    + rewrite lookup_app_r by (simpl; lia).
      replace (S r * length texts + k - length one) with (r * length texts + k) by (simpl; lia).
      apply Hk'; [lia|done|done].
Qed.
End Build.
End ASCBuild.

(** ** The documents built by [ModelGen.forward] *)
Module ModelGenRun.
Import ModelGenFacts.

Lemma rand_docs_tokens tok_id m model rate (d : list (MaskedTokenInstance * option MaskedTokenInstance)) :
  Forall (pair_ok tok_id m model rate true) d ->
  map mti_tokens (flat_map (fun p => match p.2 with Some x => [x] | None => [] end) d)
    = map mti_tokens (map fst d) /\
  forall inst, In inst (flat_map (fun p => match p.2 with Some x => [x] | None => [] end) d) ->
    exists p, In p d /\ p.2 = Some inst.
Proof.
  induction d as [|p d IH]; intros Hok; simpl; [split; [done|intros ? []]|].
  apply List.Forall_cons_iff in Hok as [[_ [_ Hr]] Hok].
  destruct (Hr eq_refl) as [rinst [cand [Hp [Ht _]]]].
  destruct (IH Hok) as [Hm Hin]. rewrite Hp. simpl. split; [by rewrite Ht, Hm|].
  intros inst [<-|Hi]; [by exists p; auto|].
  destruct (Hin inst Hi) as [p' [Hp' Hs]]. exists p'. auto.
Qed.

Lemma forward_spec {RNG} rr ri (randbelow : nat -> RNG -> nat * RNG) vocab tok_id m model rate
    with_rand docs dupe (g : RNG) :
  (2 <= m)%Z ->
  (forall ids mask, length (model ids mask) = length ids /\ Forall (fun row => row <> []) (model ids mask)) ->
  (forall n g, 0 < n -> (randbelow n g).1 < n) ->
  exists all rand g',
    ModelGen.forward rr ri randbelow vocab tok_id m model rate with_rand docs dupe g
      = Some ((all, rand), g') /\
    length all = dupe * length docs /\
    (forall r k, r < dupe -> k < length docs ->
       map mti_tokens (nth (r * length docs + k) all []) = nth k docs []) /\
    (forall doc inst, In doc all -> In inst doc ->
       masks_exactly (mti_tokens inst)
         (ModelGen.select_poses rate (sentence_preds tok_id m model (mti_tokens inst)) (mti_tokens inst))
         (mti_info inst)) /\
    (with_rand = false -> rand = None) /\
    (with_rand = true -> exists rd, rand = Some rd /\
       map (map mti_tokens) rd = map (map mti_tokens) all /\
       forall doc inst, In doc rd -> In inst doc -> exists cand,
         NoDup cand /\
         length cand = length (ModelGen.select_poses rate (sentence_preds tok_id m model (mti_tokens inst))
                                 (mti_tokens inst)) /\
         (forall i, In i cand -> i < length (mti_tokens inst)) /\
         masks_exactly (mti_tokens inst) cand (mti_info inst)).
Proof.
  intros Hm Hmodel Hrb. unfold ModelGen.forward. rewrite evaluate_eq by done.
  destruct (mg_replicate_docs_spec rr ri randbelow vocab tok_id m model rate with_rand Hrb docs dupe g)
    as [out [g1 [Hr [Hl [Ht Hok]]]]].
  rewrite Hr. eexists _, _, _. split; [reflexivity|].
  assert (Hn : forall i, nth i (map (map fst) out) [] = map fst (nth i out []))
    by (intros i; exact (map_nth (map fst) out [] i)).
  split; [by rewrite length_map|]. split.
  { intros r k Hr' Hk. rewrite Hn, map_map. by apply Ht. }
  split.
  { intros doc inst Hdoc Hinst. apply in_map_iff in Hdoc as [d [<- Hd]].
    apply in_map_iff in Hinst as [p [<- Hp]].
    rewrite List.Forall_forall in Hok. specialize (Hok d Hd). rewrite List.Forall_forall in Hok.
    apply (Hok p Hp). }
  split; [by intros ->|].
  intros Hw. subst with_rand. eexists. split; [reflexivity|]. split.
  - rewrite !map_map. apply map_ext_in. intros d Hd.
    rewrite List.Forall_forall in Hok. by apply (proj1 (rand_docs_tokens _ _ _ _ d (Hok d Hd))).
  - intros doc inst Hdoc Hinst. apply in_map_iff in Hdoc as [d [<- Hd]].
    rewrite List.Forall_forall in Hok. specialize (Hok d Hd).
    destruct (rand_docs_tokens _ _ _ _ d Hok) as [_ Hin].
    destruct (Hin inst Hinst) as [p [Hp Hs]].
    rewrite List.Forall_forall in Hok. destruct (Hok p Hp) as [_ [_ Hr2]].
    destruct (Hr2 eq_refl) as [rinst [cand [Hp2 [Htok [Hnd [Hlc [Hrange Hx]]]]]]].
    rewrite Hs in Hp2. injection Hp2 as <-. rewrite Htok. exists cand. auto.
Qed.
End ModelGenRun.

(** * Further properties, stated *)

(** X1: [rng.shuffle] (CPython's [random.shuffle], called by
    [SC.create_reverse_mask] and [ModelGen.forward]) never raises and
    returns a permutation of its input, as long as [_randbelow(n)]
    returns a value below [n]. *)
Theorem X1_py_shuffle_perm {RNG A} (randbelow : nat -> RNG -> nat * RNG) (x : list A) (g : RNG) :
  (forall n g, 0 < n -> (randbelow n g).1 < n) ->
  exists x' g', py_shuffle randbelow x g = Some (x', g') /\ x' ≡ₚ x.
Proof. intros Hrb. by apply ShuffleFacts.py_shuffle_ok. Qed.

Lemma X1_witness :
  (forall n g, 0 < n -> (ex_randbelow n g).1 < n) /\
  py_shuffle ex_randbelow [0; 1; 2; 3] [0; 0; 0; 0; 0]%Q = Some ([0; 2; 3; 1], [0; 0]%Q) /\
  exists x' g', py_shuffle ex_randbelow [0; 1; 2; 3] [0; 0; 0; 0; 0]%Q = Some (x', g') /\
    x' ≡ₚ [0; 1; 2; 3].
Proof.
  assert (Hrb : forall n g, 0 < n -> (ex_randbelow n g).1 < n)
    by (intros n g Hn; simpl; apply Nat.mod_upper_bound; lia).
  split; [exact Hrb|]. split; [vm_compute; reflexivity|].
  exact (X1_py_shuffle_perm ex_randbelow [0; 1; 2; 3] [0; 0; 0; 0; 0]%Q Hrb).
Defined.

(** X2: [SC.create_reverse_mask] always succeeds (given a valid
    [_randbelow]).  The positions it masks are distinct positions of the
    sentence outside [mask_poses]; there are
    [min(max(1, int(mask_rate * len(sen))), #positions outside mask_poses)]
    of them; each gets an entry labelled with its token and every other
    position keeps the empty entry.  No stop-word test is applied. *)
Theorem X2_create_reverse_mask {RNG} rr ri vocab (randbelow : nat -> RNG -> nat * RNG) mask_rate
    mask_poses sen g :
  (forall n g, 0 < n -> (randbelow n g).1 < n) ->
  exists info g' cand,
    SC.create_reverse_mask rr ri vocab randbelow mask_rate mask_poses sen g = Some (info, g') /\
    NoDup cand /\
    length cand = Nat.min (SC.top_count mask_rate (length sen))
      (length (List.filter (fun i => negb (existsb (Nat.eqb i) mask_poses)) (seq 0 (length sen)))) /\
    (forall i, In i cand -> i < length sen /\ ~ In i mask_poses) /\
    masks_exactly sen cand info.
Proof.
  intros Hrb.
  destruct (ReverseMask.spec rr ri vocab randbelow mask_rate mask_poses sen g Hrb)
    as [info [g' [cand [H [Hnd [Hl [Hin [Hli Hx]]]]]]]].
  exists info, g', cand. do 4 (split; [assumption|]). split; [exact Hli|exact Hx].
Qed.

Lemma X2_witness :
  (forall n g, 0 < n -> (ex_randbelow n g).1 < n) /\
  SC.create_reverse_mask ex_random ex_randint ["x"]%string ex_randbelow (1 # 2) [1]
    ["a"; "b"; "c"; "d"]%string [1 # 10; 9 # 10; 3 # 10; 3 # 10; 3 # 10]
  = Some ([Some ("[MASK]", "a"); None; Some ("[MASK]", "c"); None]%string, [3 # 10]) /\
  exists info g' cand,
    SC.create_reverse_mask ex_random ex_randint ["x"]%string ex_randbelow (1 # 2) [1]
      ["a"; "b"; "c"; "d"]%string [1 # 10; 9 # 10; 3 # 10; 3 # 10; 3 # 10] = Some (info, g') /\
    NoDup cand /\
    length cand = Nat.min (SC.top_count (1 # 2) 4)
      (length (List.filter (fun i => negb (existsb (Nat.eqb i) [1])) (seq 0 4))) /\
    (forall i, In i cand -> i < 4 /\ ~ In i [1]) /\
    masks_exactly ["a"; "b"; "c"; "d"]%string cand info.
Proof.
  assert (Hrb : forall n g, 0 < n -> (ex_randbelow n g).1 < n)
    by (intros n g Hn; simpl; apply Nat.mod_upper_bound; lia).
  split; [exact Hrb|]. split; [vm_compute; reflexivity|].
  exact (X2_create_reverse_mask ex_random ex_randint ["x"]%string ex_randbelow (1 # 2) [1]
           ["a"; "b"; "c"; "d"]%string [1 # 10; 9 # 10; 3 # 10; 3 # 10; 3 # 10] Hrb).
Defined.

(** X3: the asserts of [SC.convert_examples_to_features] fail exactly
    when [max_seq_length < 2]; otherwise every example gives a feature. *)
Theorem X3_sc_feature_fails tok_id max_seq_length tokens_a :
  sc_feature tok_id max_seq_length tokens_a = None <-> (max_seq_length < 2)%Z.
Proof. rewrite FeatureFacts.sc_feature_none. lia. Qed.

(** X4: the first assert of [ASC.convert_examples_to_features] fails
    exactly when the aspect, the text cut to [max_seq_length - 2] tokens
    and the three special tokens do not fit in [max_seq_length]. *)
Theorem X4_asc_feature_fails tok_id max_seq_length text aspect :
  asc_feature tok_id max_seq_length text aspect = None <->
  (max_seq_length < Z.of_nat (length aspect + Nat.min (length text) (Z.to_nat max_seq_length - 2) + 3))%Z.
Proof. apply FeatureFacts.asc_feature_none. Qed.

(** X5: for [max_seq_length >= 2], [ModelGen.convert_examples_to_features]
    keeps the first [k = min(len(tokens), max_seq_length - 2)] tokens:
    [input_ids] are the ids of [[CLS]], those tokens and [[SEP]] padded
    with zeros, [input_mask] is [k + 2] ones then zeros, both of length
    [max_seq_length]. *)
Theorem X5_modelgen_feature tok_id max_seq_length tokens :
  (2 <= max_seq_length)%Z ->
  let k := Nat.min (length tokens) (Z.to_nat max_seq_length - 2) in
  ModelGen.feature tok_id max_seq_length tokens =
  (map tok_id (["[CLS]"%string] ++ firstn k tokens ++ ["[SEP]"%string])
     ++ repeat 0%Z (Z.to_nat max_seq_length - k - 2),
   repeat 1%Z (k + 2) ++ repeat 0%Z (Z.to_nat max_seq_length - k - 2)) /\
  length (ModelGen.feature tok_id max_seq_length tokens).1 = Z.to_nat max_seq_length /\
  length (ModelGen.feature tok_id max_seq_length tokens).2 = Z.to_nat max_seq_length.
Proof.
  intros Hm k. split; [exact (ModelGenFacts.feature_eq tok_id max_seq_length tokens Hm)|].
  apply ModelGenFacts.feature_length, Hm.
Qed.

Lemma X5_witness :
  (2 <= 5)%Z /\
  ModelGen.feature ex_tok_id 5 ["very"; "good"; "food"; "here"]%string
    = ([3; 3; 9; 3; 3]%Z, [1; 1; 1; 1; 1]%Z) /\
  ModelGen.feature ex_tok_id 5 ["very"; "good"; "food"; "here"]%string =
  (map ex_tok_id (["[CLS]"%string] ++ firstn 3 ["very"; "good"; "food"; "here"]%string ++ ["[SEP]"%string])
     ++ repeat 0%Z (5 - 3 - 2),
   repeat 1%Z (3 + 2) ++ repeat 0%Z (5 - 3 - 2)) /\
  length (ModelGen.feature ex_tok_id 5 ["very"; "good"; "food"; "here"]%string).1 = 5 /\
  length (ModelGen.feature ex_tok_id 5 ["very"; "good"; "food"; "here"]%string).2 = 5.
Proof.
  split; [lia|]. split; [vm_compute; reflexivity|].
  exact (X5_modelgen_feature ex_tok_id 5 ["very"; "good"; "food"; "here"]%string ltac:(lia)).
Defined.

(** X6: for [max_seq_length >= 2] and a model giving one non-empty row
    of logits per position, [ModelGen.evaluate] succeeds (the [t.pop()]
    never meets an empty list) and gives, for each sentence, one
    prediction per kept token [j = 1 .. k]: the label [argmax] of row [j]
    and that row's logit at the label; [[CLS]], [[SEP]] and padding get
    none. *)
Theorem X6_modelgen_evaluate tok_id max_seq_length model data :
  (2 <= max_seq_length)%Z ->
  (forall ids mask, length (model ids mask) = length ids /\ Forall (fun row => row <> []) (model ids mask)) ->
  ModelGen.evaluate tok_id max_seq_length model data =
  Some (map (fun tokens =>
         let l := model (ModelGen.feature tok_id max_seq_length tokens).1
                        (ModelGen.feature tok_id max_seq_length tokens).2 in
         map (fun j => (argmax (nth j l []), nth (argmax (nth j l [])) (nth j l []) 0%Q))
             (seq 1 (Nat.min (length tokens) (Z.to_nat max_seq_length - 2)))) data).
Proof. intros Hm Hmodel. exact (ModelGenFacts.evaluate_eq tok_id max_seq_length model data Hm Hmodel). Qed.

Lemma X6_witness :
  (2 <= 5)%Z /\
  (forall ids mask, length (ex_model ids mask) = length ids /\
     Forall (fun row => row <> []) (ex_model ids mask)) /\
  ModelGen.evaluate ex_tok_id 5 ex_model [["very"; "good"; "food"; "here"]; ["good"]]%string
    = Some [[(0, 9 # 10); (1, 9%Q); (0, 9 # 10)]; [(1, 9%Q)]] /\
  ModelGen.evaluate ex_tok_id 5 ex_model [["very"; "good"; "food"; "here"]; ["good"]]%string =
  Some (map (fun tokens =>
         let l := ex_model (ModelGen.feature ex_tok_id 5 tokens).1 (ModelGen.feature ex_tok_id 5 tokens).2 in
         map (fun j => (argmax (nth j l []), nth (argmax (nth j l [])) (nth j l []) 0%Q))
             (seq 1 (Nat.min (length tokens) (Z.to_nat 5 - 2))))
        [["very"; "good"; "food"; "here"]; ["good"]]%string).
Proof.
  assert (Hmodel : forall ids mask, length (ex_model ids mask) = length ids /\
            Forall (fun row => row <> []) (ex_model ids mask)).
  { intros ids mask. unfold ex_model. split; [apply length_map|].
    apply List.Forall_forall. intros r Hr. apply in_map_iff in Hr as [i [<- _]].
    by destruct (5 <? i)%Z. }
  split; [lia|]. split; [exact Hmodel|]. split; [vm_compute; reflexivity|].
  exact (X6_modelgen_evaluate ex_tok_id 5 ex_model _ ltac:(lia) Hmodel).
Defined.

(** X7: the positions [ModelGen.forward] picks for a sentence (lines
    547-550) are distinct positions predicted as label 1; there are
    [min(int(max(1, mask_rate * len(sen))), #label-1 predictions)] of
    them, and none of the label-1 positions left out has a higher score
    than a picked one. *)
Theorem X7_modelgen_select_poses mask_rate (pred : list (nat * Q)) (sen : list token) :
  let sel := ModelGen.select_poses mask_rate pred sen in
  NoDup sel /\
  length sel = Nat.min (ModelGen.max_mask_num mask_rate (length sen))
                 (length (List.filter (fun x => Nat.eqb x.1 1) pred)) /\
  (forall p, In p sel -> exists v, pred !! p = Some (1, v)) /\
  (forall p q vp vq, In p sel -> pred !! p = Some (1, vp) -> pred !! q = Some (1, vq) ->
     ~ In q sel -> (vq <= vp)%Q).
Proof. apply ModelGenFacts.select_poses_spec. Qed.

(** X8: for [max_seq_length >= 2], a model giving one non-empty row of
    logits per position and a valid [_randbelow], [ModelGen.forward]
    succeeds.  [all_documents] holds [dupe_factor] copies of the
    documents, each listing its sentences in order; each instance masks
    exactly the positions picked from its sentence's predictions.
    [rand_all_documents] is returned only with [with_rand]; it has the
    same layout, and each of its instances masks as many distinct
    positions of the sentence as were picked. *)
Theorem X8_modelgen_forward {RNG} rr ri (randbelow : nat -> RNG -> nat * RNG) vocab tok_id
    max_seq_length model mask_rate with_rand docs dupe_factor (g : RNG) :
  (2 <= max_seq_length)%Z ->
  (forall ids mask, length (model ids mask) = length ids /\ Forall (fun row => row <> []) (model ids mask)) ->
  (forall n g, 0 < n -> (randbelow n g).1 < n) ->
  exists all rand g',
    ModelGen.forward rr ri randbelow vocab tok_id max_seq_length model mask_rate with_rand docs
      dupe_factor g = Some ((all, rand), g') /\
    length all = dupe_factor * length docs /\
    (forall r k, r < dupe_factor -> k < length docs ->
       map mti_tokens (nth (r * length docs + k) all []) = nth k docs []) /\
    (forall doc inst, In doc all -> In inst doc ->
       masks_exactly (mti_tokens inst)
         (ModelGen.select_poses mask_rate
            (ModelGenFacts.sentence_preds tok_id max_seq_length model (mti_tokens inst)) (mti_tokens inst))
         (mti_info inst)) /\
    (with_rand = false -> rand = None) /\
    (with_rand = true -> exists rd, rand = Some rd /\
       map (map mti_tokens) rd = map (map mti_tokens) all /\
       forall doc inst, In doc rd -> In inst doc -> exists cand,
         NoDup cand /\
         length cand = length (ModelGen.select_poses mask_rate
                                 (ModelGenFacts.sentence_preds tok_id max_seq_length model (mti_tokens inst))
                                 (mti_tokens inst)) /\
         (forall i, In i cand -> i < length (mti_tokens inst)) /\
         masks_exactly (mti_tokens inst) cand (mti_info inst)).
Proof. intros Hm Hmodel Hrb. by apply ModelGenRun.forward_spec. Qed.

Lemma X8_witness :
  (2 <= 5)%Z /\
  (forall ids mask, length (ex_model ids mask) = length ids /\
     Forall (fun row => row <> []) (ex_model ids mask)) /\
  (forall n g, 0 < n -> (ex_randbelow n g).1 < n) /\
  exists all rand g',
    ModelGen.forward ex_random ex_randint ex_randbelow ["x"]%string ex_tok_id 5 ex_model (1 # 2) true
      [[["very"; "good"; "food"; "here"]; ["good"]]]%string 1
      [1 # 10; 9 # 10; 3 # 10; 3 # 10; 3 # 10; 1 # 10] = Some ((all, rand), g') /\
    length all = 1 * 1.
Proof.
  assert (Hmodel : forall ids mask, length (ex_model ids mask) = length ids /\
            Forall (fun row => row <> []) (ex_model ids mask)).
  { intros ids mask. unfold ex_model. split; [apply length_map|].
    apply List.Forall_forall. intros r Hr. apply in_map_iff in Hr as [i [<- _]].
    by destruct (5 <? i)%Z. }
  assert (Hrb : forall n g, 0 < n -> (ex_randbelow n g).1 < n)
    by (intros n g Hn; simpl; apply Nat.mod_upper_bound; lia).
  split; [lia|]. split; [exact Hmodel|]. split; [exact Hrb|].
  destruct (X8_modelgen_forward ex_random ex_randint ex_randbelow ["x"]%string ex_tok_id 5 ex_model
              (1 # 2) true [[["very"; "good"; "food"; "here"]; ["good"]]]%string 1
              [1 # 10; 9 # 10; 3 # 10; 3 # 10; 3 # 10; 1 # 10] ltac:(lia) Hmodel Hrb)
    as [all [rand [g' [H [Hl _]]]]].
  exists all, rand, g'. split; [exact H|exact Hl].
Defined.

(** X9: whenever the probe of [ASC.forward] finishes, [ASC.forward]
    succeeds: it returns [dupe_factor] copies of the documents, each a
    single instance holding the document's text, with one entry per
    token and no entry at a position outside the document's salient set
    (whose list has one set per document). *)
Theorem X9_asc_forward {RNG} rr ri vocab is_stop classify tok_id max_seq_length threshold docs
    dupe_factor (g : RNG) L :
  ASC.mask_poses_L classify tok_id max_seq_length threshold docs = PDone L ->
  length L = length docs /\
  exists out g', ASC.forward rr ri vocab is_stop classify tok_id max_seq_length threshold docs
                   dupe_factor g = Some (out, g') /\
    length out = dupe_factor * length docs /\
    forall r k doc s, r < dupe_factor -> docs !! k = Some doc -> L !! k = Some s ->
      exists inst, out !! (r * length docs + k) = Some [inst] /\
        mti_tokens inst = doc.1 /\ length (mti_info inst) = length doc.1 /\
        forall i, i < length doc.1 -> i ∉ s -> mti_info inst !! i = Some None.
Proof.
  intros HL. pose proof (ASCBuild.mask_poses_L_length _ _ _ _ _ _ HL) as Hl.
  split; [exact Hl|]. unfold ASC.forward. rewrite HL.
  destruct (ASCBuild.asc_replicate_docs_spec rr ri vocab is_stop (map fst docs) L dupe_factor g
              ltac:(by rewrite length_map) (asc_mask_poses_ok _ _ _ _ _ _ HL))
    as [out [g' [Hr [Hlo Hk]]]].
  rewrite length_map in Hlo, Hk. exists out, g'. split; [exact Hr|]. split; [exact Hlo|].
  intros r k doc s Hrd Hd Hs.
  assert (Hmd : map fst docs !! k = Some doc.1)
    by (change (map fst docs) with (fst <$> docs); by rewrite list_lookup_fmap, Hd).
  exact (Hk r k doc.1 s Hrd Hmd Hs).
Qed.

Lemma X9_witness :
  ASC.mask_poses_L ex_asc_classify ex_tok_id 8 (1 # 10) ex_asc_docs = PDone [({[0; 1]} : gset nat)] /\
  length [({[0; 1]} : gset nat)] = length ex_asc_docs /\
  exists out g', ASC.forward ex_random ex_randint ["x"]%string ex_is_stop ex_asc_classify ex_tok_id 8
                   (1 # 10) ex_asc_docs 2 [1 # 10; 9 # 10; 3 # 10; 3 # 10; 3 # 10; 1 # 10]
                   = Some (out, g') /\
    length out = 2 * length ex_asc_docs.
Proof.
  assert (HL : ASC.mask_poses_L ex_asc_classify ex_tok_id 8 (1 # 10) ex_asc_docs
               = PDone [({[0; 1]} : gset nat)]) by (vm_compute; reflexivity).
  split; [exact HL|].
  destruct (X9_asc_forward ex_random ex_randint ["x"]%string ex_is_stop ex_asc_classify ex_tok_id 8%Z
              (1 # 10) ex_asc_docs 2 [1 # 10; 9 # 10; 3 # 10; 3 # 10; 3 # 10; 1 # 10] _ HL)
    as [Hl [out [g' [H [Hlo _]]]]].
  split; [exact Hl|]. exists out, g'. split; [exact H|exact Hlo].
Defined.

(** X10: [SC.forward] returns a result exactly when its probe finishes.
    It returns none when the corpus has no sentence ([IndexError] of
    [preds[0]] in the first [self.evaluate], line 104) and none when
    [max_seq_length < 2] ([AssertionError] of the feature conversion).
    A result holds [dupe_factor] copies of the documents, each listing
    one instance per sentence of the document, in order. *)
Theorem X10_sc_forward {RNG} rr ri vocab is_stop classify tok_id max_seq_length top_sen_rate threshold
    docs labels dupe_factor (g : RNG) :
  ((exists out g', SC.forward rr ri vocab is_stop classify tok_id max_seq_length top_sen_rate threshold
                     docs labels dupe_factor g = Some (out, g')) <->
   (exists d, SC.mask_poses_d classify tok_id max_seq_length top_sen_rate threshold docs labels
                = PDone d)) /\
  (SC.sentences docs = [] ->
   SC.forward rr ri vocab is_stop classify tok_id max_seq_length top_sen_rate threshold docs labels
     dupe_factor g = None) /\
  ((max_seq_length < 2)%Z ->
   SC.forward rr ri vocab is_stop classify tok_id max_seq_length top_sen_rate threshold docs labels
     dupe_factor g = None) /\
  (forall out g', SC.forward rr ri vocab is_stop classify tok_id max_seq_length top_sen_rate threshold
                    docs labels dupe_factor g = Some (out, g') ->
     length out = dupe_factor * length docs /\
     forall r k, r < dupe_factor -> k < length docs ->
       exists insts, out !! (r * length docs + k) = Some insts /\ map mti_tokens insts = nth k docs []).
Proof.
  assert (Hnil : SC.sentences docs = [] ->
                 SC.forward rr ri vocab is_stop classify tok_id max_seq_length top_sen_rate threshold docs
                   labels dupe_factor g = None).
  { intros H. unfold SC.forward, SC.mask_poses_d, SC.evaluate. by rewrite H. }
  split; [split|split; [exact Hnil|split]].
  - intros [out [g' H]].
    destruct (SCOutput.forward_layout rr ri vocab is_stop _ _ _ _ _ _ _ _ _ _ _ H) as [d [Hd _]]. eauto.
  - intros [d Hd]. by eapply SCOutput.forward_ok.
  - intros Hm. destruct (SC.sentences docs) as [|s0 ss] eqn:Hs; [by apply Hnil|].
    unfold SC.forward, SC.mask_poses_d. rewrite Hs, (sc_evaluate_small classify tok_id _ (s0 :: ss) Hm)
      by discriminate. reflexivity.
  - intros out g' H.
    destruct (SCOutput.forward_layout rr ri vocab is_stop _ _ _ _ _ _ _ _ _ _ _ H) as [d [_ [Hl Hk]]].
    split; [exact Hl|]. intros r k Hr Hkl.
    destruct (Hk r k Hr Hkl) as [insts [Hi [Ht _]]]. eauto.
Qed.

(** X11: [ASC.forward] returns none when no pair is left for the probe
    (all facts ["conflict"]: [preds[0]] of the first [self.evaluate],
    line 302, raises [IndexError]) and when one (text, aspect) pair
    does not fit [max_seq_length] once the text is cut to
    [max_seq_length - 2] tokens (the [AssertionError] of C5). *)
Theorem X11_asc_forward_errors {RNG} rr ri vocab is_stop classify tok_id max_seq_length threshold docs
    dupe_factor (g : RNG) :
  (ASC.sentences_of docs = [] ->
   ASC.mask_poses_L classify tok_id max_seq_length threshold docs = PIndexError /\
   ASC.forward rr ri vocab is_stop classify tok_id max_seq_length threshold docs dupe_factor g = None) /\
  (forall sd, In sd (ASC.sentences_of docs) ->
   (max_seq_length < Z.of_nat (length (ASC.aspect sd.1) +
                               Nat.min (length (ASC.text sd.1)) (Z.to_nat max_seq_length - 2) + 3))%Z ->
   ASC.mask_poses_L classify tok_id max_seq_length threshold docs = PAssertionError /\
   ASC.forward rr ri vocab is_stop classify tok_id max_seq_length threshold docs dupe_factor g = None).
Proof.
  split.
  - intros H. unfold ASC.forward, ASC.mask_poses_L, ASC.evaluate. rewrite H. split; reflexivity.
  - intros sd Hin Hlt.
    assert (HA : ASC.mask_poses_L classify tok_id max_seq_length threshold docs = PAssertionError).
    { unfold ASC.mask_poses_L, ASC.evaluate, asc_convert_examples_to_features.
      rewrite mapM_None_2; [reflexivity|].
      apply List.Exists_exists. exists (ASC.text sd.1, ASC.aspect sd.1). split.
      - apply in_map_iff. by exists sd.
      - by apply FeatureFacts.asc_feature_none. }
    split; [exact HA|]. unfold ASC.forward. by rewrite HA.
Qed.

Lemma X11_witness :
  ASC.sentences_of [(["good"]%string, [{| ASC.f_aspect := ["food"%string]; ASC.f_polarity := None |}])]
    = [] /\
  ASC.forward ex_random ex_randint ["x"]%string ex_is_stop ex_asc_classify ex_tok_id 8 (1 # 10)
    [(["good"]%string, [{| ASC.f_aspect := ["food"%string]; ASC.f_polarity := None |}])] 1 [1 # 10]
    = None /\
  ASC.forward ex_random ex_randint ["x"]%string ex_is_stop ex_asc_classify ex_tok_id 8 (1 # 10)
    [(["the"; "food"; "was"; "great"; "and"; "cheap"]%string,
      [{| ASC.f_aspect := ["service"%string]; ASC.f_polarity := Some 1 |}])] 1 [1 # 10]
    = None.
Proof.
  assert (H0 : ASC.sentences_of
                 [(["good"]%string, [{| ASC.f_aspect := ["food"%string]; ASC.f_polarity := None |}])]
               = []) by reflexivity.
  split; [exact H0|]. split.
  - exact (proj2 (proj1 (X11_asc_forward_errors ex_random ex_randint ["x"]%string ex_is_stop
                           ex_asc_classify ex_tok_id 8%Z (1 # 10) _ 1 [1 # 10]) H0)).
  - apply (proj2 (proj2 (X11_asc_forward_errors ex_random ex_randint ["x"]%string ex_is_stop
                           ex_asc_classify ex_tok_id 8%Z (1 # 10)
                           [(["the"; "food"; "was"; "great"; "and"; "cheap"]%string,
                             [{| ASC.f_aspect := ["service"%string]; ASC.f_polarity := Some 1 |}])]
                           1 [1 # 10])
                   ({| ASC.text := ["the"; "food"; "was"; "great"; "and"; "cheap"]%string;
                       ASC.aspect := ["service"%string]; ASC.label := 1 |}, 0)
                   ltac:(vm_compute; left; reflexivity)
                   ltac:(vm_compute; reflexivity))).
Defined.
